(** * Model-path validation of cortex (pkg/workloads/cortex/lib/model/validation.py)

    A shallow embedding of the template matcher that checks the S3 keys of a
    model against the directory template of its predictor type, the
    properties of it that the specification states, and further properties
    of the functions of the module.

    Conventions of the embedding.
    - Python [str] is [string]; a character is a code point below 256.
    - A Python exception is a value of [exn]; a call yields a [result].
    - The [while] loop of [get_leftmost_part_of_path] and the recursion of
      [_validate_s3_model_paths] run on fuel; [OutOfFuel] stands for a run
      that has not finished within the fuel it was given.
    - What Python leaves to the process is a variable of [Section Matcher]:
      the working directory read by [os.path.relpath], the order in which
      [list(set(...))] enumerates a set, and [str] of a predictor type. *)

From Stdlib Require Import List String Ascii Bool Arith ZArith Lia Permutation Sorted.
Import ListNotations.
Local Open Scope list_scope.
Local Open Scope string_scope.
Set Warnings "-register-all".

(** ** Exceptions and results *)

(** Modelled from the spec: [cortex.lib.exceptions.CortexException] is not in
    the sources. It is built from one or more message strings (a context label
    and a message, or a message alone) and [str] renders them
    outer-to-inner, joined by a colon and a space. *)
Inductive exn : Type :=
| CortexException (messages : list string)
| KeyError
| ValueError
| TypeError
| AttributeError
| IndexError.

Definition str_exception (messages : list string) : string :=
  String.concat ": " messages.

Inductive result (A : Type) : Type :=
| Ok (a : A)
| Raise (e : exn)
| OutOfFuel.

Arguments Ok {A} a.
Arguments Raise {A} e.
Arguments OutOfFuel {A}.

Definition bind {A B : Type} (r : result A) (k : A -> result B) : result B :=
  match r with
  | Ok a => k a
  | Raise e => Raise e
  | OutOfFuel => OutOfFuel
  end.

Notation "x <- r ;; k" := (bind r (fun x => k))
  (at level 61, r at next level, right associativity).

Fixpoint mapM {A B : Type} (f : A -> result B) (l : list A) : result (list B) :=
  match l with
  | [] => Ok []
  | a :: l' => b <- f a ;; bs <- mapM f l' ;; Ok (b :: bs)
  end.

(** ** Python strings *)

Definition sep : ascii := "/"%char.

Definition startswith (s pre : string) : bool := String.prefix pre s.

Fixpoint endswith_char (s : string) (c : ascii) : bool :=
  match s with
  | EmptyString => false
  | String a EmptyString => Ascii.eqb a c
  | String _ s' => endswith_char s' c
  end.

(** [s.split("/")] *)
Fixpoint str_split (s : string) : list string :=
  match s with
  | EmptyString => [EmptyString]
  | String c s' =>
      if Ascii.eqb c sep then EmptyString :: str_split s'
      else match str_split s' with
           | [] => [String c EmptyString]
           | h :: t => String c h :: t
           end
  end.

Fixpoint mem_char (c : ascii) (chars : string) : bool :=
  match chars with
  | EmptyString => false
  | String a chars' => Ascii.eqb a c || mem_char c chars'
  end.

Fixpoint lstrip (chars s : string) : string :=
  match s with
  | EmptyString => EmptyString
  | String c s' => if mem_char c chars then lstrip chars s' else s
  end.

Fixpoint rstrip (chars s : string) : string :=
  match s with
  | EmptyString => EmptyString
  | String c s' =>
      match rstrip chars s' with
      | EmptyString => if mem_char c chars then EmptyString else String c EmptyString
      | r => String c r
      end
  end.

(** [s.strip(chars)] *)
Definition strip (chars s : string) : string := rstrip chars (lstrip chars s).

(** The characters below 256 that [str.isnumeric] accepts: the ten digits,
    the superscripts one, two and three, and the three vulgar fractions. *)
Definition isnumeric_char (c : ascii) : bool :=
  let n := nat_of_ascii c in
  (((48 <=? n) && (n <=? 57)) || (n =? 178) || (n =? 179) || (n =? 185)
   || ((188 <=? n) && (n <=? 190)))%nat.

Fixpoint all_chars (p : ascii -> bool) (s : string) : bool :=
  match s with
  | EmptyString => true
  | String c s' => p c && all_chars p s'
  end.

(** [s.isnumeric()]: at least one character, all of them numeric. *)
Definition isnumeric (s : string) : bool :=
  match s with
  | EmptyString => false
  | _ => all_chars isnumeric_char s
  end.

(** *** [repr] of a string and [str] of a list of strings *)

Definition squote : ascii := "'"%char.
Definition dquote : ascii := "034"%char.
Definition backslash : ascii := "\"%char.

Definition hex_digit (n : nat) : ascii :=
  nth n (list_ascii_of_string "0123456789abcdef") "0"%char.

Definition hex_escape (c : ascii) : string :=
  let n := nat_of_ascii c in
  String backslash (String "x" (String (hex_digit (n / 16)) (String (hex_digit (n mod 16)) EmptyString))).

Definition isprintable_char (c : ascii) : bool :=
  let n := nat_of_ascii c in
  (((32 <=? n) && (n <? 127)) || ((161 <=? n) && negb (n =? 173)))%nat.

Definition repr_char (quote c : ascii) : string :=
  if Ascii.eqb c quote || Ascii.eqb c backslash then String backslash (String c EmptyString)
  else if Ascii.eqb c "009" then "\t"
  else if Ascii.eqb c "010" then "\n"
  else if Ascii.eqb c "013" then "\r"
  else if isprintable_char c then String c EmptyString
  else hex_escape c.

Fixpoint repr_body (quote : ascii) (s : string) : string :=
  match s with
  | EmptyString => EmptyString
  | String c s' => repr_char quote c ++ repr_body quote s'
  end.

Definition repr (s : string) : string :=
  let quote := if mem_char squote s && negb (mem_char dquote s) then dquote else squote in
  String quote (repr_body quote s ++ String quote EmptyString).

(** [str(l)] for a list of strings *)
Definition str_list (l : list string) : string :=
  "[" ++ String.concat ", " (map repr l) ++ "]".

(** ** [os.path] on POSIX *)

Definition isabs (p : string) : bool := startswith p "/".

(** [os.path.join(a, b)] *)
Definition os_path_join (a b : string) : string :=
  if startswith b "/" then b
  else if String.eqb a "" || endswith_char a sep then a ++ b
  else a ++ "/" ++ b.

(** [(p[:i], p[i:])] for [i = p.rfind("/") + 1] *)
Fixpoint rpartition_sep (p : string) : string * string :=
  match p with
  | EmptyString => (EmptyString, EmptyString)
  | String c p' =>
      let (head, tail) := rpartition_sep p' in
      if Ascii.eqb c sep then (String c head, tail)
      else match head with
           | EmptyString => (EmptyString, String c tail)
           | _ => (String c head, tail)
           end
  end.

(** [os.path.split(p)] *)
Definition os_path_split (p : string) : string * string :=
  let (head, tail) := rpartition_sep p in
  match head with
  | EmptyString => (head, tail)
  | _ => if all_chars (Ascii.eqb sep) head then (head, tail) else (rstrip "/" head, tail)
  end.

(** One pass of [os.path.normpath] over the components of an absolute path,
    the components kept so far held innermost first. *)
Definition norm_step (stack : list string) (comp : string) : list string :=
  if String.eqb comp "" || String.eqb comp "." then stack
  else if String.eqb comp ".." then tl stack
  else comp :: stack.

Definition normalize (comps : list string) : list string :=
  rev (fold_left norm_step comps []).

(** [os.path.commonprefix([l1, l2])] on two lists of components *)
Fixpoint commonprefix_list (l1 l2 : list string) : list string :=
  match l1, l2 with
  | a :: l1', b :: l2' => if String.eqb a b then a :: commonprefix_list l1' l2' else []
  | _, _ => []
  end.

(** [[".."] * (len(start_list) - i) + path_list[i:]] of [os.path.relpath] *)
Definition rel_list (start_list path_list : list string) : list string :=
  let i := List.length (commonprefix_list start_list path_list) in
  (repeat ".." (List.length start_list - i) ++ skipn i path_list)%list.

(** [os.path.split] until nothing is left of the path, as the [while] loop of
    [get_leftmost_part_of_path] does; one unit of fuel per iteration. *)
Fixpoint get_leftmost_loop (fuel : nat) (path basename : string) : result string :=
  match path with
  | EmptyString => Ok basename
  | _ =>
      match fuel with
      | O => OutOfFuel
      | S fuel' =>
          let (path', basename') := os_path_split path in
          get_leftmost_loop fuel' path' basename'
      end
  end.

(** Every iteration that ends shortens the path, so a loop that ends at all
    ends within as many iterations as the path has characters
    ([get_leftmost_loop_ends] and [get_leftmost_loop_absolute] below). *)
Definition get_leftmost_part_of_path (path : string) : result string :=
  get_leftmost_loop (String.length path) path "".

(** ** Placeholders *)

(** The three classes a template key is made of. [TemplatePlaceholder] and
    [GenericPlaceholder] are named tuples, given here by their fields;
    a [PlaceholderGroup] is an ordinary object, so it carries the identity
    [id] that its inherited [__eq__] and [__hash__] go by. *)
Inductive Placeholder : Type :=
| TemplatePlaceholder (placeholder : string) (priority : Z)
| GenericPlaceholder (placeholder value : string) (priority : Z)
| PlaceholderGroup (id : nat) (parts : list Placeholder) (priority : option Z).

(** [TemplatePlaceholder.__new__] *)
Definition new_TemplatePlaceholder (placeholder : string) (priority : Z) : Placeholder :=
  TemplatePlaceholder ("<" ++ placeholder ++ ">") priority.

(** [GenericPlaceholder.__new__] *)
Definition new_GenericPlaceholder (value : string) : Placeholder :=
  GenericPlaceholder "<generic>" value 0.

Definition IntegerPlaceholder : Placeholder := new_TemplatePlaceholder "integer" 1.
Definition SinglePlaceholder : Placeholder := new_TemplatePlaceholder "single" 2.
Definition ExclAlternativePlaceholder : Placeholder := new_TemplatePlaceholder "exclusive" 3.
Definition AnyPlaceholder : Placeholder := new_TemplatePlaceholder "any" 4.

(** The attribute [priority]; [None] is Python's [None], what a group built
    without the keyword has. *)
Definition priority_of (k : Placeholder) : option Z :=
  match k with
  | TemplatePlaceholder _ p => Some p
  | GenericPlaceholder _ _ p => Some p
  | PlaceholderGroup _ _ p => p
  end.

(** [str(k)] of a template or generic placeholder, the two kinds that the
    messages render *)
Definition str_placeholder (k : Placeholder) : string :=
  match k with
  | TemplatePlaceholder ph _ => ph
  | GenericPlaceholder _ v _ => v
  | PlaceholderGroup _ _ _ => ""
  end.

(** The property [type] *)
Definition type_of (k : Placeholder) : string :=
  match k with
  | TemplatePlaceholder ph _ => strip "<>" ph
  | GenericPlaceholder ph _ _ => strip "<>" ph
  | PlaceholderGroup _ _ _ => ""
  end.

(** [a == b]. Two template placeholders compare as tuples;
    [GenericPlaceholder.__eq__] looks at the field [placeholder] alone and
    answers [False] to anything that is not a generic placeholder; a group
    inherits [object.__eq__], which is identity. *)
Definition placeholder_eq (a b : Placeholder) : bool :=
  match a, b with
  | TemplatePlaceholder ph1 p1, TemplatePlaceholder ph2 p2 => String.eqb ph1 ph2 && Z.eqb p1 p2
  | GenericPlaceholder ph1 _ _, GenericPlaceholder ph2 _ _ => String.eqb ph1 ph2
  | PlaceholderGroup id1 _ _, PlaceholderGroup id2 _ _ => Nat.eqb id1 id2
  | _, _ => false
  end.

(** What [hash] is computed from: the whole tuple for a template placeholder,
    the pair [(placeholder, value)] for a generic one
    ([GenericPlaceholder.__hash__]), the identity for a group. The hash itself
    is taken to be free of collisions, so two hashes agree exactly when what
    they were computed from agrees. *)
Inductive hashed : Type :=
| HashTemplate (placeholder : string) (priority : Z)
| HashGeneric (placeholder value : string)
| HashObject (id : nat).

Definition hash (k : Placeholder) : hashed :=
  match k with
  | TemplatePlaceholder ph p => HashTemplate ph p
  | GenericPlaceholder ph v _ => HashGeneric ph v
  | PlaceholderGroup i _ _ => HashObject i
  end.

Definition hashed_eqb (h1 h2 : hashed) : bool :=
  match h1, h2 with
  | HashTemplate ph1 p1, HashTemplate ph2 p2 => String.eqb ph1 ph2 && Z.eqb p1 p2
  | HashGeneric ph1 v1, HashGeneric ph2 v2 => String.eqb ph1 ph2 && String.eqb v1 v2
  | HashObject i1, HashObject i2 => Nat.eqb i1 i2
  | _, _ => false
  end.

(** When a dict takes [k] for the key [k'] it already holds: equal hashes and
    [k' == k]. *)
Definition same_key (k' k : Placeholder) : bool :=
  hashed_eqb (hash k') (hash k) && placeholder_eq k' k.

(** ** Templates *)

(** A node of a template: [None], a dict from placeholders to nodes in
    insertion order, or a bare placeholder (the shadowed first template has
    one as a value). *)
Inductive Pattern : Type :=
| PNone
| PDict (items : list (Placeholder * Pattern))
| PValue (v : Placeholder).

(** [list(pattern.keys())] *)
Definition dict_keys (items : list (Placeholder * Pattern)) : list Placeholder :=
  map fst items.

(** [pattern[key]] *)
Fixpoint dict_get (items : list (Placeholder * Pattern)) (key : Placeholder) : result Pattern :=
  match items with
  | [] => Raise KeyError
  | (k', v) :: items' => if same_key k' key then Ok v else dict_get items' key
  end.

(** Modelled from the spec: the predictor types of [cortex.lib.api], which is
    not in the sources; the spec lists them as an enumeration. *)
Inductive PredictorType : Type :=
| PythonPredictorType
| TensorFlowPredictorType
| ONNXPredictorType.

Definition PredictorType_eqb (a b : PredictorType) : bool :=
  match a, b with
  | PythonPredictorType, PythonPredictorType => true
  | TensorFlowPredictorType, TensorFlowPredictorType => true
  | ONNXPredictorType, ONNXPredictorType => true
  | _, _ => false
  end.

(** The first assignment to [model_template], which the second one replaces
    before any function of the module runs. *)
Definition model_template_shadowed : list (PredictorType * Pattern) :=
  [ (PythonPredictorType, PDict [ (IntegerPlaceholder, PValue AnyPlaceholder) ]);
    (TensorFlowPredictorType,
      PDict [ (IntegerPlaceholder,
                PDict [ (AnyPlaceholder, PNone);
                        (new_GenericPlaceholder "saved_model.pb", PNone);
                        (new_GenericPlaceholder "variables",
                          PDict [ (new_GenericPlaceholder "variables.index", PNone);
                                  (PlaceholderGroup 0
                                     [ new_GenericPlaceholder "variables.data-00000-of-";
                                       AnyPlaceholder ] None, PNone);
                                  (AnyPlaceholder, PNone) ]) ]) ]);
    (ONNXPredictorType,
      PDict [ (IntegerPlaceholder,
                PDict [ (PlaceholderGroup 1
                           [ SinglePlaceholder; new_GenericPlaceholder ".onnx" ] None, PNone) ]);
              (PlaceholderGroup 2
                 [ ExclAlternativePlaceholder; SinglePlaceholder;
                   new_GenericPlaceholder ".onnx" ] None, PNone) ]) ].

(** The second assignment: the value of [model_template] that the functions of
    the module see. *)
Definition model_template : list (PredictorType * Pattern) :=
  [ (PythonPredictorType,
      PDict [ (IntegerPlaceholder, PNone);
              (AnyPlaceholder, PNone);
              (new_GenericPlaceholder "0model.onnx",
                PDict [ (new_GenericPlaceholder "123", PNone);
                        (IntegerPlaceholder, PNone) ]) ]) ].

(** [template[predictor_type]] *)
Fixpoint template_get (template : list (PredictorType * Pattern)) (predictor_type : PredictorType)
  : result Pattern :=
  match template with
  | [] => Raise KeyError
  | (t, p) :: template' =>
      if PredictorType_eqb t predictor_type then Ok p else template_get template' predictor_type
  end.

Definition single_model_pattern (predictor_type : PredictorType) : result Pattern :=
  template_get model_template predictor_type.

Definition dir_models_pattern (predictor_type : PredictorType) : result Pattern :=
  p <- template_get model_template predictor_type ;; Ok (PDict [ (SinglePlaceholder, p) ]).

(** ** The rule validators *)

(** An entry of the array [visited]: [False], or the index of the key that
    claimed the object. *)
Inductive visit : Type :=
| NotVisited
| VisitedBy (key_id : nat).

Definition is_False (v : visit) : bool :=
  match v with
  | NotVisited => true
  | VisitedBy _ => false
  end.

(** [visited[idx] = v], for an index that is in range *)
Fixpoint list_update {A : Type} (l : list A) (idx : nat) (v : A) : list A :=
  match l, idx with
  | [], _ => []
  | _ :: l', O => v :: l'
  | a :: l', S idx' => a :: list_update l' idx' v
  end.

(** [l[idx]] *)
Definition getitem {A : Type} (l : list A) (idx : nat) : result A :=
  match nth_error l idx with
  | Some a => Ok a
  | None => Raise IndexError
  end.

(** A validator is given the array and returns the array as it has left it;
    one that raises leaves the frame with it, and nothing reads the array it
    had written to. *)

(** The loop of [validate_integer_placeholder] from index [idx] on, with the
    appearances counted so far. *)
Fixpoint integer_loop (key_id idx : nat) (objects : list string) (visited : list visit)
  (appearances : nat) : result (list visit * nat) :=
  match objects with
  | [] => Ok (visited, appearances)
  | obj :: objects' =>
      if isnumeric obj then
        v <- getitem visited idx ;;
        if is_False v
        then integer_loop key_id (S idx) objects' (list_update visited idx (VisitedBy key_id))
               (S appearances)
        else integer_loop key_id (S idx) objects' visited appearances
      else integer_loop key_id (S idx) objects' visited appearances
  end.

Definition validate_integer_placeholder (placeholders : list Placeholder) (key_id : nat)
  (objects : list string) (visited : list visit) : result (list visit) :=
  r <- integer_loop key_id 0 objects visited 0 ;;
  let (visited', appearances) := r in
  if (1 <? appearances)%nat && (List.length placeholders =? 1)%nat then
    Raise (CortexException [ "too many " ++ str_placeholder IntegerPlaceholder
                               ++ " appearances in path" ])
  else if (appearances =? 0)%nat then
    Raise (CortexException [ str_placeholder IntegerPlaceholder ++ " not found in path" ])
  else Ok visited'.

Definition validate_any_placeholder (placeholders : list Placeholder) (key_id : nat)
  (objects : list string) (visited : list visit) : result (list visit) :=
  Ok (map (fun v => if is_False v then VisitedBy key_id else v) visited).

Definition validate_single_placeholder (placeholders : list Placeholder) (key_id : nat)
  (objects : list string) (visited : list visit) : result (list visit) :=
  if (1 <? List.length placeholders)%nat || (1 <? List.length objects)%nat then
    Raise (CortexException [ "only a single " ++ str_placeholder SinglePlaceholder
                               ++ " is allowed per directory" ])
  else
    match visited with
    | NotVisited :: visited' => Ok (VisitedBy key_id :: visited')
    | _ => Ok visited
    end.

(** The loop of [validate_generic_placeholder] from index [idx] on; it ends
    at the first object equal to [value] ([Some], the array as the [break]
    leaves it) or at the end of the objects ([None], nothing found). *)
Fixpoint generic_loop (key_id idx : nat) (value : string) (objects : list string)
  (visited : list visit) : result (option (list visit)) :=
  match objects with
  | [] => Ok None
  | obj :: objects' =>
      if String.eqb obj value then
        v <- getitem visited idx ;;
        Ok (Some (if is_False v then list_update visited idx (VisitedBy key_id) else visited))
      else generic_loop key_id (S idx) value objects' visited
  end.

(** [generical.value]; the frame passes a generic placeholder only. *)
Definition generic_value (generical : Placeholder) : string :=
  match generical with
  | GenericPlaceholder _ v _ => v
  | _ => ""
  end.

Definition validate_generic_placeholder (placeholders : list Placeholder) (key_id : nat)
  (objects : list string) (visited : list visit) (generical : Placeholder)
  : result (list visit) :=
  found <- generic_loop key_id 0 (generic_value generical) objects visited ;;
  match found with
  | Some visited' => Ok visited'
  | None =>
      Raise (CortexException [ type_of generical ++ " placeholder for "
                                 ++ str_placeholder generical ++ " wasn't found" ])
  end.

Definition validate_group_placeholder (placeholders : list Placeholder) (key_id : nat)
  (objects : list string) (visited : list visit) : result (list visit) :=
  Ok visited.

Definition validate_exclusive_placeholder (placeholders : list Placeholder) (key_id : nat)
  (objects : list string) (visited : list visit) : result (list visit) :=
  Ok visited.

Definition is_PlaceholderGroup (k : Placeholder) : bool :=
  match k with
  | PlaceholderGroup _ _ _ => true
  | _ => false
  end.

(** The body of the loop over [enumerate(keys)]: the chain of comparisons
    that picks the validator of [key]. *)
Definition validate_key (keys : list Placeholder) (key_id : nat) (key : Placeholder)
  (objects : list string) (visited : list visit) : result (list visit) :=
  if placeholder_eq key IntegerPlaceholder then
    validate_integer_placeholder keys key_id objects visited
  else if placeholder_eq key AnyPlaceholder then
    validate_any_placeholder keys key_id objects visited
  else if placeholder_eq key SinglePlaceholder then
    validate_single_placeholder keys key_id objects visited
  else if placeholder_eq key (new_GenericPlaceholder "") then
    validate_generic_placeholder keys key_id objects visited key
  else if is_PlaceholderGroup key then
    validate_group_placeholder keys key_id objects visited
  else if placeholder_eq key ExclAlternativePlaceholder then
    validate_exclusive_placeholder keys key_id objects visited
  else Raise (CortexException [ "found a non-placeholder object in model template" ]).

(** The loop over [enumerate(keys)], from index [key_id] on *)
Fixpoint validate_keys (keys : list Placeholder) (key_id : nat) (rest : list Placeholder)
  (objects : list string) (visited : list visit) : result (list visit) :=
  match rest with
  | [] => Ok visited
  | key :: rest' =>
      visited' <- validate_key keys key_id key objects visited ;;
      validate_keys keys (S key_id) rest' objects visited'
  end.

(** [keys.sort(key=operator.attrgetter("priority"))]: a stable sort on the
    priorities. Ordering [None] against anything is a [TypeError], and a sort
    of two or more elements compares every one of them. *)
Fixpoint insert_by_priority (k : Placeholder) (p : Z) (sorted : list (Z * Placeholder))
  : list (Z * Placeholder) :=
  match sorted with
  | [] => [ (p, k) ]
  | (q, k') :: sorted' =>
      if (p <=? q)%Z then (p, k) :: sorted
      else (q, k') :: insert_by_priority k p sorted'
  end.

Fixpoint sort_decorated (keys : list (Z * Placeholder)) : list (Z * Placeholder) :=
  match keys with
  | [] => []
  | (p, k) :: keys' => insert_by_priority k p (sort_decorated keys')
  end.

Fixpoint decorate (keys : list Placeholder) : option (list (Z * Placeholder)) :=
  match keys with
  | [] => Some []
  | k :: keys' =>
      match priority_of k, decorate keys' with
      | Some p, Some d => Some ((p, k) :: d)
      | _, _ => None
      end
  end.

Definition sort_keys (keys : list Placeholder) : result (list Placeholder) :=
  if (List.length keys <? 2)%nat then Ok keys
  else match decorate keys with
       | Some d => Ok (map snd (sort_decorated d))
       | None => Raise TypeError
       end.

(** The unvisited entries of [visited], each answered with [paths[idx]] *)
Fixpoint unvisited_from (paths : list string) (idx : nat) (visited : list visit)
  : result (list string) :=
  match visited with
  | [] => Ok []
  | v :: visited' =>
      if is_False v then
        p <- getitem paths idx ;;
        ps <- unvisited_from paths (S idx) visited' ;;
        Ok (p :: ps)
      else unvisited_from paths (S idx) visited'
  end.

(** [keys[key_id]] for an entry of [visited]; [False] indexes as [0]. *)
Definition key_index (v : visit) : nat :=
  match v with
  | NotVisited => 0
  | VisitedBy key_id => key_id
  end.

(** ** The matcher *)

Section Matcher.

(** [os.getcwd()] *)
Variable cwd : string.

(** [list(set(l))]: the elements of [l] once each, in the order the process
    enumerates the set in. *)
Variable list_set : list string -> list string.

(** [str(predictor_type)], as the f-strings of the messages render it. *)
Variable str_predictor_type : PredictorType -> string.

(** The components of [os.path.abspath(p)] *)
Definition abspath_list (p : string) : list string :=
  normalize (str_split (if isabs p then p else os_path_join cwd p)).

(** [os.path.relpath(path, start)] *)
Definition relpath (path start : string) : result string :=
  if String.eqb path "" then Raise ValueError
  else
    match rel_list (abspath_list start) (abspath_list path) with
    | [] => Ok "."
    | rel => Ok (String.concat "/" rel)
    end.

(** The two context labels of the messages *)
Definition context (predictor_type : PredictorType) (commonprefix : string) : string :=
  str_predictor_type predictor_type ++ " predictor at '" ++ commonprefix ++ "'".

Definition model_context (predictor_type : PredictorType) (commonprefix : string) : string :=
  str_predictor_type predictor_type ++ " predictor model at '" ++ commonprefix ++ "'".

(** The relative paths of a frame: lines 209 and 210. *)
Definition level_paths (s3_paths : list string) (commonprefix : string) : result (list string) :=
  paths <- mapM (fun s3_path => relpath s3_path commonprefix) s3_paths ;;
  Ok (filter (fun path => negb (startswith path "../")) paths).

(** The objects of a frame: lines 212 and 213. *)
Definition level_objects (paths : list string) : result (list string) :=
  objects <- mapM get_leftmost_part_of_path paths ;;
  Ok (list_set objects).

(** The [try] statement of a frame: a [CortexException] of a validator is
    raised again under the context of the frame; any other exception passes. *)
Definition try_validate_keys (predictor_type : PredictorType) (commonprefix : string)
  (keys : list Placeholder) (objects : list string) (visited : list visit)
  : result (list visit) :=
  match validate_keys keys 0 keys objects visited with
  | Raise (CortexException messages) =>
      Raise (CortexException [ context predictor_type commonprefix; str_exception messages ])
  | r => r
  end.

(** The check for unvisited objects that follows the [try] statement *)
Definition check_unvisited (predictor_type : PredictorType) (commonprefix : string)
  (paths : list string) (visited : list visit) : result unit :=
  unvisited_paths <- unvisited_from paths 0 visited ;;
  if (0 <? List.length unvisited_paths)%nat then
    Raise (CortexException [ model_context predictor_type commonprefix;
                             "unexpected path(s) for " ++ str_list unvisited_paths ])
  else Ok tt.

(** What a frame does at its own level once the keys are sorted: the rules in
    order, then the check for unvisited objects. It yields the array
    [visited] that the descent into the objects reads. *)
Definition match_level (predictor_type : PredictorType) (commonprefix : string)
  (keys : list Placeholder) (paths objects : list string) : result (list visit) :=
  visited <- try_validate_keys predictor_type commonprefix keys objects
               (repeat NotVisited (List.length objects)) ;;
  _ <- check_unvisited predictor_type commonprefix paths visited ;;
  Ok visited.

(** The last loop of a frame, from the object of index [obj_id] on: [rec] is
    the matcher itself. *)
Fixpoint descend (rec : Pattern -> string -> result unit) (items : list (Placeholder * Pattern))
  (keys : list Placeholder) (objects : list string) (commonprefix : string) (obj_id : nat)
  (visited : list visit) : result unit :=
  match visited with
  | [] => Ok tt
  | v :: visited' =>
      obj <- getitem objects obj_id ;;
      key <- getitem keys (key_index v) ;;
      let new_commonprefix := os_path_join commonprefix obj in
      sub_pattern <- dict_get items key ;;
      _ <- rec sub_pattern new_commonprefix ;;
      descend rec items keys objects commonprefix (S obj_id) visited'
  end.

(** The inner function of [validate_s3_model_paths]; [predictor_type] and
    [s3_paths] are the same in every frame. One unit of fuel per frame. *)
Fixpoint _validate_s3_model_paths (fuel : nat) (predictor_type : PredictorType)
  (pattern : Pattern) (s3_paths : list string) (commonprefix : string) : result unit :=
  match fuel with
  | O => OutOfFuel
  | S fuel' =>
      paths <- level_paths s3_paths commonprefix ;;
      objects <- level_objects paths ;;
      match pattern with
      | PNone =>
          match objects with
          | [ obj ] =>
              if String.eqb obj "." then Ok tt
              else Raise (CortexException
                            [ context predictor_type commonprefix;
                              "template doesn't specify a substructure for the given path" ])
          | _ => Raise (CortexException
                          [ context predictor_type commonprefix;
                            "template doesn't specify a substructure for the given path" ])
          end
      | PValue _ => Raise AttributeError
      | PDict items =>
          keys <- sort_keys (dict_keys items) ;;
          visited <- match_level predictor_type commonprefix keys paths objects ;;
          descend (fun sub_pattern new_commonprefix =>
                     _validate_s3_model_paths fuel' predictor_type sub_pattern s3_paths
                       new_commonprefix)
            items keys objects commonprefix 0 visited
      end
  end.

(** [validate_s3_model_paths] on the given fuel *)
Definition validate_s3_model_paths_fuel (fuel : nat) (s3_paths : list string)
  (predictor_type : PredictorType) (commonprefix : string) : result unit :=
  match s3_paths with
  | [] => Raise (CortexException [ context predictor_type commonprefix;
                                   "model path can't be empty" ])
  | _ =>
      pattern <- single_model_pattern predictor_type ;;
      _validate_s3_model_paths fuel predictor_type pattern s3_paths commonprefix
  end.

(** The height of a template: the number of dicts on its longest branch. *)
Fixpoint pattern_depth (pattern : Pattern) : nat :=
  match pattern with
  | PDict items =>
      S ((fix items_depth (l : list (Placeholder * Pattern)) : nat :=
            match l with
            | [] => 0
            | (_, sub_pattern) :: l' => Nat.max (pattern_depth sub_pattern) (items_depth l')
            end) items)
  | _ => 0
  end.

(** Fuel that lets every frame of a match against the template of
    [predictor_type] run ([frame_terminates] below). *)
Definition enough_fuel (predictor_type : PredictorType) : nat :=
  match single_model_pattern predictor_type with
  | Ok pattern => S (pattern_depth pattern)
  | _ => 0
  end.

(** [validate_s3_model_paths], on fuel enough for the template in force *)
Definition validate_s3_model_paths (s3_paths : list string) (predictor_type : PredictorType)
  (commonprefix : string) : result unit :=
  validate_s3_model_paths_fuel (enough_fuel predictor_type) s3_paths predictor_type commonprefix.

(** [validate_s3_model_paths] as it would run were [template] the value of
    [model_template]; it serves to set the two assignments side by side. *)
Definition validate_with_template (template : list (PredictorType * Pattern))
  (s3_paths : list string) (predictor_type : PredictorType) (commonprefix : string)
  : result unit :=
  match s3_paths with
  | [] => Raise (CortexException [ context predictor_type commonprefix;
                                   "model path can't be empty" ])
  | _ =>
      pattern <- template_get template predictor_type ;;
      _validate_s3_model_paths (S (pattern_depth pattern)) predictor_type pattern s3_paths
        commonprefix
  end.

End Matcher.

(** ** A process to run the matcher in *)

(** The root as working directory, a set enumerated in the order its elements
    first came in, and the predictor types rendered by their short names. *)
Definition root_cwd : string := "/".

(** The elements of [l] that are not in [seen], each at its first place *)
Fixpoint first_seen (seen l : list string) : list string :=
  match l with
  | [] => []
  | x :: l' =>
      if existsb (String.eqb x) seen then first_seen seen l'
      else x :: first_seen (x :: seen) l'
  end.

Definition list_set_first_seen (l : list string) : list string := first_seen [] l.

Definition short_name (predictor_type : PredictorType) : string :=
  match predictor_type with
  | PythonPredictorType => "python"
  | TensorFlowPredictorType => "tensorflow"
  | ONNXPredictorType => "onnx"
  end.

(** [validate_s3_model_paths] in that process *)
Definition run_validate (s3_paths : list string) (predictor_type : PredictorType)
  (commonprefix : string) : result unit :=
  validate_s3_model_paths root_cwd list_set_first_seen short_name s3_paths predictor_type
    commonprefix.

(** ** The rendering of a template *)

(** [str] of a tuple, given the [repr] of its elements *)
Definition str_tuple (reprs : list string) : string :=
  match reprs with
  | [] => "()"
  | [ r ] => "(" ++ r ++ ",)"
  | _ => "(" ++ String.concat ", " reprs ++ ")"
  end.

(** [str(k)] and [repr(k)], which every class defines alike: the field
    [placeholder] of a template placeholder, the value of a generic one, the
    tuple of the parts of a group. *)
Fixpoint str_key (k : Placeholder) : string :=
  match k with
  | TemplatePlaceholder ph _ => ph
  | GenericPlaceholder _ v _ => v
  | PlaceholderGroup _ parts _ => str_tuple (map str_key parts)
  end.

(** What [json_model_template_representation] returns: [None], a string, or
    a dict from strings, in insertion order. *)
Inductive Representation : Type :=
| RNone
| RStr (s : string)
| RDict (items : list (string * Representation)).

(** [dct[key] = value] on a dict from strings: the value of a key that is
    there is replaced where it stands, a new key goes last. *)
Fixpoint representation_set (dct : list (string * Representation)) (key : string)
  (value : Representation) : list (string * Representation) :=
  match dct with
  | [] => [ (key, value) ]
  | (k, v) :: dct' =>
      if String.eqb k key then (k, value) :: dct'
      else (k, v) :: representation_set dct' key value
  end.

(** The value under [key], if the dict has the key *)
Fixpoint representation_get (dct : list (string * Representation)) (key : string)
  : option Representation :=
  match dct with
  | [] => None
  | (k, v) :: dct' => if String.eqb k key then Some v else representation_get dct' key
  end.

(** [json_model_template_representation] on a node of a template; the inner
    function is its loop over the keys, with the dict under construction. A
    dict holds a key once, so [model_template[key]] is the value that stands
    with the key. *)
Fixpoint json_model_template_representation (model_template : Pattern) : Representation :=
  match model_template with
  | PNone => RNone
  | PDict items =>
      RDict ((fix loop (l : list (Placeholder * Pattern)) (dct : list (string * Representation))
                : list (string * Representation) :=
                match l with
                | [] => dct
                | (key, sub) :: l' =>
                    loop l' (representation_set dct (str_key key)
                               (json_model_template_representation sub))
                end) items [])
  | PValue v => RStr (str_key v)
  end.

(** ** The vocabulary of the properties *)

(** A run that has ended, with a value or with an exception *)
Definition finished {A : Type} (r : result A) : Prop := r <> OutOfFuel.

(** The objects a rule finds numeric *)
Definition count_numeric (objects : list string) : nat :=
  List.length (filter isnumeric objects).

(** The array an Integer rule of index [key_id] leaves of a fresh one *)
Definition claim_numeric (key_id : nat) (objects : list string) : list visit :=
  map (fun obj => if isnumeric obj then VisitedBy key_id else NotVisited) objects.

(** No entry of the array is [False]. *)
Definition all_visited (visited : list visit) : bool :=
  forallb (fun v => negb (is_False v)) visited.

(** The paths that the check for unvisited objects reports: those of [paths]
    that stand at the indices of the unvisited entries. *)
Definition paths_at_unvisited (paths : list string) (visited : list visit) : list string :=
  map fst (filter (fun pv => is_False (snd pv)) (combine paths visited)).

(** A dict holds a key once. *)
Definition well_formed_dict (items : list (Placeholder * Pattern)) : Prop :=
  forall key, List.length (filter (fun k => same_key k key) (dict_keys items)) <= 1.

(** The entries claimed so far were claimed by Literal rules among
    [processed], each for an object of its own value. *)
Definition claimed_by_literals (processed : list Placeholder) (objects : list string)
  (visited : list visit) : Prop :=
  List.length visited = List.length objects
  /\ forall idx key_id,
       nth_error visited idx = Some (VisitedBy key_id) ->
       exists obj p,
         nth_error objects idx = Some obj /\ In (GenericPlaceholder "<generic>" obj p) processed.

(** A key that sorts no later than a Literal rule *)
Definition sorts_first (k : Placeholder) : Prop :=
  forall p, priority_of k = Some p -> (p <= 0)%Z.

(** The order of the sort, on keys paired with their priorities *)
Definition by_priority (a b : Z * Placeholder) : Prop := (fst a <= fst b)%Z.

(** [needle in hay] *)
Fixpoint contains (needle hay : string) : bool :=
  String.prefix needle hay
  || match hay with
     | EmptyString => false
     | String _ hay' => contains needle hay'
     end.

(** What [list(set(l))] is in any process: the elements of [l], once each. *)
Definition enumerates_sets (list_set : list string -> list string) : Prop :=
  forall l, NoDup (list_set l) /\ forall x, In x (list_set l) <-> In x l.

(** No component of [p] steps up to the parent directory. *)
Definition no_dotdot (p : string) : bool :=
  forallb (fun comp => negb (String.eqb comp "..")) (str_split p).

(** A relative path that never steps up *)
Definition relative_clean (p : string) : bool := negb (isabs p) && no_dotdot p.

(** A component of a path: not empty, and without a separator. *)
Definition is_component (s : string) : bool :=
  negb (String.eqb s "") && negb (mem_char sep s).

(** The name of a file or of a directory: a component other than the two
    that stand for a directory itself and for its parent. *)
Definition is_name (s : string) : bool :=
  is_component s && negb (String.eqb s ".") && negb (String.eqb s "..").

(** The key has the priority [p]. *)
Definition has_priority (p : Z) (k : Placeholder) : bool :=
  match priority_of k with
  | Some q => Z.eqb q p
  | None => false
  end.

(** The entry an Integer rule of index [key_id] leaves for an object *)
Definition integer_entry (key_id : nat) (ov : string * visit) : visit :=
  if isnumeric (fst ov) && is_False (snd ov) then VisitedBy key_id else snd ov.

(** The objects an Integer rule claims: the numeric ones not yet visited *)
Definition integer_appearances (objects : list string) (visited : list visit) : nat :=
  List.length (filter (fun ov => isnumeric (fst ov) && is_False (snd ov))
                 (combine objects visited)).

(** A key whose rule claims nothing: a group, or the exclusive alternative *)
Definition is_inert (k : Placeholder) : bool :=
  is_PlaceholderGroup k || placeholder_eq k ExclAlternativePlaceholder.

(** The entries of the array name keys below [bound]. *)
Definition key_ids_below (bound : nat) (visited : list visit) : Prop :=
  forall idx key_id, nth_error visited idx = Some (VisitedBy key_id) -> key_id < bound.

(** An exception that is not one of the two lookups out of range *)
Definition not_a_lookup_error (e : exn) : Prop :=
  e <> IndexError /\ e <> KeyError.

(** From [visited] to [visited'] entries were only claimed: every entry is as
    it was, or was unvisited and names a key from [lo] up to [hi]. *)
Definition claimed_between (lo hi : nat) (visited visited' : list visit) : Prop :=
  List.length visited' = List.length visited
  /\ forall idx,
       nth_error visited' idx = nth_error visited idx
       \/ (nth_error visited idx = Some NotVisited
           /\ exists key_id, lo <= key_id < hi /\ nth_error visited' idx = Some (VisitedBy key_id)).

(** The sort of the keys does not raise: fewer than two keys, or every key
    with a priority. *)
Definition priorities_ok (keys : list Placeholder) : bool :=
  (List.length keys <? 2)%nat
  || forallb (fun k => match priority_of k with Some _ => true | None => false end) keys.

(** A template the matcher can walk: dicts whose keys sort, down to [None]
    at every leaf. *)
Fixpoint well_built (pattern : Pattern) : bool :=
  match pattern with
  | PNone => true
  | PValue _ => false
  | PDict items =>
      priorities_ok (dict_keys items)
      && (fix all (l : list (Placeholder * Pattern)) : bool :=
            match l with
            | [] => true
            | (_, sub_pattern) :: l' => well_built sub_pattern && all l'
            end) items
  end.

(** One turn of the loop of [json_model_template_representation]:
    [dct[str(key)] = json_model_template_representation(model_template[key])] *)
Definition rendering_step (dct : list (string * Representation)) (kv : Placeholder * Pattern)
  : list (string * Representation) :=
  representation_set dct (str_key (fst kv)) (json_model_template_representation (snd kv)).

(** The value of the last item of a dict whose key renders as [s] *)
Definition rendered_last (items : list (Placeholder * Pattern)) (s : string) : option Pattern :=
  option_map snd (find (fun kv => String.eqb (str_key (fst kv)) s) (rev items)).

(** The specification's "all-digits" name: not empty, and made of the ten
    decimal digits. *)
Definition is_digit_char (c : ascii) : bool :=
  let n := nat_of_ascii c in ((48 <=? n) && (n <=? 57))%nat.

Definition all_digits (s : string) : bool :=
  match s with
  | EmptyString => false
  | _ => all_chars is_digit_char s
  end.

(** The name made of the vulgar fraction one half alone, the code point 189 *)
Definition one_half : string := String "189"%char EmptyString.

(** [hash(k)] in a process whose hash function is [hash_value], applied to
    what [__hash__] computes the hash from. A hash of Python is an integer of
    fixed width, so [hash_value] need not tell two arguments apart. *)
Definition hash_in (hash_value : hashed -> Z) (k : Placeholder) : Z := hash_value (hash k).

(** When a dict of that process takes [k] for the key [k'] it holds *)
Definition same_key_in (hash_value : hashed -> Z) (k' k : Placeholder) : bool :=
  Z.eqb (hash_in hash_value k') (hash_in hash_value k) && placeholder_eq k' k.

(** [pattern[key]] in that process *)
Fixpoint dict_get_in (hash_value : hashed -> Z) (items : list (Placeholder * Pattern))
  (key : Placeholder) : result Pattern :=
  match items with
  | [] => Raise KeyError
  | (k', v) :: items' =>
      if same_key_in hash_value k' key then Ok v else dict_get_in hash_value items' key
  end.

(** The items of a dict of a template; a leaf has none. *)
Definition pattern_items (pattern : Pattern) : list (Placeholder * Pattern) :=
  match pattern with
  | PDict items => items
  | _ => []
  end.

(** What a frame does at its own level, before its last loop (lines 209 to
    254): its paths and objects, then the check of a leaf, or the sort of
    the keys, the rules and the check for unvisited objects. It yields what
    the last loop reads: the keys, the objects and the array. *)
Definition frame_level (cwd : string) (list_set : list string -> list string)
  (str_predictor_type : PredictorType -> string) (predictor_type : PredictorType)
  (pattern : Pattern) (s3_paths : list string) (commonprefix : string)
  : result (list Placeholder * list string * list visit) :=
  paths <- level_paths cwd s3_paths commonprefix ;;
  objects <- level_objects list_set paths ;;
  match pattern with
  | PNone =>
      match objects with
      | [ obj ] =>
          if String.eqb obj "." then Ok ([], objects, [])
          else Raise (CortexException
                        [ context str_predictor_type predictor_type commonprefix;
                          "template doesn't specify a substructure for the given path" ])
      | _ => Raise (CortexException
                      [ context str_predictor_type predictor_type commonprefix;
                        "template doesn't specify a substructure for the given path" ])
      end
  | PValue _ => Raise AttributeError
  | PDict items =>
      keys <- sort_keys (dict_keys items) ;;
      visited <- match_level str_predictor_type predictor_type commonprefix keys paths objects ;;
      Ok (keys, objects, visited)
  end.

(** What one turn of the last loop of a frame looks up (lines 257 to 261):
    the sub-pattern and the prefix of the frame it then calls. *)
Definition sub_frame (items : list (Placeholder * Pattern)) (keys : list Placeholder)
  (objects : list string) (commonprefix : string) (obj_id : nat) (v : visit)
  : result (Pattern * string) :=
  obj <- getitem objects obj_id ;;
  key <- getitem keys (key_index v) ;;
  sub_pattern <- dict_get items key ;;
  Ok (sub_pattern, os_path_join commonprefix obj).

(** The last loop of a frame stops at the turn [idx] with the exception [e]:
    every turn before has looked up its frame and that frame has returned,
    and at [idx] the lookup raises [e], or the frame called does. *)
Definition descent_stops_at (rec : Pattern -> string -> result unit)
  (items : list (Placeholder * Pattern)) (keys : list Placeholder) (objects : list string)
  (commonprefix : string) (visited : list visit) (idx : nat) (e : exn) : Prop :=
  exists v,
    nth_error visited idx = Some v
    /\ (forall j vj,
           j < idx -> nth_error visited j = Some vj ->
           exists sub_pattern new_commonprefix,
             sub_frame items keys objects commonprefix j vj = Ok (sub_pattern, new_commonprefix)
             /\ rec sub_pattern new_commonprefix = Ok tt)
    /\ (sub_frame items keys objects commonprefix idx v = Raise e
        \/ exists sub_pattern new_commonprefix,
             sub_frame items keys objects commonprefix idx v = Ok (sub_pattern, new_commonprefix)
             /\ rec sub_pattern new_commonprefix = Raise e).

(** The frames that the matcher comes to from a frame: the frame itself,
    and whatever it comes to from a frame that the last loop looks up once
    the level of the frame has passed. *)
Inductive enters (cwd : string) (list_set : list string -> list string)
  (str_predictor_type : PredictorType -> string) (predictor_type : PredictorType)
  (s3_paths : list string) : Pattern -> string -> Pattern -> string -> Prop :=
| enters_here (pattern : Pattern) (commonprefix : string) :
    enters cwd list_set str_predictor_type predictor_type s3_paths pattern commonprefix
      pattern commonprefix
| enters_below (pattern : Pattern) (commonprefix : string) (keys : list Placeholder)
    (objects : list string) (visited : list visit) (idx : nat) (v : visit)
    (sub_pattern : Pattern) (new_commonprefix : string) (pattern' : Pattern)
    (commonprefix' : string) :
    frame_level cwd list_set str_predictor_type predictor_type pattern s3_paths commonprefix
    = Ok (keys, objects, visited) ->
    nth_error visited idx = Some v ->
    sub_frame (pattern_items pattern) keys objects commonprefix idx v
    = Ok (sub_pattern, new_commonprefix) ->
    enters cwd list_set str_predictor_type predictor_type s3_paths sub_pattern new_commonprefix
      pattern' commonprefix' ->
    enters cwd list_set str_predictor_type predictor_type s3_paths pattern commonprefix
      pattern' commonprefix'.

(** * Properties *)

(** ** Results *)

Lemma finished_Ok {A : Type} (a : A) : finished (Ok a).
Proof. discriminate. Qed.

Lemma finished_Raise {A : Type} (e : exn) : finished (@Raise A e).
Proof. discriminate. Qed.

Lemma finished_bind {A B : Type} (r : result A) (k : A -> result B) :
  finished r -> (forall a, r = Ok a -> finished (k a)) -> finished (bind r k).
Proof.
  intros Hr Hk. destruct r as [a | e |]; simpl.
  - apply Hk. reflexivity.
  - discriminate.
  - exfalso. apply Hr. reflexivity.
Qed.

Lemma finished_mapM {A B : Type} (f : A -> result B) (l : list A) :
  (forall a, In a l -> finished (f a)) -> finished (mapM f l).
Proof.
  induction l as [| a l IH]; intros H; simpl.
  - discriminate.
  - apply finished_bind.
    + apply H. left. reflexivity.
    + intros b _. apply finished_bind.
      * apply IH. intros a' Ha'. apply H. right. exact Ha'.
      * intros bs _. discriminate.
Qed.

Lemma mapM_Ok_In {A B : Type} (f : A -> result B) (l : list A) (bs : list B) :
  mapM f l = Ok bs -> forall b, In b bs -> exists a, In a l /\ f a = Ok b.
Proof.
  revert bs. induction l as [| a l IH]; simpl; intros bs H b Hb.
  - injection H as <-. destruct Hb.
  - destruct (f a) as [b0 | |] eqn:Hfa; simpl in H; try discriminate.
    destruct (mapM f l) as [bs0 | |] eqn:Hm; simpl in H; try discriminate.
    injection H as <-. destruct Hb as [<- | Hb].
    + exists a. split; [left; reflexivity | exact Hfa].
    + destruct (IH bs0 eq_refl b Hb) as (a' & Ha' & Hf). exists a'. split; [right |]; assumption.
Qed.

Create HintDb matcher.
#[local] Hint Resolve finished_Ok finished_Raise : matcher.

(** A goal [finished (bind r k)]: [r] by the hints, then [k] on its value. *)
Ltac finished_bind :=
  apply finished_bind; [solve [auto with matcher] | intros ? ?].

(** ** Strings and paths *)

Lemma str_split_not_nil (s : string) : str_split s <> [].
Proof.
  destruct s as [| c s]; simpl; [discriminate |].
  destruct (Ascii.eqb c sep); [discriminate |].
  destruct (str_split s); discriminate.
Qed.

(** No component of a split holds a separator. *)
Lemma str_split_no_sep (s comp : string) : In comp (str_split s) -> mem_char sep comp = false.
Proof.
  revert comp. induction s as [| c s IH]; simpl; intros comp H.
  - destruct H as [<- | []]. reflexivity.
  - destruct (Ascii.eqb c sep) eqn:Hc.
    + destruct H as [<- | H]; [reflexivity | apply IH; exact H].
    + destruct (str_split s) as [| h t] eqn:Hs.
      * destruct H as [<- | []]. simpl. rewrite Hc. reflexivity.
      * destruct H as [<- | H].
        -- simpl. rewrite Hc. simpl. apply IH. left. reflexivity.
        -- apply IH. right. exact H.
Qed.

Lemma norm_step_In (stack : list string) (comp c : string) :
  In c (norm_step stack comp) -> In c stack \/ (c = comp /\ c <> "").
Proof.
  unfold norm_step.
  destruct (String.eqb_spec comp "") as [-> | Hne]; simpl; [auto |].
  destruct (String.eqb comp "."); simpl; [auto |].
  destruct (String.eqb comp "..").
  - intros H. left. destruct stack; simpl in H; [destruct H | right; exact H].
  - intros [<- | H]; [right; split; auto | left; exact H].
Qed.

Lemma fold_norm_step_In (comps stack : list string) (c : string) :
  In c (fold_left norm_step comps stack) -> In c stack \/ (In c comps /\ c <> "").
Proof.
  revert stack. induction comps as [| comp comps IH]; simpl; intros stack H; [auto |].
  destruct (IH _ H) as [H1 | [H1 H2]].
  - destruct (norm_step_In _ _ _ H1) as [H3 | [-> H3]]; auto.
  - auto.
Qed.

(** A component of a normalized path is one of the path, and not empty. *)
Lemma normalize_In (comps : list string) (c : string) :
  In c (normalize comps) -> In c comps /\ c <> "".
Proof.
  unfold normalize. intros H. apply in_rev in H.
  destruct (fold_norm_step_In _ _ _ H) as [[] | H1]. exact H1.
Qed.

Lemma skipn_In {A : Type} (n : nat) (l : list A) (a : A) : In a (skipn n l) -> In a l.
Proof.
  revert l. induction n as [| n IH]; intros l H; [exact H |].
  destruct l as [| b l]; [exact H |]. right. apply IH. exact H.
Qed.

Lemma rel_list_In (start_list path_list : list string) (c : string) :
  In c (rel_list start_list path_list) -> c = ".." \/ In c path_list.
Proof.
  unfold rel_list. intros H. apply in_app_or in H. destruct H as [H | H].
  - left. apply repeat_spec in H. exact H.
  - right. eapply skipn_In. exact H.
Qed.

Lemma startswith_sep_cons (a : ascii) (s : string) :
  startswith (String a s) "/" = Ascii.eqb a sep.
Proof.
  unfold startswith, sep.
  change (String.prefix "/" (String a s))
    with (if ascii_dec "/" a then String.prefix "" s else false).
  destruct (ascii_dec "/" a) as [<- | Hne].
  - rewrite Ascii.eqb_refl. destruct s; reflexivity.
  - symmetry. apply Ascii.eqb_neq. congruence.
Qed.

Lemma concat_sep_head (c : string) (rest : list string) :
  exists s, String.concat "/" (c :: rest) = c ++ s.
Proof.
  destruct rest as [| c' rest]; simpl.
  - exists "". induction c as [| a c IH]; simpl; [reflexivity | f_equal; exact IH].
  - eexists. reflexivity.
Qed.

(** A relative path made of components starts with no separator. *)
Lemma concat_not_absolute (c : string) (rest : list string) :
  c <> "" -> mem_char sep c = false -> isabs (String.concat "/" (c :: rest)) = false.
Proof.
  intros Hne Hsep. destruct (concat_sep_head c rest) as [s ->].
  destruct c as [| a c]; [congruence |]. simpl. unfold isabs.
  rewrite startswith_sep_cons. simpl in Hsep.
  apply orb_false_iff in Hsep. destruct Hsep as [Ha _].
  rewrite Ascii.eqb_sym. exact Ha.
Qed.

#[local] Arguments Ascii.eqb : simpl never.

Lemma string_length_app (s1 s2 : string) :
  String.length (s1 ++ s2) = String.length s1 + String.length s2.
Proof. induction s1 as [| c s1 IH]; simpl; [reflexivity | rewrite IH; reflexivity]. Qed.

Lemma rpartition_sep_app (p head tail : string) :
  rpartition_sep p = (head, tail) -> p = head ++ tail.
Proof.
  revert head tail. induction p as [| c p IH]; simpl; intros head tail H.
  - injection H as <- <-. reflexivity.
  - destruct (rpartition_sep p) as [h t]. specialize (IH h t eq_refl). subst p.
    destruct (Ascii.eqb c sep).
    + injection H as <- <-. reflexivity.
    + destruct h; injection H as <- <-; reflexivity.
Qed.

Lemma rpartition_sep_head (p head tail : string) :
  rpartition_sep p = (head, tail) -> head = "" \/ endswith_char head sep = true.
Proof.
  revert head tail. induction p as [| c p IH]; simpl; intros head tail H.
  - injection H as <- <-. left. reflexivity.
  - destruct (rpartition_sep p) as [h t]. specialize (IH h t eq_refl).
    destruct (Ascii.eqb c sep) eqn:Hc.
    + injection H as <- <-. right. destruct IH as [-> | IH]; simpl.
      * exact Hc.
      * destruct h; [discriminate | exact IH].
    + destruct h as [| b h].
      * injection H as <- <-. left. reflexivity.
      * injection H as <- <-. right. destruct IH as [IH | IH]; [discriminate | exact IH].
Qed.

Lemma rstrip_length (chars s : string) : String.length (rstrip chars s) <= String.length s.
Proof.
  induction s as [| c s IH]; simpl; [lia |].
  destruct (rstrip chars s); simpl in *.
  - destruct (mem_char c chars); simpl; lia.
  - lia.
Qed.

Lemma rstrip_endswith (chars s : string) (c : ascii) :
  endswith_char s c = true -> mem_char c chars = true ->
  String.length (rstrip chars s) < String.length s.
Proof.
  induction s as [| a s IH]; simpl; intros He Hm; [discriminate |].
  destruct s as [| b s].
  - apply Ascii.eqb_eq in He. subst a. simpl. rewrite Hm. simpl. lia.
  - specialize (IH He Hm). destruct (rstrip chars (String b s)); simpl in *.
    + destruct (mem_char a chars); simpl; lia.
    + lia.
Qed.

Lemma rstrip_first (chars : string) (a : ascii) (s : string) :
  rstrip chars (String a s) = "" \/ exists r, rstrip chars (String a s) = String a r.
Proof.
  simpl. destruct (rstrip chars s).
  - destruct (mem_char a chars); [left | right; eexists]; reflexivity.
  - right. eexists. reflexivity.
Qed.

Lemma rstrip_sep_empty (s : string) : rstrip "/" s = "" -> all_chars (Ascii.eqb sep) s = true.
Proof.
  induction s as [| a s IH]; simpl; intros H; [reflexivity |].
  destruct (rstrip "/" s) eqn:Hr; [| discriminate].
  rewrite (IH eq_refl), andb_true_r.
  destruct (Ascii.eqb "/" a) eqn:Ha; [exact Ha | discriminate].
Qed.

(** On a path that starts with no separator, [os.path.split] gives a shorter
    head that starts with none either. *)
Lemma os_path_split_shrinks (a : ascii) (p head tail : string) :
  Ascii.eqb a sep = false -> os_path_split (String a p) = (head, tail) ->
  String.length head < String.length (String a p) /\ isabs head = false.
Proof.
  intros Ha H. unfold os_path_split in H.
  destruct (rpartition_sep (String a p)) as [h0 t0] eqn:Hp.
  pose proof (rpartition_sep_app _ _ _ Hp) as Happ.
  pose proof (rpartition_sep_head _ _ _ Hp) as Hend.
  destruct h0 as [| b h0].
  - injection H as <- <-. simpl. split; [lia | reflexivity].
  - simpl in Happ. injection Happ as <- Hrest.
    assert (Hlen : String.length (String a h0) <= String.length (String a p)).
    { rewrite Hrest. simpl. rewrite string_length_app. lia. }
    remember (rstrip "/" (String a h0)) as r eqn:Hr.
    cbn [all_chars] in H. rewrite Ascii.eqb_sym, Ha in H. cbn [andb] in H.
    injection H as <- <-.
    destruct Hend as [Hend | Hend]; [discriminate |].
    split.
    + pose proof (rstrip_endswith "/" (String a h0) sep Hend eq_refl) as Hlt.
      rewrite <- Hr in Hlt. eapply Nat.lt_le_trans; [exact Hlt | exact Hlen].
    + destruct (rstrip_first "/" a h0) as [He | [r' He]]; rewrite He in Hr; subst r;
        [reflexivity |].
      unfold isabs. rewrite startswith_sep_cons. exact Ha.
Qed.

(** The loop of [get_leftmost_part_of_path] ends on every path that is not
    absolute, within as many iterations as the path has characters. *)
Lemma get_leftmost_loop_ends (fuel : nat) (path basename : string) :
  String.length path <= fuel -> isabs path = false ->
  exists b, get_leftmost_loop fuel path basename = Ok b.
Proof.
  revert path basename. induction fuel as [| fuel IH]; intros path basename Hlen Habs.
  - destruct path; simpl in Hlen; [| lia]. exists basename. reflexivity.
  - destruct path as [| a p]; [exists basename; reflexivity |].
    unfold isabs in Habs. rewrite startswith_sep_cons in Habs.
    cbn [get_leftmost_loop].
    destruct (os_path_split (String a p)) as [h t] eqn:Hs.
    destruct (os_path_split_shrinks a p h t Habs Hs) as [Hlt Hh].
    apply IH; [simpl in *; lia | exact Hh].
Qed.

Lemma os_path_split_absolute (a : ascii) (p head tail : string) :
  Ascii.eqb a sep = true -> os_path_split (String a p) = (head, tail) -> isabs head = true.
Proof.
  intros Ha. unfold os_path_split. cbn [rpartition_sep].
  destruct (rpartition_sep p) as [h1 t1]. rewrite Ha.
  remember (rstrip "/" (String a h1)) as r eqn:Hr.
  destruct (all_chars (Ascii.eqb sep) (String a h1)) eqn:Hall; intros H; injection H as <- <-.
  - unfold isabs. rewrite startswith_sep_cons. exact Ha.
  - destruct (rstrip_first "/" a h1) as [He | [r' He]]; rewrite He in Hr; subst r.
    + apply rstrip_sep_empty in He. congruence.
    + unfold isabs. rewrite startswith_sep_cons. exact Ha.
Qed.

(** On an absolute path the loop never ends: the head stays absolute. *)
Lemma get_leftmost_loop_absolute (fuel : nat) (path basename : string) :
  isabs path = true -> get_leftmost_loop fuel path basename = OutOfFuel.
Proof.
  revert path basename. induction fuel as [| fuel IH]; intros path basename Habs.
  - destruct path; [discriminate | reflexivity].
  - destruct path as [| a p]; [discriminate |].
    unfold isabs in Habs. rewrite startswith_sep_cons in Habs.
    cbn [get_leftmost_loop].
    destruct (os_path_split (String a p)) as [h t] eqn:Hs.
    apply IH. eapply os_path_split_absolute; eassumption.
Qed.

Lemma get_leftmost_finished (path : string) :
  isabs path = false -> finished (get_leftmost_part_of_path path).
Proof.
  intros Habs. unfold get_leftmost_part_of_path.
  destruct (get_leftmost_loop_ends (String.length path) path "" (le_n _) Habs) as [b ->].
  discriminate.
Qed.

(** ** The frames of the matcher end *)

Lemma bind_ext {A B : Type} (r : result A) (k1 k2 : A -> result B) :
  (forall a, r = Ok a -> k1 a = k2 a) -> bind r k1 = bind r k2.
Proof. intros H. destruct r; simpl; [apply H |..]; reflexivity. Qed.

Lemma getitem_finished {A : Type} (l : list A) (idx : nat) : finished (getitem l idx).
Proof. unfold getitem. destruct (nth_error l idx); discriminate. Qed.

Lemma dict_get_finished (items : list (Placeholder * Pattern)) (key : Placeholder) :
  finished (dict_get items key).
Proof.
  induction items as [| [k v] items IH]; simpl; [discriminate |].
  destruct (same_key k key); [discriminate | exact IH].
Qed.

Lemma dict_get_In (items : list (Placeholder * Pattern)) (key : Placeholder) (sub : Pattern) :
  dict_get items key = Ok sub -> exists k, In (k, sub) items /\ same_key k key = true.
Proof.
  induction items as [| [k v] items IH]; simpl; intros H; [discriminate |].
  destruct (same_key k key) eqn:Hk.
  - injection H as ->. exists k. split; [left; reflexivity | exact Hk].
  - destruct (IH H) as (k' & Hin & Hk'). exists k'. split; [right |]; assumption.
Qed.

Lemma pattern_depth_PDict (items : list (Placeholder * Pattern)) :
  pattern_depth (PDict items) = S (list_max (map (fun kv => pattern_depth (snd kv)) items)).
Proof.
  cbn [pattern_depth]. f_equal.
  induction items as [| [k v] items IH]; [reflexivity |].
  change (list_max (map (fun kv => pattern_depth (snd kv)) ((k, v) :: items)))
    with (Nat.max (pattern_depth v) (list_max (map (fun kv => pattern_depth (snd kv)) items))).
  rewrite <- IH. reflexivity.
Qed.

(** The matcher descends into strictly lower templates only. *)
Lemma dict_get_depth (items : list (Placeholder * Pattern)) (key : Placeholder) (sub : Pattern) :
  dict_get items key = Ok sub -> pattern_depth sub < pattern_depth (PDict items).
Proof.
  intros H. destruct (dict_get_In _ _ _ H) as (k & Hin & _).
  rewrite pattern_depth_PDict.
  assert (Hle : pattern_depth sub <= list_max (map (fun kv => pattern_depth (snd kv)) items)).
  { pose proof (list_max_le (map (fun kv => pattern_depth (snd kv)) items)
                  (list_max (map (fun kv => pattern_depth (snd kv)) items))) as [Hall _].
    specialize (Hall (le_n _)). rewrite Forall_forall in Hall.
    apply Hall. apply in_map_iff. exists (k, sub). split; [reflexivity | exact Hin]. }
  lia.
Qed.

Lemma integer_loop_finished (key_id : nat) (objects : list string) (idx : nat)
  (visited : list visit) (appearances : nat) :
  finished (integer_loop key_id idx objects visited appearances).
Proof.
  revert idx visited appearances.
  induction objects as [| obj objects IH]; intros idx visited appearances; simpl.
  - discriminate.
  - destruct (isnumeric obj); [| apply IH].
    apply finished_bind; [apply getitem_finished |].
    intros v _. destruct (is_False v); apply IH.
Qed.

Lemma generic_loop_finished (key_id : nat) (value : string) (objects : list string) (idx : nat)
  (visited : list visit) :
  finished (generic_loop key_id idx value objects visited).
Proof.
  revert idx.
  induction objects as [| obj objects IH]; intros idx; simpl.
  - discriminate.
  - destruct (String.eqb obj value); [| apply IH].
    apply finished_bind; [apply getitem_finished |]. intros v _. discriminate.
Qed.

Lemma validate_key_finished (keys : list Placeholder) (key_id : nat) (key : Placeholder)
  (objects : list string) (visited : list visit) :
  finished (validate_key keys key_id key objects visited).
Proof.
  unfold validate_key.
  destruct (placeholder_eq key IntegerPlaceholder).
  { unfold validate_integer_placeholder.
    apply finished_bind; [apply integer_loop_finished |].
    intros [visited' appearances] _.
    destruct ((1 <? appearances)%nat && (List.length keys =? 1)%nat); [discriminate |].
    destruct (appearances =? 0)%nat; discriminate. }
  destruct (placeholder_eq key AnyPlaceholder); [discriminate |].
  destruct (placeholder_eq key SinglePlaceholder).
  { unfold validate_single_placeholder.
    destruct ((1 <? List.length keys)%nat || (1 <? List.length objects)%nat); [discriminate |].
    destruct visited as [| [|] ?]; discriminate. }
  destruct (placeholder_eq key (new_GenericPlaceholder "")).
  { unfold validate_generic_placeholder.
    apply finished_bind; [apply generic_loop_finished |].
    intros [v |] _; discriminate. }
  destruct (is_PlaceholderGroup key); [discriminate |].
  destruct (placeholder_eq key ExclAlternativePlaceholder); discriminate.
Qed.

Lemma validate_keys_finished (keys rest : list Placeholder) (key_id : nat)
  (objects : list string) (visited : list visit) :
  finished (validate_keys keys key_id rest objects visited).
Proof.
  revert key_id visited. induction rest as [| key rest IH]; intros key_id visited; simpl.
  - discriminate.
  - apply finished_bind; [apply validate_key_finished |]. intros v _. apply IH.
Qed.

Lemma unvisited_from_finished (paths : list string) (visited : list visit) (idx : nat) :
  finished (unvisited_from paths idx visited).
Proof.
  revert idx. induction visited as [| v visited IH]; intros idx; simpl.
  - discriminate.
  - destruct (is_False v); [| apply IH].
    apply finished_bind; [apply getitem_finished |]. intros p _.
    apply finished_bind; [apply IH |]. intros ps _. discriminate.
Qed.

Lemma sort_keys_finished (keys : list Placeholder) : finished (sort_keys keys).
Proof.
  unfold sort_keys. destruct (List.length keys <? 2)%nat; [discriminate |].
  destruct (decorate keys); discriminate.
Qed.

#[local] Hint Resolve getitem_finished dict_get_finished integer_loop_finished
  generic_loop_finished validate_key_finished validate_keys_finished unvisited_from_finished
  sort_keys_finished : matcher.

Section Termination.

Variable cwd : string.
Variable list_set : list string -> list string.
Variable str_predictor_type : PredictorType -> string.

Lemma relpath_finished (path start : string) : finished (relpath cwd path start).
Proof.
  unfold relpath. destruct (String.eqb path ""); [discriminate |].
  destruct (rel_list _ _); discriminate.
Qed.

(** [os.path.relpath] never answers an absolute path. *)
Lemma relpath_not_absolute (path start rel : string) :
  relpath cwd path start = Ok rel -> isabs rel = false.
Proof.
  unfold relpath. destruct (String.eqb path ""); [discriminate |].
  destruct (rel_list (abspath_list cwd start) (abspath_list cwd path)) as [| c rest] eqn:Hrel;
    intros H; injection H as <-; [reflexivity |].
  assert (Hin : In c (rel_list (abspath_list cwd start) (abspath_list cwd path))).
  { rewrite Hrel. left. reflexivity. }
  apply rel_list_In in Hin. destruct Hin as [-> | Hin].
  - apply concat_not_absolute; [discriminate | reflexivity].
  - unfold abspath_list in Hin. apply normalize_In in Hin. destruct Hin as [Hin Hne].
    apply concat_not_absolute; [exact Hne | eapply str_split_no_sep; exact Hin].
Qed.

Lemma level_paths_finished (s3_paths : list string) (commonprefix : string) :
  finished (level_paths cwd s3_paths commonprefix).
Proof.
  unfold level_paths. apply finished_bind.
  - apply finished_mapM. intros p _. apply relpath_finished.
  - intros paths _. discriminate.
Qed.

Lemma level_paths_not_absolute (s3_paths : list string) (commonprefix : string)
  (paths : list string) :
  level_paths cwd s3_paths commonprefix = Ok paths ->
  forall path, In path paths -> isabs path = false.
Proof.
  unfold level_paths. intros H path Hin.
  destruct (mapM (fun s3_path => relpath cwd s3_path commonprefix) s3_paths) as [rels | |] eqn:Hm;
    simpl in H; try discriminate.
  injection H as <-. apply filter_In in Hin. destruct Hin as [Hin _].
  destruct (mapM_Ok_In _ _ _ Hm _ Hin) as (s3_path & _ & Hrel).
  eapply relpath_not_absolute. exact Hrel.
Qed.

Lemma level_objects_finished (paths : list string) :
  (forall path, In path paths -> isabs path = false) -> finished (level_objects list_set paths).
Proof.
  intros H. unfold level_objects. apply finished_bind.
  - apply finished_mapM. intros p Hp. apply get_leftmost_finished. apply H. exact Hp.
  - intros objects _. discriminate.
Qed.

Lemma match_level_finished (predictor_type : PredictorType) (commonprefix : string)
  (keys : list Placeholder) (paths objects : list string) :
  finished (match_level str_predictor_type predictor_type commonprefix keys paths objects).
Proof.
  unfold match_level. apply finished_bind.
  - unfold try_validate_keys.
    pose proof (validate_keys_finished keys keys 0 objects
                  (repeat NotVisited (List.length objects))) as Hf.
    destruct (validate_keys keys 0 keys objects _) as [v | [] |]; try discriminate.
    exfalso. apply Hf. reflexivity.
  - intros visited _. apply finished_bind.
    + unfold check_unvisited. apply finished_bind; [apply unvisited_from_finished |].
      intros ps _. destruct (0 <? List.length ps)%nat; discriminate.
    + intros _ _. discriminate.
Qed.

Lemma descend_finished (rec : Pattern -> string -> result unit)
  (items : list (Placeholder * Pattern)) (keys : list Placeholder) (objects : list string)
  (commonprefix : string) (visited : list visit) (obj_id : nat) :
  (forall key sub new_commonprefix,
      dict_get items key = Ok sub -> finished (rec sub new_commonprefix)) ->
  finished (descend rec items keys objects commonprefix obj_id visited).
Proof.
  intros Hrec. revert obj_id.
  induction visited as [| v visited IH]; intros obj_id; cbn [descend].
  - discriminate.
  - finished_bind. finished_bind. apply finished_bind; [auto with matcher |].
    intros sub Hsub. apply finished_bind; [eapply Hrec; exact Hsub |]. intros _ _. apply IH.
Qed.

Lemma descend_ext (rec1 rec2 : Pattern -> string -> result unit)
  (items : list (Placeholder * Pattern)) (keys : list Placeholder) (objects : list string)
  (commonprefix : string) (visited : list visit) (obj_id : nat) :
  (forall key sub new_commonprefix,
      dict_get items key = Ok sub -> rec1 sub new_commonprefix = rec2 sub new_commonprefix) ->
  descend rec1 items keys objects commonprefix obj_id visited
  = descend rec2 items keys objects commonprefix obj_id visited.
Proof.
  intros Hrec. revert obj_id.
  induction visited as [| v visited IH]; intros obj_id; cbn [descend]; [reflexivity |].
  apply bind_ext. intros obj _. apply bind_ext. intros key _.
  apply bind_ext. intros sub Hsub. rewrite (Hrec _ _ _ Hsub).
  apply bind_ext. intros _ _. apply IH.
Qed.

(** A frame given more fuel than its template is high ends, and so does
    every frame below it. *)
Lemma frame_terminates (fuel : nat) (predictor_type : PredictorType)
  (pattern : Pattern) (s3_paths : list string) (commonprefix : string) :
  pattern_depth pattern < fuel ->
  finished (_validate_s3_model_paths cwd list_set str_predictor_type fuel predictor_type
              pattern s3_paths commonprefix).
Proof.
  revert pattern commonprefix.
  induction fuel as [| fuel IH]; intros pattern commonprefix Hd; [lia |].
  cbn [_validate_s3_model_paths].
  apply finished_bind; [apply level_paths_finished |]. intros paths Hpaths.
  apply finished_bind.
  { apply level_objects_finished. eapply level_paths_not_absolute. exact Hpaths. }
  intros objects _. destruct pattern as [| items | v].
  - destruct objects as [| obj [| ? ?]]; try discriminate.
    destruct (String.eqb obj "."); discriminate.
  - apply finished_bind; [apply sort_keys_finished |]. intros keys _.
    apply finished_bind; [apply match_level_finished |]. intros visited _.
    apply descend_finished. intros key sub cp' Hsub. apply IH.
    apply dict_get_depth in Hsub. lia.
  - discriminate.
Qed.

(** Fuel beyond the height of the template changes nothing. *)
Lemma frame_fuel_irrelevant (fuel fuel' : nat)
  (predictor_type : PredictorType) (pattern : Pattern) (s3_paths : list string)
  (commonprefix : string) :
  pattern_depth pattern < fuel -> pattern_depth pattern < fuel' ->
  _validate_s3_model_paths cwd list_set str_predictor_type fuel predictor_type pattern s3_paths
    commonprefix
  = _validate_s3_model_paths cwd list_set str_predictor_type fuel' predictor_type pattern
      s3_paths commonprefix.
Proof.
  revert fuel' pattern commonprefix.
  induction fuel as [| fuel IH]; intros fuel' pattern commonprefix Hd Hd'; [lia |].
  destruct fuel' as [| fuel']; [lia |].
  cbn [_validate_s3_model_paths].
  apply bind_ext. intros paths _. apply bind_ext. intros objects _.
  destruct pattern as [| items | v]; try reflexivity.
  apply bind_ext. intros keys _. apply bind_ext. intros visited _.
  apply descend_ext. intros key sub cp' Hsub.
  apply dict_get_depth in Hsub. apply IH; lia.
Qed.

End Termination.

(** ** Termination of [validate_s3_model_paths] *)

Lemma template_get_finished (template : list (PredictorType * Pattern))
  (predictor_type : PredictorType) :
  finished (template_get template predictor_type).
Proof.
  induction template as [| [t p] template IH]; simpl; [discriminate |].
  destruct (PredictorType_eqb t predictor_type); [discriminate | exact IH].
Qed.

Section Totality.

Variable cwd : string.
Variable list_set : list string -> list string.
Variable str_predictor_type : PredictorType -> string.

(** C10. [validate_s3_model_paths] terminates on every input. A frame of
    [_validate_s3_model_paths] calls itself only on a value [pattern[key]] of
    its own template, which is strictly lower than the template; so on every
    template, path list and prefix, a frame given more fuel than the template
    is high ends (with a value or an exception) and yields what it yields on
    any other such fuel. [validate_s3_model_paths] itself therefore ends on
    every path list, predictor type and prefix, with the outcome that every
    sufficient fuel gives. *)
Theorem validate_s3_model_paths_terminates (s3_paths : list string)
  (predictor_type : PredictorType) (commonprefix : string) :
  (forall items key sub_pattern,
      dict_get items key = Ok sub_pattern ->
      pattern_depth sub_pattern < pattern_depth (PDict items))
  /\ (forall pattern fuel,
         pattern_depth pattern < fuel ->
         finished (_validate_s3_model_paths cwd list_set str_predictor_type fuel predictor_type
                     pattern s3_paths commonprefix)
         /\ _validate_s3_model_paths cwd list_set str_predictor_type fuel predictor_type pattern
              s3_paths commonprefix
            = _validate_s3_model_paths cwd list_set str_predictor_type
                (S (pattern_depth pattern)) predictor_type pattern s3_paths commonprefix)
  /\ finished (validate_s3_model_paths cwd list_set str_predictor_type s3_paths predictor_type
                 commonprefix)
  /\ (forall fuel,
         enough_fuel predictor_type <= fuel ->
         validate_s3_model_paths_fuel cwd list_set str_predictor_type fuel s3_paths
           predictor_type commonprefix
         = validate_s3_model_paths cwd list_set str_predictor_type s3_paths predictor_type
             commonprefix).
Proof.
  split; [exact dict_get_depth |].
  split.
  { intros pattern fuel Hd. split.
    - apply frame_terminates. exact Hd.
    - apply frame_fuel_irrelevant; [exact Hd | apply Nat.lt_succ_diag_r]. }
  unfold validate_s3_model_paths, validate_s3_model_paths_fuel, enough_fuel.
  pose proof (template_get_finished model_template predictor_type) as Hfin.
  unfold single_model_pattern.
  destruct (template_get model_template predictor_type) as [pattern | e |];
    [| | exfalso; apply Hfin; reflexivity].
  - split.
    + destruct s3_paths; [discriminate |]. cbn [bind].
      apply frame_terminates. apply Nat.lt_succ_diag_r.
    + intros fuel Hfuel. destruct s3_paths; [reflexivity |]. cbn [bind].
      apply frame_fuel_irrelevant; [| apply Nat.lt_succ_diag_r].
      apply Nat.lt_le_trans with (2 := Hfuel). apply Nat.lt_succ_diag_r.
  - split.
    + destruct s3_paths; discriminate.
    + intros fuel _. destruct s3_paths; reflexivity.
Qed.

(** ** The empty path list *)

(** C3. For every predictor type and every common prefix,
    [validate_s3_model_paths] called with an empty path list raises the
    [CortexException] whose message is "model path can't be empty", under the
    context of the predictor type and the prefix. It does so on any fuel,
    none included, so before a frame of the matcher is entered, and before
    the template of the predictor type is looked up: a predictor type that
    has no template gets the same exception. *)
Theorem validate_s3_model_paths_empty (predictor_type : PredictorType) (commonprefix : string) :
  (forall fuel,
      validate_s3_model_paths_fuel cwd list_set str_predictor_type fuel [] predictor_type
        commonprefix
      = Raise (CortexException [ context str_predictor_type predictor_type commonprefix;
                                 "model path can't be empty" ]))
  /\ validate_s3_model_paths cwd list_set str_predictor_type [] predictor_type commonprefix
     = Raise (CortexException [ context str_predictor_type predictor_type commonprefix;
                                "model path can't be empty" ]).
Proof. split; [intros fuel |]; reflexivity. Qed.

End Totality.

(** ** The array [visited] *)

Lemma list_update_length {A : Type} (l : list A) (idx : nat) (v : A) :
  List.length (list_update l idx v) = List.length l.
Proof.
  revert idx. induction l as [| a l IH]; intros [| idx]; simpl; try reflexivity.
  rewrite IH. reflexivity.
Qed.

Lemma list_update_same {A : Type} (l : list A) (idx : nat) (v : A) :
  idx < List.length l -> nth_error (list_update l idx v) idx = Some v.
Proof.
  revert idx. induction l as [| a l IH]; intros [| idx] H; simpl in *; try lia.
  - reflexivity.
  - apply IH. lia.
Qed.

Lemma list_update_other {A : Type} (l : list A) (idx j : nat) (v : A) :
  j <> idx -> nth_error (list_update l idx v) j = nth_error l j.
Proof.
  revert idx j. induction l as [| a l IH]; intros [| idx] [| j] H; simpl; try reflexivity.
  - congruence.
  - apply IH. congruence.
Qed.

Lemma list_update_app {A : Type} (pre l : list A) (a v : A) :
  list_update (pre ++ a :: l) (List.length pre) v = (pre ++ v :: l)%list.
Proof. induction pre as [| b pre IH]; simpl; [reflexivity | rewrite IH; reflexivity]. Qed.

Lemma getitem_app {A : Type} (pre l : list A) (a : A) :
  getitem (pre ++ a :: l) (List.length pre) = Ok a.
Proof.
  unfold getitem. rewrite nth_error_app2 by apply le_n. rewrite Nat.sub_diag. reflexivity.
Qed.

Lemma getitem_Ok {A : Type} (l : list A) (idx : nat) :
  idx < List.length l -> exists a, getitem l idx = Ok a /\ nth_error l idx = Some a.
Proof.
  intros H. unfold getitem. destruct (nth_error l idx) as [a |] eqn:Hn.
  - exists a. split; reflexivity.
  - apply nth_error_None in Hn. lia.
Qed.

(** ** The Integer rule *)

Lemma integer_loop_fresh (key_id : nat) (objects : list string) (pre : list visit)
  (appearances : nat) :
  integer_loop key_id (List.length pre) objects
    (pre ++ repeat NotVisited (List.length objects)) appearances
  = Ok ((pre ++ claim_numeric key_id objects)%list, appearances + count_numeric objects).
Proof.
  revert pre appearances.
  induction objects as [| obj objects IH]; intros pre appearances.
  - simpl. rewrite Nat.add_0_r. reflexivity.
  - cbn [integer_loop List.length repeat]. unfold count_numeric, claim_numeric.
    cbn [filter map]. destruct (isnumeric obj).
    + rewrite getitem_app. cbn [bind is_False]. rewrite list_update_app.
      specialize (IH (pre ++ [VisitedBy key_id])%list (S appearances)).
      rewrite length_app, Nat.add_1_r, <- !app_assoc in IH. cbn [app] in IH.
      rewrite IH. unfold count_numeric, claim_numeric. cbn [List.length].
      rewrite Nat.add_succ_r. reflexivity.
    + specialize (IH (pre ++ [NotVisited])%list appearances).
      rewrite length_app, Nat.add_1_r, <- !app_assoc in IH. cbn [app] in IH.
      rewrite IH. reflexivity.
Qed.

Lemma validate_integer_placeholder_fresh (placeholders : list Placeholder) (key_id : nat)
  (objects : list string) :
  validate_integer_placeholder placeholders key_id objects
    (repeat NotVisited (List.length objects))
  = if (1 <? count_numeric objects)%nat && (List.length placeholders =? 1)%nat then
      Raise (CortexException [ "too many <integer> appearances in path" ])
    else if (count_numeric objects =? 0)%nat then
      Raise (CortexException [ "<integer> not found in path" ])
    else Ok (claim_numeric key_id objects).
Proof.
  unfold validate_integer_placeholder.
  pose proof (integer_loop_fresh key_id objects [] 0) as H.
  cbn [List.length app Nat.add] in H. rewrite H. reflexivity.
Qed.

Lemma count_numeric_all (objects : list string) :
  forallb isnumeric objects = true <-> count_numeric objects = List.length objects.
Proof.
  unfold count_numeric. induction objects as [| obj objects IH]; simpl; [tauto |].
  pose proof (filter_length_le isnumeric objects) as Hle.
  destruct (isnumeric obj); simpl.
  - rewrite IH. lia.
  - split; [discriminate | lia].
Qed.

(** ** The check for unvisited objects *)

Lemma unvisited_from_all_visited (paths : list string) (visited : list visit) (idx : nat) :
  all_visited visited = true -> unvisited_from paths idx visited = Ok [].
Proof.
  revert idx. induction visited as [| v visited IH]; intros idx H; simpl in *; [reflexivity |].
  apply andb_true_iff in H. destruct H as [Hv H].
  destruct (is_False v); [discriminate | apply IH; exact H].
Qed.

Lemma unvisited_from_nil (paths : list string) (visited : list visit) (idx : nat) :
  unvisited_from paths idx visited = Ok [] -> all_visited visited = true.
Proof.
  revert idx. induction visited as [| v visited IH]; intros idx H; simpl in *; [reflexivity |].
  destruct (is_False v); simpl.
  - destruct (getitem paths idx); simpl in H; try discriminate.
    destruct (unvisited_from paths (S idx) visited); simpl in H; discriminate.
  - eapply IH. exact H.
Qed.

Section Levels.

Variable str_predictor_type : PredictorType -> string.

Lemma check_unvisited_Ok (predictor_type : PredictorType) (commonprefix : string)
  (paths : list string) (visited : list visit) :
  check_unvisited str_predictor_type predictor_type commonprefix paths visited = Ok tt
  <-> all_visited visited = true.
Proof.
  unfold check_unvisited. split.
  - intros H. destruct (unvisited_from paths 0 visited) as [ps | |] eqn:Hu; simpl in H;
      try discriminate.
    destruct ps; [eapply unvisited_from_nil; exact Hu | discriminate].
  - intros H. rewrite (unvisited_from_all_visited _ _ _ H). reflexivity.
Qed.

Lemma all_visited_claim_numeric (key_id : nat) (objects : list string) :
  all_visited (claim_numeric key_id objects) = forallb isnumeric objects.
Proof.
  unfold all_visited, claim_numeric. induction objects as [| obj objects IH]; simpl;
    [reflexivity |].
  rewrite IH. destruct (isnumeric obj); reflexivity.
Qed.

Lemma match_level_Ok (predictor_type : PredictorType) (commonprefix : string)
  (keys : list Placeholder) (paths objects : list string) (visited : list visit) :
  match_level str_predictor_type predictor_type commonprefix keys paths objects = Ok visited
  <-> validate_keys keys 0 keys objects (repeat NotVisited (List.length objects)) = Ok visited
      /\ all_visited visited = true.
Proof.
  unfold match_level, try_validate_keys.
  destruct (validate_keys keys 0 keys objects _) as [v | [] |]; simpl;
    try (split; [discriminate | intros [? _]; discriminate]).
  destruct (check_unvisited str_predictor_type predictor_type commonprefix paths v)
    as [[] | |] eqn:Hc; simpl.
  - apply check_unvisited_Ok in Hc. split.
    + intros H. injection H as <-. split; [reflexivity | exact Hc].
    + intros [H _]. exact H.
  - split; [discriminate |]. intros [H Hall]. injection H as <-.
    apply (check_unvisited_Ok predictor_type commonprefix paths) in Hall. congruence.
  - split; [discriminate |]. intros [H Hall]. injection H as <-.
    apply (check_unvisited_Ok predictor_type commonprefix paths) in Hall. congruence.
Qed.

(** A level whose sole rule is Integer, on every list of objects (numeric
    meaning what [str.isnumeric] accepts): the level passes if and
    only if there is exactly one object and it is numeric; with two or more
    numeric objects it fails with the "too many" error of the Integer rule;
    with no numeric object it fails with its "not found" error. Either error
    comes out under the context of the frame. *)
Theorem integer_sole_rule (predictor_type : PredictorType) (commonprefix : string)
  (paths objects : list string) :
  ((exists visited,
       match_level str_predictor_type predictor_type commonprefix [ IntegerPlaceholder ] paths
         objects = Ok visited)
   <-> (exists obj, objects = [ obj ] /\ isnumeric obj = true))
  /\ (2 <= count_numeric objects ->
      match_level str_predictor_type predictor_type commonprefix [ IntegerPlaceholder ] paths
        objects
      = Raise (CortexException [ context str_predictor_type predictor_type commonprefix;
                                 "too many <integer> appearances in path" ]))
  /\ (count_numeric objects = 0 ->
      match_level str_predictor_type predictor_type commonprefix [ IntegerPlaceholder ] paths
        objects
      = Raise (CortexException [ context str_predictor_type predictor_type commonprefix;
                                 "<integer> not found in path" ])).
Proof.
  assert (Hkeys : validate_keys [ IntegerPlaceholder ] 0 [ IntegerPlaceholder ] objects
                    (repeat NotVisited (List.length objects))
                  = bind (validate_integer_placeholder [ IntegerPlaceholder ] 0 objects
                            (repeat NotVisited (List.length objects))) Ok).
  { reflexivity. }
  rewrite validate_integer_placeholder_fresh in Hkeys. cbn [List.length Nat.eqb andb] in Hkeys.
  rewrite andb_true_r in Hkeys.
  split; [| split].
  - split.
    + intros [visited H]. apply match_level_Ok in H. destruct H as [H Hall].
      rewrite Hkeys in H.
      destruct (1 <? count_numeric objects)%nat eqn:H1; [discriminate |].
      destruct (count_numeric objects =? 0)%nat eqn:H0; [discriminate |].
      simpl in H. injection H as <-.
      rewrite all_visited_claim_numeric in Hall.
      pose proof Hall as Hcount. apply count_numeric_all in Hcount.
      apply Nat.ltb_ge in H1. apply Nat.eqb_neq in H0.
      destruct objects as [| obj [| obj' objects]]; simpl in Hcount; try lia.
      exists obj. split; [reflexivity |]. simpl in Hall. rewrite andb_true_r in Hall. exact Hall.
    + intros (obj & -> & Hnum). exists [ VisitedBy 0 ]. apply match_level_Ok.
      split; [| reflexivity]. rewrite Hkeys. unfold count_numeric, claim_numeric. simpl.
      rewrite Hnum. reflexivity.
  - intros H2. unfold match_level, try_validate_keys. rewrite Hkeys.
    assert (H1 : (1 <? count_numeric objects)%nat = true) by (apply Nat.ltb_lt; lia).
    rewrite H1. reflexivity.
  - intros H0. unfold match_level, try_validate_keys. rewrite Hkeys, H0. reflexivity.
Qed.

End Levels.

(** ** The Any rule *)

Section AnyRule.

Variable cwd : string.
Variable list_set : list string -> list string.
Variable str_predictor_type : PredictorType -> string.




End AnyRule.

(** The level passes, the descent may not: under a template whose only key is
    Any, with nothing below it, a directory with a file in it passes the level
    of the Any rule and fails in the frame of the directory. *)
Lemma any_rule_directory_fails_below :
  match_level short_name PythonPredictorType "p" [ AnyPlaceholder ] [ "x/y" ] [ "x" ]
  = Ok [ VisitedBy 0 ]
  /\ _validate_s3_model_paths root_cwd list_set_first_seen short_name 2 PythonPredictorType
       (PDict [ (AnyPlaceholder, PNone) ]) [ "p/x/y" ] "p"
     = Raise (CortexException
                [ "python predictor at 'p/x'";
                  "template doesn't specify a substructure for the given path" ]).
Proof. split; vm_compute; reflexivity. Qed.

(** ** The Literal rule *)

Lemma first_index (value : string) (objects : list string) :
  In value objects ->
  exists idx, nth_error objects idx = Some value
              /\ forall j, j < idx -> nth_error objects j <> Some value.
Proof.
  induction objects as [| obj objects IH]; intros H; [destruct H |].
  destruct (String.eqb_spec obj value) as [-> | Hne].
  - exists 0. split; [reflexivity | intros j Hj; lia].
  - destruct H as [H | H]; [congruence |].
    destruct (IH H) as (idx & Hidx & Hfirst). exists (S idx). split; [exact Hidx |].
    intros [| j] Hj; simpl; [congruence | apply Hfirst; lia].
Qed.

Lemma generic_loop_not_found (key_id idx : nat) (value : string) (objects : list string)
  (visited : list visit) :
  ~ In value objects -> generic_loop key_id idx value objects visited = Ok None.
Proof.
  revert idx. induction objects as [| obj objects IH]; intros idx H; simpl; [reflexivity |].
  destruct (String.eqb_spec obj value) as [-> | Hne].
  - exfalso. apply H. left. reflexivity.
  - apply IH. intros Hin. apply H. right. exact Hin.
Qed.

Lemma generic_loop_found (key_id idx : nat) (value : string) (objects : list string)
  (visited : list visit) (i : nat) :
  nth_error objects i = Some value ->
  (forall j, j < i -> nth_error objects j <> Some value) ->
  generic_loop key_id idx value objects visited
  = (v <- getitem visited (idx + i) ;;
     Ok (Some (if is_False v then list_update visited (idx + i) (VisitedBy key_id)
               else visited))).
Proof.
  revert idx i. induction objects as [| obj objects IH]; intros idx i Hi Hfirst.
  - destruct i; discriminate.
  - cbn [generic_loop]. destruct i as [| i].
    + simpl in Hi. injection Hi as ->. rewrite String.eqb_refl, Nat.add_0_r. reflexivity.
    + destruct (String.eqb_spec obj value) as [-> | Hne].
      * exfalso. apply (Hfirst 0); [lia | reflexivity].
      * rewrite (IH (S idx) i Hi).
        -- rewrite Nat.add_succ_r. reflexivity.
        -- intros j Hj. apply (Hfirst (S j)). lia.
Qed.

(** ** The turn of a Literal rule in a frame *)

Lemma insert_by_priority_Permutation (k : Placeholder) (p : Z) (sorted : list (Z * Placeholder)) :
  Permutation (insert_by_priority k p sorted) ((p, k) :: sorted).
Proof.
  induction sorted as [| [q k'] sorted IH]; simpl; [apply Permutation_refl |].
  destruct (p <=? q)%Z; [apply Permutation_refl |].
  eapply perm_trans; [apply perm_skip; exact IH | apply perm_swap].
Qed.

Lemma sort_decorated_Permutation (d : list (Z * Placeholder)) :
  Permutation (sort_decorated d) d.
Proof.
  induction d as [| [p k] d IH]; simpl; [apply Permutation_refl |].
  eapply perm_trans; [apply insert_by_priority_Permutation | apply perm_skip; exact IH].
Qed.

Lemma insert_by_priority_sorted (k : Placeholder) (p : Z) (sorted : list (Z * Placeholder)) :
  StronglySorted by_priority sorted -> StronglySorted by_priority (insert_by_priority k p sorted).
Proof.
  induction sorted as [| [q k'] sorted IH]; intros Hs; simpl.
  - constructor; constructor.
  - inversion Hs as [| ? ? Hs' Hall]; subst.
    destruct (p <=? q)%Z eqn:Hpq.
    + apply Z.leb_le in Hpq. constructor; [exact Hs |].
      constructor; [exact Hpq |].
      eapply Forall_impl; [| exact Hall]. intros [r k''] Hr. unfold by_priority in *.
      simpl in *. lia.
    + apply Z.leb_gt in Hpq. constructor; [apply IH; exact Hs' |].
      rewrite Forall_forall. intros x Hx.
      apply (Permutation_in _ (insert_by_priority_Permutation k p sorted)) in Hx.
      destruct Hx as [<- | Hx].
      * unfold by_priority. simpl. lia.
      * rewrite Forall_forall in Hall. apply Hall. exact Hx.
Qed.

Lemma sort_decorated_sorted (d : list (Z * Placeholder)) :
  StronglySorted by_priority (sort_decorated d).
Proof.
  induction d as [| [p k] d IH]; simpl; [constructor |].
  apply insert_by_priority_sorted. exact IH.
Qed.

Lemma decorate_spec (keys : list Placeholder) (d : list (Z * Placeholder)) :
  decorate keys = Some d ->
  map snd d = keys /\ forall p k, In (p, k) d -> priority_of k = Some p.
Proof.
  revert d. induction keys as [| k keys IH]; simpl; intros d H.
  - injection H as <-. split; [reflexivity | intros p k []].
  - destruct (priority_of k) as [p |] eqn:Hp; [| discriminate].
    destruct (decorate keys) as [d' |]; [| discriminate].
    injection H as <-. destruct (IH d' eq_refl) as [Hmap Hprio]. split.
    + simpl. rewrite Hmap. reflexivity.
    + intros q k' [Heq | Hin]; [injection Heq as <- <-; exact Hp | apply Hprio; exact Hin].
Qed.

Lemma StronglySorted_app_before {A : Type} (R : A -> A -> Prop) (pre post : list A) (a x : A) :
  StronglySorted R (pre ++ a :: post)%list -> In x pre -> R x a.
Proof.
  induction pre as [| b pre IH]; intros Hs Hin; [destruct Hin |].
  simpl in Hs. inversion Hs as [| ? ? Hs' Hall]; subst.
  destruct Hin as [<- | Hin].
  - rewrite Forall_forall in Hall. apply Hall. apply in_or_app. right. left. reflexivity.
  - apply IH; assumption.
Qed.

Lemma sort_keys_Permutation (l keys : list Placeholder) :
  sort_keys l = Ok keys -> Permutation keys l.
Proof.
  unfold sort_keys. destruct (List.length l <? 2)%nat.
  - intros H. injection H as <-. apply Permutation_refl.
  - destruct (decorate l) as [d |] eqn:Hd; [| discriminate].
    intros H. injection H as <-. destruct (decorate_spec _ _ Hd) as [<- _].
    apply Permutation_map. apply sort_decorated_Permutation.
Qed.

(** The keys that come before a key in the sorted list have priorities no
    greater than its own. *)
Lemma sort_keys_before (l pre post : list Placeholder) (k k' : Placeholder) (p p' : Z) :
  sort_keys l = Ok (pre ++ k :: post)%list ->
  priority_of k = Some p -> In k' pre -> priority_of k' = Some p' -> (p' <= p)%Z.
Proof.
  unfold sort_keys. destruct (List.length l <? 2)%nat eqn:Hlen.
  - intros H. injection H as ->. apply Nat.ltb_lt in Hlen. rewrite length_app in Hlen.
    simpl in Hlen. destruct pre; [intros _ [] | simpl in Hlen; lia].
  - destruct (decorate l) as [d |] eqn:Hd; [| discriminate].
    intros H Hp Hin Hp'. injection H as H.
    destruct (decorate_spec _ _ Hd) as [_ Hprio].
    apply map_eq_app in H. destruct H as (spre & srest & Hsorted & Hpre & Hrest).
    apply map_eq_cons in Hrest. destruct Hrest as ([q k0] & spost & -> & Hk & Hpost).
    simpl in Hk. subst k0.
    pose proof (sort_decorated_sorted d) as Hs. rewrite Hsorted in Hs.
    subst pre. apply in_map_iff in Hin. destruct Hin as ([q' k0] & Hk0 & Hin).
    simpl in Hk0. subst k0.
    pose proof (StronglySorted_app_before _ _ _ _ _ Hs Hin) as Hle.
    unfold by_priority in Hle. simpl in Hle.
    assert (Hq : priority_of k = Some q).
    { apply Hprio. apply (Permutation_in _ (sort_decorated_Permutation d)).
      rewrite Hsorted. apply in_or_app. right. left. reflexivity. }
    assert (Hq' : priority_of k' = Some q').
    { apply Hprio. apply (Permutation_in _ (sort_decorated_Permutation d)).
      rewrite Hsorted. apply in_or_app. left. exact Hin. }
    congruence.
Qed.

Lemma filter_length_Permutation {A : Type} (f : A -> bool) (l l' : list A) :
  Permutation l l' -> List.length (filter f l) = List.length (filter f l').
Proof.
  induction 1 as [| x l l' _ IH | x y l | l l' l'' _ IH1 _ IH2]; simpl.
  - reflexivity.
  - destruct (f x); simpl; rewrite IH; reflexivity.
  - destruct (f x), (f y); reflexivity.
  - rewrite IH1. exact IH2.
Qed.

Lemma integer_loop_length (key_id : nat) (objects : list string) (idx : nat)
  (visited visited' : list visit) (appearances appearances' : nat) :
  integer_loop key_id idx objects visited appearances = Ok (visited', appearances') ->
  List.length visited' = List.length visited.
Proof.
  revert idx visited appearances.
  induction objects as [| obj objects IH]; intros idx visited appearances; simpl.
  - intros H. injection H as <- _. reflexivity.
  - destruct (isnumeric obj); [| apply IH].
    destruct (getitem visited idx) as [v | |]; cbn [bind]; try discriminate.
    destruct (is_False v).
    + intros H. apply IH in H. rewrite H. apply list_update_length.
    + apply IH.
Qed.

(** What a Literal rule that returns has done. *)
Lemma validate_generic_placeholder_Ok (placeholders : list Placeholder) (key_id : nat)
  (objects : list string) (visited visited' : list visit) (generical : Placeholder) :
  validate_generic_placeholder placeholders key_id objects visited generical = Ok visited' ->
  exists idx v,
    nth_error objects idx = Some (generic_value generical)
    /\ nth_error visited idx = Some v
    /\ visited' = if is_False v then list_update visited idx (VisitedBy key_id) else visited.
Proof.
  unfold validate_generic_placeholder. intros H.
  destruct (in_dec string_dec (generic_value generical) objects) as [Hin | Hin].
  - destruct (first_index _ _ Hin) as (idx & Hidx & Hfirst).
    rewrite (generic_loop_found key_id 0 _ objects visited idx Hidx Hfirst) in H.
    cbn [Nat.add] in H. unfold getitem in H.
    destruct (nth_error visited idx) as [v |] eqn:Hv; cbn [bind] in H; [| discriminate].
    injection H as <-. exists idx, v. repeat split; assumption.
  - rewrite (generic_loop_not_found _ _ _ _ _ Hin) in H. discriminate.
Qed.

Lemma validate_key_sorts_first (keys processed : list Placeholder) (key_id : nat)
  (key : Placeholder) (objects : list string) (visited visited' : list visit) :
  sorts_first key ->
  validate_key keys key_id key objects visited = Ok visited' ->
  claimed_by_literals processed objects visited ->
  claimed_by_literals (processed ++ [ key ]) objects visited'.
Proof.
  intros Hfirst H [Hlen Hinv].
  assert (Hkeep : claimed_by_literals (processed ++ [ key ]) objects visited).
  { split; [exact Hlen |]. intros idx k Hk. destruct (Hinv idx k Hk) as (obj & p & Hobj & Hin).
    exists obj, p. split; [exact Hobj | apply in_or_app; left; exact Hin]. }
  unfold validate_key in H.
  destruct key as [ph p | ph v p | i parts p].
  - (* a template placeholder: its priority is positive *)
    assert (Hp : (p <= 0)%Z) by (apply Hfirst; reflexivity).
    assert (Hne : forall name q, (0 < q)%Z ->
                    placeholder_eq (TemplatePlaceholder ph p) (TemplatePlaceholder name q)
                    = false).
    { intros name q Hq. simpl. apply andb_false_iff. right. apply Z.eqb_neq. lia. }
    unfold IntegerPlaceholder, AnyPlaceholder, SinglePlaceholder, ExclAlternativePlaceholder,
      new_TemplatePlaceholder in H.
    rewrite !Hne in H by lia. cbn [placeholder_eq new_GenericPlaceholder is_PlaceholderGroup] in H.
    discriminate.
  - (* a generic placeholder *)
    cbn [placeholder_eq IntegerPlaceholder AnyPlaceholder SinglePlaceholder
           new_TemplatePlaceholder new_GenericPlaceholder] in H.
    destruct (String.eqb_spec ph "<generic>") as [-> | Hne].
    + apply validate_generic_placeholder_Ok in H.
      destruct H as (idx & x & Hidx & Hx & ->). cbn [generic_value] in Hidx.
      destruct (is_False x); [| exact Hkeep].
      split; [rewrite list_update_length; exact Hlen |].
      intros j k Hk. destruct (Nat.eq_dec j idx) as [-> | Hj].
      * exists v, p. split; [exact Hidx | apply in_or_app; right; left; reflexivity].
      * rewrite list_update_other in Hk by exact Hj.
        destruct Hkeep as [_ Hkeep]. apply (Hkeep j k Hk).
    + cbn [is_PlaceholderGroup placeholder_eq ExclAlternativePlaceholder] in H. discriminate.
  - (* a group *)
    cbn [placeholder_eq IntegerPlaceholder AnyPlaceholder SinglePlaceholder
           new_TemplatePlaceholder new_GenericPlaceholder is_PlaceholderGroup] in H.
    unfold validate_group_placeholder in H. injection H as <-. exact Hkeep.
Qed.

Lemma validate_keys_sorts_first (keys processed rest : list Placeholder) (key_id : nat)
  (objects : list string) (visited visited' : list visit) :
  (forall k, In k rest -> sorts_first k) ->
  validate_keys keys key_id rest objects visited = Ok visited' ->
  claimed_by_literals processed objects visited ->
  claimed_by_literals (processed ++ rest) objects visited'.
Proof.
  revert processed key_id visited.
  induction rest as [| key rest IH]; intros processed key_id visited Hfirst H Hinv.
  - simpl in H. injection H as <-. rewrite app_nil_r. exact Hinv.
  - cbn [validate_keys] in H.
    destruct (validate_key keys key_id key objects visited) as [v | |] eqn:Hkey;
      cbn [bind] in H; try discriminate.
    replace (processed ++ key :: rest)%list with ((processed ++ [ key ]) ++ rest)%list
      by (rewrite <- app_assoc; reflexivity).
    eapply IH; [| exact H |].
    + intros k Hk. apply Hfirst. right. exact Hk.
    + eapply validate_key_sorts_first; [| exact Hkey | exact Hinv].
      apply Hfirst. left. reflexivity.
Qed.

Lemma claimed_by_literals_fresh (objects : list string) :
  claimed_by_literals [] objects (repeat NotVisited (List.length objects)).
Proof.
  split; [apply repeat_length |]. intros idx k Hk. exfalso.
  apply nth_error_In in Hk. apply repeat_spec in Hk. discriminate.
Qed.

(** When the turn of a Literal rule comes in a frame, the object of its value
    is still unvisited. *)
Lemma literal_object_unvisited (items : list (Placeholder * Pattern))
  (pre post : list Placeholder) (name : string) (objects : list string)
  (visited : list visit) :
  well_formed_dict items ->
  sort_keys (dict_keys items) = Ok (pre ++ new_GenericPlaceholder name :: post)%list ->
  validate_keys (pre ++ new_GenericPlaceholder name :: post)%list 0 pre objects
    (repeat NotVisited (List.length objects)) = Ok visited ->
  List.length visited = List.length objects
  /\ forall idx, nth_error objects idx = Some name -> nth_error visited idx = Some NotVisited.
Proof.
  intros Hwf Hsort Hpre.
  assert (Hfirst : forall k, In k pre -> sorts_first k).
  { intros k Hk p Hp. eapply (sort_keys_before _ _ _ _ _ 0%Z p Hsort); [reflexivity | exact Hk | exact Hp]. }
  pose proof (validate_keys_sorts_first _ [] pre 0 objects _ _ Hfirst Hpre
                (claimed_by_literals_fresh objects)) as [Hlen Hinv].
  split; [exact Hlen |]. intros idx Hidx.
  destruct (nth_error visited idx) as [[| k] |] eqn:Hv.
  - reflexivity.
  - exfalso. destruct (Hinv idx k Hv) as (obj & p & Hobj & Hin).
    rewrite Hidx in Hobj. injection Hobj as <-. simpl in Hin.
    specialize (Hwf (new_GenericPlaceholder name)).
    rewrite <- (filter_length_Permutation _ _ _ (sort_keys_Permutation _ _ Hsort)) in Hwf.
    apply in_split in Hin. destruct Hin as (l1 & l2 & ->).
    rewrite <- app_assoc in Hwf. cbn [app] in Hwf.
    rewrite filter_app in Hwf. cbn [filter] in Hwf.
    assert (Hsame : same_key (GenericPlaceholder "<generic>" name p) (new_GenericPlaceholder name)
                    = true).
    { unfold same_key. simpl. rewrite String.eqb_refl. reflexivity. }
    rewrite Hsame in Hwf. rewrite filter_app in Hwf. cbn [filter] in Hwf.
    assert (Hsame' : same_key (new_GenericPlaceholder name) (new_GenericPlaceholder name) = true).
    { unfold same_key. simpl. rewrite String.eqb_refl. reflexivity. }
    rewrite Hsame' in Hwf. rewrite !length_app in Hwf. cbn [List.length] in Hwf.
    rewrite !length_app in Hwf. cbn [List.length] in Hwf. lia.
  - exfalso. apply nth_error_None in Hv. rewrite Hlen in Hv.
    assert (idx < List.length objects) by (apply nth_error_Some; congruence). lia.
Qed.

Lemma validate_keys_app (keys pre rest : list Placeholder) (key_id : nat)
  (objects : list string) (visited : list visit) :
  validate_keys keys key_id (pre ++ rest)%list objects visited
  = (visited' <- validate_keys keys key_id pre objects visited ;;
     validate_keys keys (key_id + List.length pre) rest objects visited').
Proof.
  revert key_id visited. induction pre as [| key pre IH]; intros key_id visited.
  - cbn [app validate_keys bind List.length]. rewrite Nat.add_0_r. reflexivity.
  - cbn [app validate_keys List.length].
    destruct (validate_key keys key_id key objects visited); cbn [bind]; try reflexivity.
    rewrite IH, Nat.add_succ_r. reflexivity.
Qed.

(** C9. A Literal rule of value [name]. On any keys, at any index among
    them, on any objects and any array as long as the objects, the frame runs
    [validate_generic_placeholder] for it; the rule succeeds if and only if
    some object equals [name]; with no such object it fails with the "wasn't
    found" error; and when it succeeds it has written at most the entry of
    the first object equal to [name], which it claims if it was unvisited,
    and has left every other entry as it was. In a frame, where the keys are
    those of a dict sorted by priority and the rules before have run on a
    fresh array, that entry is unvisited when the turn of the rule comes: the
    rule claims the one object named [name], and no other. *)
Theorem generic_rule (name : string) :
  (forall placeholders key_id objects visited,
      List.length visited = List.length objects ->
      validate_key placeholders key_id (new_GenericPlaceholder name) objects visited
      = validate_generic_placeholder placeholders key_id objects visited
          (new_GenericPlaceholder name)
      /\ ((exists visited',
              validate_generic_placeholder placeholders key_id objects visited
                (new_GenericPlaceholder name) = Ok visited')
          <-> In name objects)
      /\ (~ In name objects ->
          validate_generic_placeholder placeholders key_id objects visited
            (new_GenericPlaceholder name)
          = Raise (CortexException [ "generic placeholder for " ++ name ++ " wasn't found" ]))
      /\ (forall visited',
             validate_generic_placeholder placeholders key_id objects visited
               (new_GenericPlaceholder name) = Ok visited' ->
             exists idx,
               nth_error objects idx = Some name
               /\ (forall j, j < idx -> nth_error objects j <> Some name)
               /\ nth_error visited' idx
                  = match nth_error visited idx with
                    | Some NotVisited => Some (VisitedBy key_id)
                    | other => other
                    end
               /\ forall j, j <> idx -> nth_error visited' j = nth_error visited j))
  /\ (forall items pre post objects,
         well_formed_dict items ->
         sort_keys (dict_keys items) = Ok (pre ++ new_GenericPlaceholder name :: post)%list ->
         validate_keys (pre ++ new_GenericPlaceholder name :: post)%list 0
           (pre ++ new_GenericPlaceholder name :: post)%list objects
           (repeat NotVisited (List.length objects))
         = (visited <- validate_keys (pre ++ new_GenericPlaceholder name :: post)%list 0 pre
                         objects (repeat NotVisited (List.length objects)) ;;
            visited' <- validate_key (pre ++ new_GenericPlaceholder name :: post)%list
                          (List.length pre) (new_GenericPlaceholder name) objects visited ;;
            validate_keys (pre ++ new_GenericPlaceholder name :: post)%list
              (S (List.length pre)) post objects visited')
         /\ forall visited visited',
              validate_keys (pre ++ new_GenericPlaceholder name :: post)%list 0 pre objects
                (repeat NotVisited (List.length objects)) = Ok visited ->
              validate_key (pre ++ new_GenericPlaceholder name :: post)%list (List.length pre)
                (new_GenericPlaceholder name) objects visited = Ok visited' ->
              exists idx,
                nth_error objects idx = Some name
                /\ nth_error visited idx = Some NotVisited
                /\ nth_error visited' idx = Some (VisitedBy (List.length pre))
                /\ forall j, j <> idx -> nth_error visited' j = nth_error visited j).
Proof.
  assert (Hrule : forall placeholders key_id objects visited,
             List.length visited = List.length objects ->
             ((exists visited',
                  validate_generic_placeholder placeholders key_id objects visited
                    (new_GenericPlaceholder name) = Ok visited')
              <-> In name objects)
             /\ (~ In name objects ->
                 validate_generic_placeholder placeholders key_id objects visited
                   (new_GenericPlaceholder name)
                 = Raise (CortexException
                            [ "generic placeholder for " ++ name ++ " wasn't found" ]))
             /\ (forall visited',
                    validate_generic_placeholder placeholders key_id objects visited
                      (new_GenericPlaceholder name) = Ok visited' ->
                    exists idx,
                      nth_error objects idx = Some name
                      /\ (forall j, j < idx -> nth_error objects j <> Some name)
                      /\ nth_error visited' idx
                         = match nth_error visited idx with
                           | Some NotVisited => Some (VisitedBy key_id)
                           | other => other
                           end
                      /\ forall j, j <> idx -> nth_error visited' j = nth_error visited j)).
  { intros placeholders key_id objects visited Hlen.
    assert (Hnot : ~ In name objects ->
                   validate_generic_placeholder placeholders key_id objects visited
                     (new_GenericPlaceholder name)
                   = Raise (CortexException
                              [ "generic placeholder for " ++ name ++ " wasn't found" ])).
    { intros H. unfold validate_generic_placeholder. cbn [generic_value new_GenericPlaceholder].
      rewrite (generic_loop_not_found _ _ _ _ _ H). reflexivity. }
    assert (Hfound : forall idx,
               nth_error objects idx = Some name ->
               (forall j, j < idx -> nth_error objects j <> Some name) ->
               exists v,
                 nth_error visited idx = Some v
                 /\ validate_generic_placeholder placeholders key_id objects visited
                      (new_GenericPlaceholder name)
                    = Ok (if is_False v then list_update visited idx (VisitedBy key_id)
                          else visited)).
    { intros idx Hidx Hfirst.
      assert (Hlt : idx < List.length visited).
      { rewrite Hlen. apply nth_error_Some. congruence. }
      destruct (getitem_Ok visited idx Hlt) as (v & Hget & Hnth).
      exists v. split; [exact Hnth |].
      unfold validate_generic_placeholder. cbn [generic_value new_GenericPlaceholder].
      rewrite (generic_loop_found key_id 0 name objects visited idx Hidx Hfirst).
      cbn [Nat.add]. rewrite Hget. reflexivity. }
    split; [| split].
    - split.
      + intros [visited' H]. destruct (in_dec string_dec name objects) as [Hin | Hin];
          [exact Hin |]. rewrite (Hnot Hin) in H. discriminate.
      + intros Hin. destruct (first_index name objects Hin) as (idx & Hidx & Hfirst).
        destruct (Hfound idx Hidx Hfirst) as (v & _ & ->). eexists. reflexivity.
    - exact Hnot.
    - intros visited' H.
      destruct (in_dec string_dec name objects) as [Hin | Hin];
        [| rewrite (Hnot Hin) in H; discriminate].
      destruct (first_index name objects Hin) as (idx & Hidx & Hfirst).
      destruct (Hfound idx Hidx Hfirst) as (v & Hv & Hres).
      rewrite Hres in H. injection H as <-.
      exists idx. split; [exact Hidx |]. split; [exact Hfirst |]. rewrite Hv.
      assert (Hlt : idx < List.length visited).
      { apply nth_error_Some. congruence. }
      destruct v as [| k]; cbn [is_False]; split.
      + apply list_update_same. exact Hlt.
      + intros j Hj. apply list_update_other. exact Hj.
      + exact Hv.
      + reflexivity. }
  split.
  - intros placeholders key_id objects visited Hlen. split; [reflexivity |].
    apply Hrule. exact Hlen.
  - intros items pre post objects Hwf Hsort. split.
    + rewrite validate_keys_app at 1. cbn [Nat.add validate_keys]. reflexivity.
    + intros visited visited' Hpre Hkey.
      destruct (literal_object_unvisited items pre post name objects visited Hwf Hsort Hpre)
        as [Hlen Hfresh].
      change (validate_key (pre ++ new_GenericPlaceholder name :: post)%list (List.length pre)
                (new_GenericPlaceholder name) objects visited)
        with (validate_generic_placeholder (pre ++ new_GenericPlaceholder name :: post)%list
                (List.length pre) objects visited (new_GenericPlaceholder name)) in Hkey.
      destruct (Hrule (pre ++ new_GenericPlaceholder name :: post)%list (List.length pre)
                  objects visited Hlen) as (_ & _ & Hclaims).
      destruct (Hclaims visited' Hkey) as (idx & Hidx & _ & Hat & Hothers).
      exists idx. rewrite (Hfresh idx Hidx) in Hat.
      repeat split; [exact Hidx | apply Hfresh; exact Hidx | exact Hat | exact Hothers].
Qed.

(** The dict under ["0model.onnx"] in the template holds each key once. *)
Lemma sub_template_well_formed :
  well_formed_dict [ (new_GenericPlaceholder "123", PNone); (IntegerPlaceholder, PNone) ].
Proof.
  intros [ph p | ph v p | i parts p]; unfold same_key; cbn [dict_keys map fst filter hash
    hashed_eqb placeholder_eq new_GenericPlaceholder IntegerPlaceholder new_TemplatePlaceholder
    andb].
  - destruct (_ && _); simpl; lia.
  - destruct (_ && _); simpl; lia.
  - simpl. lia.
Qed.

(** The rule on the two objects of a TensorFlow model directory, and the
    rule for ["123"] at its turn in the frame of the dict under
    ["0model.onnx"] *)
Lemma generic_rule_witness :
  (List.length [ NotVisited; NotVisited ] = List.length [ "variables"; "saved_model.pb" ]
   /\ exists visited',
        validate_generic_placeholder
          [ new_GenericPlaceholder "saved_model.pb"; AnyPlaceholder ] 0
          [ "variables"; "saved_model.pb" ] [ NotVisited; NotVisited ]
          (new_GenericPlaceholder "saved_model.pb") = Ok visited')
  /\ (well_formed_dict [ (new_GenericPlaceholder "123", PNone); (IntegerPlaceholder, PNone) ]
      /\ exists idx,
           nth_error [ "5"; "123" ] idx = Some "123"
           /\ nth_error [ NotVisited; NotVisited ] idx = Some NotVisited
           /\ nth_error [ NotVisited; VisitedBy 0 ] idx = Some (VisitedBy (List.length (@nil Placeholder)))
           /\ forall j, j <> idx ->
                        nth_error [ NotVisited; VisitedBy 0 ] j
                        = nth_error [ NotVisited; NotVisited ] j).
Proof.
  split.
  - split; [reflexivity |].
    apply (proj1 (proj2 (proj1 (generic_rule "saved_model.pb")
                           [ new_GenericPlaceholder "saved_model.pb"; AnyPlaceholder ] 0
                           [ "variables"; "saved_model.pb" ] [ NotVisited; NotVisited ]
                           eq_refl))).
    right. left. reflexivity.
  - split; [exact sub_template_well_formed |].
    apply (proj2 (proj2 (generic_rule "123")
                    [ (new_GenericPlaceholder "123", PNone); (IntegerPlaceholder, PNone) ]
                    [] [ IntegerPlaceholder ] [ "5"; "123" ]
                    sub_template_well_formed eq_refl)
             [ NotVisited; NotVisited ] [ NotVisited; VisitedBy 0 ] eq_refl eq_refl).
Defined.

(** ** Equality and hashing of placeholders *)

(** Two generic placeholders of different values compare equal. *)
Lemma generic_placeholders_compare_equal :
  placeholder_eq (new_GenericPlaceholder "saved_model.pb") (new_GenericPlaceholder "variables")
  = true
  /\ generic_value (new_GenericPlaceholder "saved_model.pb")
     <> generic_value (new_GenericPlaceholder "variables").
Proof. split; [reflexivity | discriminate]. Qed.

Lemma hashed_eqb_eq (h1 h2 : hashed) : hashed_eqb h1 h2 = true <-> h1 = h2.
Proof.
  destruct h1 as [ph1 p1 | ph1 v1 | i1], h2 as [ph2 p2 | ph2 v2 | i2]; cbn [hashed_eqb];
    try (split; [discriminate | intros H; discriminate H]).
  - rewrite andb_true_iff, String.eqb_eq, Z.eqb_eq. split; [intros [-> ->] | intros H];
      [reflexivity | injection H as -> ->; split; reflexivity].
  - rewrite andb_true_iff, !String.eqb_eq. split; [intros [-> ->] | intros H];
      [reflexivity | injection H as -> ->; split; reflexivity].
  - rewrite Nat.eqb_eq. split; [intros -> | intros H]; [reflexivity | injection H as ->];
      reflexivity.
Qed.

(** C6, as the code has it. Equality of placeholders is by kind, and by the
    carried value for template placeholders only: two template placeholders
    compare equal if and only if they have the same name and the same
    priority; two generic placeholders compare equal whatever their values
    (this is how the matcher recognises a Literal rule, by comparing the key
    with the generic placeholder of the empty value); a group compares equal
    to itself alone, so two groups built of the same parts are not equal;
    placeholders of two kinds never compare equal. As keys of a dict, in a
    process with any hash function, two generic placeholders are told apart
    by their hashes and by nothing else: one is taken for the other exactly
    when the hashes of their pairs of placeholder and value agree, which
    they do when the values are equal, and for different values only where
    the hash function collides; a lookup of the one in a dict that holds the
    other finds the value then, and is a [KeyError] otherwise. The dicts of
    the matcher are those of a process where the hashes of the keys at hand
    do not collide. *)
Theorem placeholder_eq_by_kind :
  (forall ph1 p1 ph2 p2,
      placeholder_eq (TemplatePlaceholder ph1 p1) (TemplatePlaceholder ph2 p2) = true
      <-> ph1 = ph2 /\ p1 = p2)
  /\ (forall v1 v2,
         placeholder_eq (new_GenericPlaceholder v1) (new_GenericPlaceholder v2) = true)
  /\ (forall key v,
         placeholder_eq key (new_GenericPlaceholder "") = true
         -> placeholder_eq key (new_GenericPlaceholder v) = true)
  /\ (forall id1 parts1 priority1 id2 parts2 priority2,
         placeholder_eq (PlaceholderGroup id1 parts1 priority1)
           (PlaceholderGroup id2 parts2 priority2) = true
         <-> id1 = id2)
  /\ (forall a b,
         placeholder_eq a b = true ->
         match a, b with
         | TemplatePlaceholder _ _, TemplatePlaceholder _ _
         | GenericPlaceholder _ _ _, GenericPlaceholder _ _ _
         | PlaceholderGroup _ _ _, PlaceholderGroup _ _ _ => True
         | _, _ => False
         end)
  /\ (forall hash_value v1 v2,
         same_key_in hash_value (new_GenericPlaceholder v1) (new_GenericPlaceholder v2) = true
         <-> hash_value (HashGeneric "<generic>" v1) = hash_value (HashGeneric "<generic>" v2))
  /\ (forall hash_value v1 v2 sub_pattern,
         dict_get_in hash_value [ (new_GenericPlaceholder v1, sub_pattern) ]
           (new_GenericPlaceholder v2)
         = if Z.eqb (hash_value (HashGeneric "<generic>" v1))
                (hash_value (HashGeneric "<generic>" v2))
           then Ok sub_pattern else Raise KeyError)
  /\ (forall hash_value v1 v2,
         v1 <> v2 ->
         hash_value (HashGeneric "<generic>" v1) = hash_value (HashGeneric "<generic>" v2) ->
         same_key_in hash_value (new_GenericPlaceholder v1) (new_GenericPlaceholder v2) = true
         /\ same_key (new_GenericPlaceholder v1) (new_GenericPlaceholder v2) = false)
  /\ (forall hash_value k' k,
         (hash_value (hash k') = hash_value (hash k) -> hash k' = hash k) ->
         same_key_in hash_value k' k = same_key k' k)
  /\ (forall hash_value items key,
         (forall k', In k' (dict_keys items) ->
                     hash_value (hash k') = hash_value (hash key) -> hash k' = hash key) ->
         dict_get_in hash_value items key = dict_get items key).
Proof.
  assert (Hkey : forall hash_value k' k,
             (hash_value (hash k') = hash_value (hash k) -> hash k' = hash k) ->
             same_key_in hash_value k' k = same_key k' k).
  { intros hash_value k' k Hapart. unfold same_key_in, same_key, hash_in. f_equal.
    destruct (hashed_eqb (hash k') (hash k)) eqn:Hh.
    - apply hashed_eqb_eq in Hh. rewrite Hh. apply Z.eqb_refl.
    - apply Z.eqb_neq. intros Heq. apply Hapart in Heq. apply hashed_eqb_eq in Heq.
      congruence. }
  split; [| split; [| split; [| split; [| split; [| split; [| split; [| split; [| split]]]]]]]].
  - intros ph1 p1 ph2 p2. simpl. rewrite andb_true_iff, String.eqb_eq, Z.eqb_eq. tauto.
  - intros v1 v2. reflexivity.
  - intros [ph p | ph v' p | i parts p] v H; simpl in *; try discriminate. exact H.
  - intros id1 parts1 priority1 id2 parts2 priority2. cbn [placeholder_eq]. apply Nat.eqb_eq.
  - intros [? ? | ? ? ? | ? ? ?] [? ? | ? ? ? | ? ? ?]; cbn [placeholder_eq];
      intros H; try discriminate H; exact I.
  - intros hash_value v1 v2. unfold same_key_in, hash_in.
    cbn [hash new_GenericPlaceholder placeholder_eq]. rewrite String.eqb_refl, andb_true_r.
    apply Z.eqb_eq.
  - intros hash_value v1 v2 sub_pattern. cbn [dict_get_in]. unfold same_key_in, hash_in.
    cbn [hash new_GenericPlaceholder placeholder_eq]. rewrite String.eqb_refl, andb_true_r.
    reflexivity.
  - intros hash_value v1 v2 Hne Hcollide. split.
    + unfold same_key_in, hash_in. cbn [hash new_GenericPlaceholder placeholder_eq].
      rewrite Hcollide, Z.eqb_refl. reflexivity.
    + unfold same_key. cbn [hash new_GenericPlaceholder hashed_eqb placeholder_eq].
      apply String.eqb_neq in Hne. rewrite Hne, andb_false_r. reflexivity.
  - exact Hkey.
  - intros hash_value items key. induction items as [| [k' v] items IH]; intros Hapart;
      [reflexivity |].
    cbn [dict_get_in dict_get]. rewrite Hkey by (apply Hapart; left; reflexivity).
    rewrite IH by (intros k Hin; apply Hapart; right; exact Hin). reflexivity.
Qed.

(** A process whose hash function sends everything to one value: the
    literal ["variables"] finds what the dict holds under ["saved_model.pb"]. *)
Lemma placeholder_eq_by_kind_witness :
  same_key_in (fun _ => 0%Z) (new_GenericPlaceholder "saved_model.pb")
    (new_GenericPlaceholder "variables") = true
  /\ same_key (new_GenericPlaceholder "saved_model.pb") (new_GenericPlaceholder "variables")
     = false.
Proof.
  refine (proj1 (proj2 (proj2 (proj2 (proj2 (proj2 (proj2 (proj2 placeholder_eq_by_kind)))))))
            (fun _ => 0%Z) "saved_model.pb" "variables" _ _).
  - discriminate.
  - reflexivity.
Defined.

(** ** The context of an error *)

(** A model whose directory ["0model.onnx"] lacks the entry ["123"]: the
    frame of ["p/0model.onnx"] raises, and the error surfaces with the
    context of that frame alone; the context of the root frame, at ["p"], is
    in none of its messages. *)
Lemma nested_error_lacks_root_context :
  exists messages,
    run_validate [ "p/1"; "p/0model.onnx/x" ] PythonPredictorType "p"
    = Raise (CortexException messages)
    /\ messages = [ "python predictor at 'p/0model.onnx'";
                    "generic placeholder for 123 wasn't found" ]
    /\ existsb (contains (context short_name PythonPredictorType "p")) messages = false.
Proof. eexists. split; [vm_compute; reflexivity | split; reflexivity]. Qed.

Lemma integer_loop_Raise (key_id : nat) (objects : list string) (idx : nat)
  (visited : list visit) (appearances : nat) (e : exn) :
  integer_loop key_id idx objects visited appearances = Raise e -> e = IndexError.
Proof.
  revert idx visited appearances.
  induction objects as [| obj objects IH]; intros idx visited appearances; simpl;
    [discriminate |].
  destruct (isnumeric obj); [| apply IH].
  unfold getitem. destruct (nth_error visited idx) as [v |]; cbn [bind]; [| congruence].
  destruct (is_False v); apply IH.
Qed.

Lemma generic_loop_Raise (key_id : nat) (value : string) (objects : list string) (idx : nat)
  (visited : list visit) (e : exn) :
  generic_loop key_id idx value objects visited = Raise e -> e = IndexError.
Proof.
  revert idx. induction objects as [| obj objects IH]; intros idx; simpl; [discriminate |].
  destruct (String.eqb obj value); [| apply IH].
  unfold getitem. destruct (nth_error visited idx); cbn [bind]; [discriminate | congruence].
Qed.

(** A validator raises a [CortexException] of a single message. *)
Lemma validate_key_Raise (keys : list Placeholder) (key_id : nat) (key : Placeholder)
  (objects : list string) (visited : list visit) (inner : list string) :
  validate_key keys key_id key objects visited = Raise (CortexException inner) ->
  exists message, inner = [ message ].
Proof.
  unfold validate_key.
  destruct (placeholder_eq key IntegerPlaceholder).
  { unfold validate_integer_placeholder.
    destruct (integer_loop key_id 0 objects visited 0) as [[visited' appearances] | e |] eqn:Hl;
      cbn [bind]; [| apply integer_loop_Raise in Hl; congruence | discriminate].
    destruct ((1 <? appearances)%nat && (List.length keys =? 1)%nat);
      [intros H; injection H as <-; eexists; reflexivity |].
    destruct (appearances =? 0)%nat; [| discriminate].
    intros H. injection H as <-. eexists. reflexivity. }
  destruct (placeholder_eq key AnyPlaceholder); [discriminate |].
  destruct (placeholder_eq key SinglePlaceholder).
  { unfold validate_single_placeholder.
    destruct ((1 <? List.length keys)%nat || (1 <? List.length objects)%nat);
      [intros H; injection H as <-; eexists; reflexivity |].
    destruct visited as [| [|] ?]; discriminate. }
  destruct (placeholder_eq key (new_GenericPlaceholder "")).
  { unfold validate_generic_placeholder.
    destruct (generic_loop key_id 0 (generic_value key) objects visited) as [[v |] | e |] eqn:Hl;
      cbn [bind]; [discriminate | | apply generic_loop_Raise in Hl; congruence | discriminate].
    intros H. injection H as <-. eexists. reflexivity. }
  destruct (is_PlaceholderGroup key); [discriminate |].
  destruct (placeholder_eq key ExclAlternativePlaceholder); [discriminate |].
  intros H. injection H as <-. eexists. reflexivity.
Qed.

Lemma validate_keys_Raise (keys rest : list Placeholder) (key_id : nat)
  (objects : list string) (visited : list visit) (inner : list string) :
  validate_keys keys key_id rest objects visited = Raise (CortexException inner) ->
  exists message, inner = [ message ].
Proof.
  revert key_id visited. induction rest as [| key rest IH]; intros key_id visited; simpl;
    [discriminate |].
  destruct (validate_key keys key_id key objects visited) as [v | e |] eqn:Hk; cbn [bind].
  - apply IH.
  - intros H. injection H as ->. eapply validate_key_Raise. exact Hk.
  - discriminate.
Qed.

Section ErrorContext.

Variable cwd : string.
Variable list_set : list string -> list string.
Variable str_predictor_type : PredictorType -> string.

Lemma dict_get_Raise (items : list (Placeholder * Pattern)) (key : Placeholder) (e : exn) :
  dict_get items key = Raise e -> e = KeyError.
Proof.
  induction items as [| [k p] items IH]; simpl; intros H.
  - injection H as <-. reflexivity.
  - destruct (same_key k key); [discriminate | apply IH; exact H].
Qed.

Lemma mapM_Raise {A B : Type} (f : A -> result B) (l : list A) (e : exn) :
  mapM f l = Raise e -> exists a, In a l /\ f a = Raise e.
Proof.
  induction l as [| a l IH]; simpl; intros H; [discriminate |].
  destruct (f a) as [b | e' |] eqn:Hfa; cbn [bind] in H.
  - destruct (mapM f l) as [bs | e' |]; cbn [bind] in H; try discriminate.
    destruct (IH H) as (a' & Hin & Ha'). exists a'. split; [right |]; assumption.
  - injection H as ->. exists a. split; [left; reflexivity | exact Hfa].
  - discriminate.
Qed.

Lemma get_leftmost_loop_no_Raise (fuel : nat) (path basename : string) (e : exn) :
  get_leftmost_loop fuel path basename <> Raise e.
Proof.
  revert path basename. induction fuel as [| fuel IH]; intros [| a p] basename;
    cbn [get_leftmost_loop]; try discriminate.
  destruct (os_path_split (String a p)). apply IH.
Qed.

Lemma level_paths_Raise (s3_paths : list string) (commonprefix : string) (e : exn) :
  level_paths cwd s3_paths commonprefix = Raise e -> e = ValueError.
Proof.
  unfold level_paths. intros H.
  destruct (mapM (fun s3_path => relpath cwd s3_path commonprefix) s3_paths) as [ps | e' |] eqn:Hm;
    cbn [bind] in H; try discriminate.
  injection H as ->. apply mapM_Raise in Hm. destruct Hm as (p & _ & Hp).
  unfold relpath in Hp. destruct (String.eqb p ""); [congruence |].
  destruct (rel_list _ _); discriminate.
Qed.

Lemma level_objects_Raise (paths : list string) (e : exn) :
  level_objects list_set paths = Raise e -> False.
Proof.
  unfold level_objects. intros H.
  destruct (mapM get_leftmost_part_of_path paths) as [objs | e' |] eqn:Hm;
    cbn [bind] in H; try discriminate.
  injection H as ->. apply mapM_Raise in Hm. destruct Hm as (p & _ & Hp).
  eapply get_leftmost_loop_no_Raise. exact Hp.
Qed.

Lemma sort_keys_Raise (keys : list Placeholder) (e : exn) :
  sort_keys keys = Raise e -> e = TypeError.
Proof.
  unfold sort_keys. destruct (List.length keys <? 2)%nat; [discriminate |].
  destruct (decorate keys); [discriminate |]. congruence.
Qed.

Lemma unvisited_from_Raise (paths : list string) (visited : list visit) (idx : nat) (e : exn) :
  unvisited_from paths idx visited = Raise e -> e = IndexError.
Proof.
  revert idx. induction visited as [| v visited IH]; intros idx; simpl; [discriminate |].
  destruct (is_False v); [| apply IH].
  unfold getitem. destruct (nth_error paths idx); cbn [bind]; [| congruence].
  destruct (unvisited_from paths (S idx) visited) eqn:Hu; cbn [bind]; try discriminate.
  intros H. injection H as <-. eapply IH. exact Hu.
Qed.

Lemma match_level_Raise (predictor_type : PredictorType) (commonprefix : string)
  (keys : list Placeholder) (paths objects : list string) (messages : list string) :
  match_level str_predictor_type predictor_type commonprefix keys paths objects
  = Raise (CortexException messages) ->
  exists message,
    messages = [ context str_predictor_type predictor_type commonprefix; message ]
    \/ messages = [ model_context str_predictor_type predictor_type commonprefix; message ].
Proof.
  unfold match_level, try_validate_keys. intros H.
  destruct (validate_keys keys 0 keys objects _) as [visited | [inner | | | | |] |];
    cbn [bind] in H; try discriminate.
  - unfold check_unvisited in H.
    destruct (unvisited_from paths 0 visited) as [ps | e |] eqn:Hu; cbn [bind] in H;
      try discriminate.
    + destruct (0 <? List.length ps)%nat; cbn [bind] in H; [| discriminate].
      injection H as <-. eexists. right. reflexivity.
    + apply unvisited_from_Raise in Hu. congruence.
  - injection H as <-. eexists. left. reflexivity.
Qed.

Lemma descend_Raise (rec : Pattern -> string -> result unit)
  (items : list (Placeholder * Pattern)) (keys : list Placeholder) (objects : list string)
  (commonprefix : string) (visited : list visit) (obj_id : nat) (messages : list string) :
  descend rec items keys objects commonprefix obj_id visited = Raise (CortexException messages) ->
  exists sub_pattern obj,
    In obj objects /\ rec sub_pattern (os_path_join commonprefix obj)
                      = Raise (CortexException messages).
Proof.
  revert obj_id. induction visited as [| v visited IH]; intros obj_id; cbn [descend];
    [discriminate |].
  unfold getitem at 1. destruct (nth_error objects obj_id) as [obj |] eqn:Hobj;
    [| discriminate].
  cbn [bind]. unfold getitem. destruct (nth_error keys (key_index v)) as [key |];
    [| discriminate].
  cbn [bind].
  destruct (dict_get items key) as [sub | e |] eqn:Hsub; cbn [bind].
  - destruct (rec sub (os_path_join commonprefix obj)) as [[] | e |] eqn:Hrec; cbn [bind].
    + apply IH.
    + intros H. injection H as ->. exists sub, obj. split; [| exact Hrec].
      eapply nth_error_In. exact Hobj.
    + discriminate.
  - apply dict_get_Raise in Hsub. subst e. discriminate.
  - discriminate.
Qed.

End ErrorContext.

(** ** Independence of the process *)

Lemma list_set_singleton (list_set : list string -> list string) (x : string) :
  enumerates_sets list_set -> list_set [ x ] = [ x ].
Proof.
  intros H. destruct (H [ x ]) as [Hnd Hin].
  assert (Hall : forall y, In y (list_set [ x ]) -> y = x).
  { intros y Hy. apply Hin in Hy. destruct Hy as [<- | []]. reflexivity. }
  assert (Hx : In x (list_set [ x ])) by (apply Hin; left; reflexivity).
  destruct (list_set [ x ]) as [| a [| b l]].
  - destruct Hx.
  - rewrite (Hall a) by (left; reflexivity). reflexivity.
  - exfalso. inversion Hnd as [| ? ? Hna _]. apply Hna.
    rewrite (Hall a) by (left; reflexivity).
    rewrite (Hall b) by (right; left; reflexivity). left. reflexivity.
Qed.

Lemma first_seen_In (seen l : list string) (x : string) :
  In x (first_seen seen l) <-> In x l /\ ~ In x seen.
Proof.
  revert seen. induction l as [| a l IH]; intros seen; simpl; [tauto |].
  destruct (existsb (String.eqb a) seen) eqn:He.
  - apply existsb_exists in He. destruct He as (b & Hb & Hab). apply String.eqb_eq in Hab.
    subst b. rewrite IH. split.
    + intros [H1 H2]. split; [right |]; assumption.
    + intros [[<- | H1] H2]; [contradiction | split; assumption].
  - assert (Ha : ~ In a seen).
    { intros Hin. assert (existsb (String.eqb a) seen = true); [| congruence].
      apply existsb_exists. exists a. split; [exact Hin | apply String.eqb_refl]. }
    simpl. rewrite IH. simpl. split.
    + intros [<- | [H1 H2]]; [split; [left; reflexivity | exact Ha] |].
      split; [right; exact H1 | tauto].
    + intros [[<- | H1] H2]; [left; reflexivity |].
      destruct (string_dec a x) as [-> | Hne]; [left; reflexivity |].
      right. split; [exact H1 | intros [Hax | Hs]; [congruence | contradiction]].
Qed.

Lemma first_seen_NoDup (seen l : list string) : NoDup (first_seen seen l).
Proof.
  revert seen. induction l as [| a l IH]; intros seen; simpl; [constructor |].
  destruct (existsb (String.eqb a) seen); [apply IH |].
  constructor; [| apply IH]. rewrite first_seen_In. intros [_ H]. apply H. left. reflexivity.
Qed.

Lemma first_seen_enumerates_sets : enumerates_sets list_set_first_seen.
Proof.
  intros l. split; [apply first_seen_NoDup |].
  intros x. unfold list_set_first_seen. rewrite first_seen_In. simpl. tauto.
Qed.

Lemma string_app_assoc (a b c : string) : (a ++ b) ++ c = a ++ (b ++ c).
Proof. induction a as [| x a IH]; simpl; [reflexivity | rewrite IH; reflexivity]. Qed.

Lemma str_split_app_sep (a b : string) :
  str_split (a ++ String sep b) = (str_split a ++ str_split b)%list.
Proof.
  induction a as [| c a IH]; cbn [append str_split].
  - rewrite Ascii.eqb_refl. reflexivity.
  - rewrite IH. destruct (Ascii.eqb c sep); [reflexivity |].
    pose proof (str_split_not_nil a) as Hne.
    destruct (str_split a) as [| h t]; [congruence | reflexivity].
Qed.

Lemma endswith_char_app (s : string) (c : ascii) :
  endswith_char s c = true -> exists a, s = a ++ String c "".
Proof.
  induction s as [| x s IH]; [discriminate |].
  destruct s as [| y s].
  - cbn [endswith_char]. intros H. apply Ascii.eqb_eq in H. subst x. exists "". reflexivity.
  - intros H. destruct (IH H) as [a Ha]. exists (String x a). cbn [append]. rewrite <- Ha.
    reflexivity.
Qed.

Lemma fold_norm_step_no_dotdot (comps stack below : list string) :
  forallb (fun comp => negb (String.eqb comp "..")) comps = true ->
  fold_left norm_step comps (stack ++ below)%list
  = (fold_left norm_step comps stack ++ below)%list.
Proof.
  revert stack. induction comps as [| comp comps IH]; intros stack H; [reflexivity |].
  cbn [forallb] in H. apply andb_true_iff in H. destruct H as [Hc H].
  cbn [fold_left]. unfold norm_step at 2 4.
  destruct (String.eqb comp "" || String.eqb comp "."); [apply IH; exact H |].
  destruct (String.eqb comp ".."); [discriminate |].
  apply (IH (comp :: stack) H).
Qed.

Lemma commonprefix_list_app (pre l1 l2 : list string) :
  commonprefix_list (pre ++ l1) (pre ++ l2) = (pre ++ commonprefix_list l1 l2)%list.
Proof.
  induction pre as [| a pre IH]; [reflexivity |].
  cbn [app commonprefix_list]. rewrite String.eqb_refl, IH. reflexivity.
Qed.

Lemma rel_list_app (pre l1 l2 : list string) :
  rel_list (pre ++ l1) (pre ++ l2) = rel_list l1 l2.
Proof.
  unfold rel_list. rewrite commonprefix_list_app, !length_app.
  replace (List.length pre + List.length l1
           - (List.length pre + List.length (commonprefix_list l1 l2)))
    with (List.length l1 - List.length (commonprefix_list l1 l2)) by lia.
  rewrite skipn_app. rewrite (skipn_all2 pre) by lia.
  replace (List.length pre + List.length (commonprefix_list l1 l2) - List.length pre)
    with (List.length (commonprefix_list l1 l2)) by lia.
  reflexivity.
Qed.

(** The components of an absolute form are those of the working directory
    followed by those of the path, when the path is relative and never steps
    up. *)
Lemma abspath_list_relative (cwd : string) :
  exists above, forall p,
      isabs p = false -> no_dotdot p = true ->
      abspath_list cwd p = (above ++ normalize (str_split p))%list.
Proof.
  assert (Hstack : exists stack, forall p,
               isabs p = false ->
               fold_left norm_step (str_split (os_path_join cwd p)) []
               = fold_left norm_step (str_split p) stack).
  { destruct (String.eqb cwd "" || endswith_char cwd sep) eqn:Hc.
    - destruct (String.eqb_spec cwd "") as [He | Hne].
      + subst cwd. exists []. intros p Hp. unfold os_path_join. unfold isabs in Hp. rewrite Hp.
        reflexivity.
      + simpl in Hc. apply endswith_char_app in Hc. destruct Hc as [a ->].
        exists (fold_left norm_step (str_split a) []). intros p Hp.
        unfold os_path_join. unfold isabs in Hp. rewrite Hp.
        destruct (String.eqb (a ++ String sep "") "" || endswith_char (a ++ String sep "") sep)
          eqn:Hc.
        * rewrite string_app_assoc. cbn [append]. rewrite str_split_app_sep, fold_left_app.
          reflexivity.
        * rewrite !string_app_assoc. cbn [append]. rewrite !str_split_app_sep, !fold_left_app.
          reflexivity.
    - exists (fold_left norm_step (str_split cwd) []). intros p Hp.
      unfold os_path_join. unfold isabs in Hp. rewrite Hp, Hc.
      change ("/" ++ p) with (String sep p). rewrite str_split_app_sep, fold_left_app.
      reflexivity. }
  destruct Hstack as [stack Hstack]. exists (rev stack). intros p Hp Hclean.
  unfold abspath_list. rewrite Hp. unfold normalize. rewrite (Hstack p Hp).
  pose proof (fold_norm_step_no_dotdot (str_split p) [] stack Hclean) as Hfold.
  cbn [app] in Hfold. rewrite Hfold, rev_app_distr. reflexivity.
Qed.

(** On relative paths that never step up, [os.path.relpath] answers the same
    in every working directory. *)
Lemma relpath_relative (cwd path start : string) :
  isabs path = false -> no_dotdot path = true ->
  isabs start = false -> no_dotdot start = true ->
  relpath cwd path start
  = if String.eqb path "" then Raise ValueError
    else match rel_list (normalize (str_split start)) (normalize (str_split path)) with
         | [] => Ok "."
         | rel => Ok (String.concat "/" rel)
         end.
Proof.
  intros Hp Hpc Hs Hsc. destruct (abspath_list_relative cwd) as [above Habove].
  unfold relpath. rewrite (Habove path Hp Hpc), (Habove start Hs Hsc), rel_list_app.
  reflexivity.
Qed.

Lemma mapM_Ok_image {A B : Type} (f : A -> result B) (l : list A) (bs : list B) (a : A) :
  mapM f l = Ok bs -> In a l -> exists b, f a = Ok b /\ In b bs.
Proof.
  revert bs. induction l as [| a' l IH]; simpl; intros bs H Hin; [destruct Hin |].
  destruct (f a') as [b' | |] eqn:Hfa; cbn [bind] in H; try discriminate.
  destruct (mapM f l) as [bs' | |]; cbn [bind] in H; try discriminate.
  injection H as <-. destruct Hin as [<- | Hin].
  - exists b'. split; [exact Hfa | left; reflexivity].
  - destruct (IH bs' eq_refl Hin) as (b & Hb & Hbs). exists b. split; [| right]; assumption.
Qed.

Lemma level_paths_relative (cwd : string) (s3_paths : list string) (commonprefix : string) :
  forallb relative_clean s3_paths = true -> relative_clean commonprefix = true ->
  level_paths cwd s3_paths commonprefix = level_paths "" s3_paths commonprefix.
Proof.
  intros Hall Hcp. unfold level_paths. f_equal.
  apply andb_true_iff in Hcp. destruct Hcp as [Hcp1 Hcp2]. apply negb_true_iff in Hcp1.
  induction s3_paths as [| p s3_paths IH]; [reflexivity |].
  cbn [forallb] in Hall. apply andb_true_iff in Hall. destruct Hall as [Hp Hall].
  apply andb_true_iff in Hp. destruct Hp as [Hp1 Hp2]. apply negb_true_iff in Hp1.
  cbn [mapM]. rewrite (IH Hall).
  rewrite (relpath_relative cwd p commonprefix Hp1 Hp2 Hcp1 Hcp2).
  rewrite (relpath_relative "" p commonprefix Hp1 Hp2 Hcp1 Hcp2). reflexivity.
Qed.

(** ** Scenarios on the templates of the module *)

Section Scenarios.

Variable cwd : string.
Variable list_set : list string -> list string.
Variable str_predictor_type : PredictorType -> string.
Hypothesis list_set_enumerates : enumerates_sets list_set.

Lemma validate_s3_model_paths_with_model_template (s3_paths : list string)
  (predictor_type : PredictorType) (commonprefix : string) :
  validate_s3_model_paths cwd list_set str_predictor_type s3_paths predictor_type commonprefix
  = validate_with_template cwd list_set str_predictor_type model_template s3_paths
      predictor_type commonprefix.
Proof.
  unfold validate_s3_model_paths, validate_s3_model_paths_fuel, validate_with_template,
    enough_fuel, single_model_pattern.
  destruct s3_paths; [reflexivity |].
  destruct (template_get model_template predictor_type); reflexivity.
Qed.

Lemma frame_eq (fuel : nat) (predictor_type : PredictorType) (pattern : Pattern)
  (s3_paths : list string) (commonprefix : string) :
  _validate_s3_model_paths cwd list_set str_predictor_type (S fuel) predictor_type pattern
    s3_paths commonprefix
  = (paths <- level_paths cwd s3_paths commonprefix ;;
     objects <- level_objects list_set paths ;;
     match pattern with
     | PNone =>
         match objects with
         | [ obj ] =>
             if String.eqb obj "." then Ok tt
             else Raise (CortexException
                           [ context str_predictor_type predictor_type commonprefix;
                             "template doesn't specify a substructure for the given path" ])
         | _ => Raise (CortexException
                         [ context str_predictor_type predictor_type commonprefix;
                           "template doesn't specify a substructure for the given path" ])
         end
     | PValue _ => Raise AttributeError
     | PDict items =>
         keys <- sort_keys (dict_keys items) ;;
         visited <- match_level str_predictor_type predictor_type commonprefix keys paths
                      objects ;;
         descend (fun sub_pattern new_commonprefix =>
                    _validate_s3_model_paths cwd list_set str_predictor_type fuel
                      predictor_type sub_pattern s3_paths new_commonprefix)
           items keys objects commonprefix 0 visited
     end).
Proof. reflexivity. Qed.

(** One frame on paths and a prefix that are relative and never step up, and
    that leave the frame a single object: its paths and its objects. *)
Ltac enter_frame :=
  rewrite frame_eq;
  rewrite (level_paths_relative cwd) by reflexivity;
  match goal with
  | |- context [ level_paths "" ?l ?cp ] =>
      let r := eval vm_compute in (level_paths "" l cp) in
      change (level_paths "" l cp) with r
  end;
  cbn [bind]; unfold level_objects;
  match goal with
  | |- context [ mapM get_leftmost_part_of_path ?l ] =>
      let r := eval vm_compute in (mapM get_leftmost_part_of_path l) in
      change (mapM get_leftmost_part_of_path l) with r
  end;
  cbn [bind]; try rewrite (list_set_singleton _ _ list_set_enumerates).

(** C1. Scenario 1 on the code, in any process: the Python predictor, the one
    path ["models/a/1/model.pkl"] and the prefix ["models/a"]. The template
    in force asks for an object ["0model.onnx"] at the first level, so the
    call raises, under the context of the first frame. Were the shadowed
    first assignment in force, the call would end in an [AttributeError]: the
    value under Integer is a placeholder and not a dict. The scenario passes
    under neither. *)
Theorem scenario_1_python_single_path :
  validate_s3_model_paths cwd list_set str_predictor_type [ "models/a/1/model.pkl" ]
    PythonPredictorType "models/a"
  = Raise (CortexException
             [ context str_predictor_type PythonPredictorType "models/a";
               "generic placeholder for 0model.onnx wasn't found" ])
  /\ validate_with_template cwd list_set str_predictor_type model_template_shadowed
       [ "models/a/1/model.pkl" ] PythonPredictorType "models/a"
     = Raise AttributeError.
Proof.
  split.
  - rewrite validate_s3_model_paths_with_model_template.
    unfold validate_with_template.
    change (template_get model_template PythonPredictorType)
      with (Ok (PDict [ (IntegerPlaceholder, PNone);
                        (AnyPlaceholder, PNone);
                        (new_GenericPlaceholder "0model.onnx",
                          PDict [ (new_GenericPlaceholder "123", PNone);
                                  (IntegerPlaceholder, PNone) ]) ])).
    cbn [bind]. enter_frame. reflexivity.
  - unfold validate_with_template.
    change (template_get model_template_shadowed PythonPredictorType)
      with (Ok (PDict [ (IntegerPlaceholder, PValue AnyPlaceholder) ])).
    cbn [bind]. enter_frame.
    change (pattern_depth (PDict [ (IntegerPlaceholder, PValue AnyPlaceholder) ])) with 1.
    change (sort_keys (dict_keys [ (IntegerPlaceholder, PValue AnyPlaceholder) ]))
      with (Ok [ IntegerPlaceholder ]).
    cbn [bind].
    assert (Hlevel : match_level str_predictor_type PythonPredictorType "models/a"
                       [ IntegerPlaceholder ] [ "1/model.pkl" ] [ "1" ] = Ok [ VisitedBy 0 ]).
    { apply match_level_Ok. split; reflexivity. }
    rewrite Hlevel. cbn [bind descend].
    change (getitem [ "1" ] 0) with (Ok "1").
    change (getitem [ IntegerPlaceholder ] (key_index (VisitedBy 0))) with (Ok IntegerPlaceholder).
    cbn [bind].
    change (dict_get [ (IntegerPlaceholder, PValue AnyPlaceholder) ] IntegerPlaceholder)
      with (Ok (PValue AnyPlaceholder)).
    cbn [bind].
    change (os_path_join "models/a" "1") with "models/a/1".
    enter_frame. reflexivity.
Qed.

End Scenarios.

(** Scenario 1 in the process of [run_validate] *)
Lemma scenario_1_python_single_path_witness :
  enumerates_sets list_set_first_seen
  /\ run_validate [ "models/a/1/model.pkl" ] PythonPredictorType "models/a"
     = Raise (CortexException [ "python predictor at 'models/a'";
                                "generic placeholder for 0model.onnx wasn't found" ]).
Proof.
  split; [exact first_seen_enumerates_sets |].
  exact (proj1 (scenario_1_python_single_path root_cwd list_set_first_seen short_name
                  first_seen_enumerates_sets)).
Defined.

(** ** The message about unexpected paths *)

Lemma skipn_nth_error {A : Type} (l : list A) (idx : nat) (a : A) :
  nth_error l idx = Some a -> skipn idx l = a :: skipn (S idx) l.
Proof.
  revert idx. induction l as [| b l IH]; intros [| idx] H; simpl in *; try discriminate.
  - injection H as ->. reflexivity.
  - apply IH. exact H.
Qed.

Lemma unvisited_from_paths (paths : list string) (visited : list visit) (idx : nat) :
  idx + List.length visited <= List.length paths ->
  unvisited_from paths idx visited = Ok (paths_at_unvisited (skipn idx paths) visited).
Proof.
  unfold paths_at_unvisited. revert idx.
  induction visited as [| v visited IH]; intros idx H; cbn [unvisited_from].
  - destruct (skipn idx paths); reflexivity.
  - cbn [List.length] in H.
    destruct (getitem_Ok paths idx) as (p & Hget & Hnth); [lia |].
    rewrite (skipn_nth_error _ _ _ Hnth). cbn [combine filter snd].
    destruct (is_False v).
    + rewrite Hget. cbn [bind]. rewrite IH by lia. reflexivity.
    + apply IH. lia.
Qed.

Lemma paths_at_unvisited_nil (paths : list string) (visited : list visit) :
  List.length visited <= List.length paths ->
  all_visited visited = false -> paths_at_unvisited paths visited <> [].
Proof.
  unfold paths_at_unvisited. revert paths.
  induction visited as [| v visited IH]; intros paths Hlen Hall; [discriminate |].
  destruct paths as [| p paths]; [simpl in Hlen; lia |].
  cbn [combine filter snd]. simpl in Hall. destruct (is_False v); [discriminate |].
  apply IH; [simpl in Hlen; lia | exact Hall].
Qed.

Lemma list_set_three (list_set : list string -> list string) (l : list string)
  (a b c : string) :
  enumerates_sets list_set ->
  NoDup [ a; b; c ] -> (forall x, In x l <-> In x [ a; b; c ]) ->
  In (list_set l) [ [ a; b; c ]; [ a; c; b ]; [ b; a; c ]; [ b; c; a ]; [ c; a; b ]; [ c; b; a ] ].
Proof.
  intros Hset Hnd Hl. destruct (Hset l) as [Hnd' Hin].
  assert (Hperm : Permutation (list_set l) [ a; b; c ]).
  { apply NoDup_Permutation; [exact Hnd' | exact Hnd |].
    intros x. rewrite Hin. apply Hl. }
  pose proof (Permutation_length Hperm) as Hlen.
  destruct (list_set l) as [| x [| y [| z [| ? ?]]]]; try discriminate.
  assert (Hx : In x [ a; b; c ]) by (apply (Permutation_in _ Hperm); simpl; auto).
  assert (Hy : In y [ a; b; c ]) by (apply (Permutation_in _ Hperm); simpl; auto).
  assert (Hz : In z [ a; b; c ]) by (apply (Permutation_in _ Hperm); simpl; auto).
  inversion Hnd' as [| ? ? Hx' Hnd'']; subst. inversion Hnd'' as [| ? ? Hy' _]; subst.
  simpl in Hx, Hy, Hz, Hx', Hy'.
  destruct Hx as [<- | [<- | [<- | []]]]; destruct Hy as [<- | [<- | [<- | []]]];
    destruct Hz as [<- | [<- | [<- | []]]]; simpl; try tauto.
Qed.

Lemma unexpected_path_in_any_order (list_set : list string -> list string)
  (str_predictor_type : PredictorType -> string) :
  enumerates_sets list_set ->
  exists path,
    In path [ "123/a"; "123/b"; "5/c" ]
    /\ (objects <- level_objects list_set [ "123/a"; "123/b"; "5/c"; "x/d" ] ;;
        match_level str_predictor_type PythonPredictorType "p/0model.onnx"
          [ new_GenericPlaceholder "123"; IntegerPlaceholder ]
          [ "123/a"; "123/b"; "5/c"; "x/d" ] objects)
       = Raise (CortexException
                  [ model_context str_predictor_type PythonPredictorType "p/0model.onnx";
                    "unexpected path(s) for " ++ str_list [ path ] ]).
Proof.
  intros Hset. unfold level_objects.
  change (mapM get_leftmost_part_of_path [ "123/a"; "123/b"; "5/c"; "x/d" ])
    with (Ok [ "123"; "123"; "5"; "x" ]).
  cbn [bind].
  assert (Hnd : NoDup [ "123"; "5"; "x" ]).
  { repeat constructor; simpl; intuition discriminate. }
  assert (Hl : forall x, In x [ "123"; "123"; "5"; "x" ] <-> In x [ "123"; "5"; "x" ]).
  { intros x. simpl. tauto. }
  pose proof (list_set_three list_set _ _ _ _ Hset Hnd Hl) as Hcases.
  cbn [In] in Hcases.
  destruct Hcases as [<- | [<- | [<- | [<- | [<- | [<- | []]]]]]].
  - exists "5/c". split; [simpl; tauto | reflexivity].
  - exists "123/b". split; [simpl; tauto | reflexivity].
  - exists "5/c". split; [simpl; tauto | reflexivity].
  - exists "123/b". split; [simpl; tauto | reflexivity].
  - exists "123/a". split; [simpl; tauto | reflexivity].
  - exists "123/a". split; [simpl; tauto | reflexivity].
Qed.

(** C4 on the code. When an entry of [visited] is left unvisited, the frame
    does fail with the "unexpected path(s) for" error; but the list in the
    message is made of [paths[idx]] for the unvisited indices [idx] of the
    objects, that is of relative paths picked by the positions of the
    objects, and not of the unvisited objects. On a model whose directory
    ["0model.onnx"] holds the entries ["123"] (two files), ["5"] and the
    unexpected ["x"], the frame of that directory names one file of a claimed
    object in its message, whatever the order of its objects, and never
    ["x"] or ["x/d"]; in the process of [run_validate] it names ["5/c"]. *)
Theorem unexpected_paths_message :
  (forall str_predictor_type predictor_type commonprefix paths visited,
      List.length visited <= List.length paths ->
      all_visited visited = false ->
      paths_at_unvisited paths visited <> []
      /\ check_unvisited str_predictor_type predictor_type commonprefix paths visited
         = Raise (CortexException
                    [ model_context str_predictor_type predictor_type commonprefix;
                      "unexpected path(s) for " ++ str_list (paths_at_unvisited paths visited) ]))
  /\ (forall list_set str_predictor_type,
         enumerates_sets list_set ->
         exists path,
           In path [ "123/a"; "123/b"; "5/c" ]
           /\ (objects <- level_objects list_set [ "123/a"; "123/b"; "5/c"; "x/d" ] ;;
               match_level str_predictor_type PythonPredictorType "p/0model.onnx"
                 [ new_GenericPlaceholder "123"; IntegerPlaceholder ]
                 [ "123/a"; "123/b"; "5/c"; "x/d" ] objects)
              = Raise (CortexException
                         [ model_context str_predictor_type PythonPredictorType
                             "p/0model.onnx";
                           "unexpected path(s) for " ++ str_list [ path ] ]))
  /\ run_validate
       [ "p/1"; "p/0model.onnx/123/a"; "p/0model.onnx/123/b"; "p/0model.onnx/5/c";
         "p/0model.onnx/x/d" ] PythonPredictorType "p"
     = Raise (CortexException [ "python predictor model at 'p/0model.onnx'";
                                "unexpected path(s) for ['5/c']" ]).
Proof.
  split; [| split; [exact unexpected_path_in_any_order | vm_compute; reflexivity]].
  intros str_predictor_type predictor_type commonprefix paths visited Hlen Hall.
  pose proof (paths_at_unvisited_nil paths visited Hlen Hall) as Hne.
  split; [exact Hne |].
  unfold check_unvisited. rewrite (unvisited_from_paths paths visited 0) by exact Hlen.
  cbn [skipn bind]. destruct (paths_at_unvisited paths visited); [congruence | reflexivity].
Qed.

(** ** Paths outside the prefix *)

(** C7 on the code. A frame drops the relative paths that start with
    ["../"]. The path ["p"], the parent of the prefix ["p/q"], is relative
    to it [".."], which does not: in every process it stays among the paths
    of the frame and gives the frame the object [".."]. In the process of
    [run_validate] it turns a model that passes into one that fails, with an
    error about ["p/q/.."], while the path ["p/r"], a sibling of the prefix,
    is dropped. *)
Theorem parent_of_prefix_is_kept :
  (forall cwd list_set s3_paths paths objects,
      enumerates_sets list_set ->
      In "p" s3_paths ->
      level_paths cwd s3_paths "p/q" = Ok paths ->
      level_objects list_set paths = Ok objects ->
      In ".." paths /\ In ".." objects)
  /\ level_paths root_cwd
       [ "p/q/1"; "p/q/0model.onnx/123"; "p/q/0model.onnx/5"; "p"; "p/r" ] "p/q"
     = Ok [ "1"; "0model.onnx/123"; "0model.onnx/5"; ".." ]
  /\ level_objects list_set_first_seen [ "1"; "0model.onnx/123"; "0model.onnx/5"; ".." ]
     = Ok [ "1"; "0model.onnx"; ".." ]
  /\ run_validate [ "p/q/1"; "p/q/0model.onnx/123"; "p/q/0model.onnx/5" ]
       PythonPredictorType "p/q"
     = Ok tt
  /\ run_validate [ "p/q/1"; "p/q/0model.onnx/123"; "p/q/0model.onnx/5"; "p" ]
       PythonPredictorType "p/q"
     = Raise (CortexException
                [ "python predictor at 'p/q/..'";
                  "template doesn't specify a substructure for the given path" ]).
Proof.
  split; [| repeat split; vm_compute; reflexivity].
  intros cwd list_set s3_paths paths objects Hset Hin Hpaths Hobjects.
  assert (Hp : In ".." paths).
  { unfold level_paths in Hpaths.
    destruct (mapM (fun s3_path => relpath cwd s3_path "p/q") s3_paths) as [rels | |] eqn:Hm;
      cbn [bind] in Hpaths; try discriminate.
    injection Hpaths as <-.
    destruct (mapM_Ok_image _ _ _ _ Hm Hin) as (rel & Hrel & Hrels).
    rewrite (relpath_relative cwd "p" "p/q") in Hrel by reflexivity.
    vm_compute in Hrel. injection Hrel as <-.
    apply filter_In. split; [exact Hrels | reflexivity]. }
  split; [exact Hp |].
  unfold level_objects in Hobjects.
  destruct (mapM get_leftmost_part_of_path paths) as [objs | |] eqn:Hm;
    cbn [bind] in Hobjects; try discriminate.
  injection Hobjects as <-.
  destruct (mapM_Ok_image _ _ _ _ Hm Hp) as (obj & Hobj & Hobjs).
  vm_compute in Hobj. injection Hobj as <-.
  apply (Hset objs). exact Hobjs.
Qed.

(** ** Instances *)

(** The Integer rule alone on two numeric directories and a file *)
Lemma integer_sole_rule_witness :
  2 <= count_numeric [ "1"; "2"; "model.pkl" ]
  /\ match_level short_name PythonPredictorType "models/a" [ IntegerPlaceholder ]
       [ "1/a"; "2/b"; "model.pkl" ] [ "1"; "2"; "model.pkl" ]
     = Raise (CortexException [ "python predictor at 'models/a'";
                                "too many <integer> appearances in path" ]).
Proof.
  split; [vm_compute; lia |].
  apply (proj1 (proj2 (integer_sole_rule short_name PythonPredictorType "models/a"
                         [ "1/a"; "2/b"; "model.pkl" ] [ "1"; "2"; "model.pkl" ]))).
  vm_compute. lia.
Defined.

(** Scenario 1 on more fuel than the template needs *)
Lemma validate_s3_model_paths_terminates_witness :
  enough_fuel PythonPredictorType <= 7
  /\ validate_s3_model_paths_fuel root_cwd list_set_first_seen short_name 7
       [ "models/a/1/model.pkl" ] PythonPredictorType "models/a"
     = validate_s3_model_paths root_cwd list_set_first_seen short_name
         [ "models/a/1/model.pkl" ] PythonPredictorType "models/a".
Proof.
  split; [vm_compute; lia |].
  apply (proj2 (proj2 (proj2 (validate_s3_model_paths_terminates root_cwd list_set_first_seen
                                short_name [ "models/a/1/model.pkl" ] PythonPredictorType
                                "models/a")))).
  vm_compute. lia.
Defined.

(** ** Further properties of the code *)

(** X1. The loop of [get_leftmost_part_of_path] ends on every path that is
    not absolute, and on an absolute path it never ends, whatever the fuel. *)
Theorem get_leftmost_part_of_path_ends (path : string) :
  (isabs path = false -> exists basename, get_leftmost_part_of_path path = Ok basename)
  /\ (isabs path = true ->
      forall fuel basename, get_leftmost_loop fuel path basename = OutOfFuel).
Proof.
  split.
  - intros H. apply get_leftmost_loop_ends; [apply le_n | exact H].
  - intros H fuel basename. apply get_leftmost_loop_absolute. exact H.
Qed.

(** X3. The sort of the keys keeps the keys and puts them in ascending order
    of priority: a key that comes before another has a priority no
    greater. *)
Theorem sort_keys_sorts (l keys : list Placeholder) :
  sort_keys l = Ok keys ->
  Permutation keys l
  /\ forall pre k post k' p p',
       keys = (pre ++ k :: post)%list -> In k' pre ->
       priority_of k = Some p -> priority_of k' = Some p' -> (p' <= p)%Z.
Proof.
  intros H. split; [apply sort_keys_Permutation; exact H |].
  intros pre k post k' p p' -> Hin Hp Hp'.
  eapply sort_keys_before; eassumption.
Qed.

(** The keys of the first level of the Python template, sorted *)
Lemma sort_keys_sorts_witness :
  sort_keys [ IntegerPlaceholder; AnyPlaceholder; new_GenericPlaceholder "0model.onnx" ]
  = Ok [ new_GenericPlaceholder "0model.onnx"; IntegerPlaceholder; AnyPlaceholder ]
  /\ Permutation
       [ new_GenericPlaceholder "0model.onnx"; IntegerPlaceholder; AnyPlaceholder ]
       [ IntegerPlaceholder; AnyPlaceholder; new_GenericPlaceholder "0model.onnx" ].
Proof.
  split; [reflexivity |].
  apply (proj1 (sort_keys_sorts
                  [ IntegerPlaceholder; AnyPlaceholder; new_GenericPlaceholder "0model.onnx" ]
                  [ new_GenericPlaceholder "0model.onnx"; IntegerPlaceholder; AnyPlaceholder ]
                  eq_refl)).
Defined.

(** * More of the module *)

(** ** The leftmost part of a path *)

Lemma is_component_spec (s : string) :
  is_component s = true <-> s <> "" /\ mem_char sep s = false.
Proof.
  unfold is_component. rewrite andb_true_iff, !negb_true_iff, String.eqb_neq. tauto.
Qed.

Lemma rpartition_sep_no_sep (t : string) :
  mem_char sep t = false -> rpartition_sep t = ("", t).
Proof.
  induction t as [| c t IH]; cbn [mem_char rpartition_sep]; intros H; [reflexivity |].
  apply orb_false_iff in H. destruct H as [Hc Ht]. rewrite (IH Ht), Hc. reflexivity.
Qed.

Lemma rpartition_sep_app_sep (s t : string) :
  mem_char sep t = false -> rpartition_sep (s ++ String sep t) = (s ++ String sep "", t).
Proof.
  intros Ht. induction s as [| c s IH]; cbn [append rpartition_sep].
  - rewrite (rpartition_sep_no_sep t Ht), Ascii.eqb_refl. reflexivity.
  - rewrite IH. destruct (Ascii.eqb c sep); [reflexivity |].
    destruct s; reflexivity.
Qed.

Lemma rstrip_app_sep (s : string) : rstrip "/" (s ++ String sep "") = rstrip "/" s.
Proof.
  induction s as [| c s IH]; [reflexivity |].
  cbn [append rstrip]. rewrite IH. reflexivity.
Qed.

Lemma rstrip_no_trailing_sep (s : string) : endswith_char s sep = false -> rstrip "/" s = s.
Proof.
  induction s as [| c s IH]; [reflexivity |].
  destruct s as [| d s].
  - cbn [endswith_char rstrip mem_char]. intros H. rewrite Ascii.eqb_sym in H.
    unfold sep in H. rewrite H. reflexivity.
  - intros H. change (endswith_char (String c (String d s)) sep)
      with (endswith_char (String d s) sep) in H.
    specialize (IH H). cbn [rstrip] in *. rewrite IH. reflexivity.
Qed.

Lemma endswith_char_app_r (s t : string) (c : ascii) :
  t <> "" -> endswith_char (s ++ t) c = endswith_char t c.
Proof.
  intros Ht. induction s as [| d s IH]; [reflexivity |].
  cbn [append]. destruct (s ++ t) as [| e r] eqn:Hst.
  - destruct s; [simpl in Hst; congruence | discriminate].
  - rewrite <- IH. reflexivity.
Qed.

Lemma endswith_char_no_sep (s : string) : mem_char sep s = false -> endswith_char s sep = false.
Proof.
  induction s as [| c s IH]; [reflexivity |].
  cbn [mem_char]. intros H. apply orb_false_iff in H. destruct H as [Hc Hs].
  destruct s; [cbn [endswith_char]; exact Hc | apply IH; exact Hs].
Qed.

Lemma concat_snoc (comps : list string) (c last : string) :
  String.concat "/" ((c :: comps) ++ [ last ])%list
  = String.concat "/" (c :: comps) ++ String sep last.
Proof.
  revert c. induction comps as [| d comps IH]; intros c.
  - reflexivity.
  - change (String.concat "/" ((c :: d :: comps) ++ [ last ]))
      with (c ++ "/" ++ String.concat "/" ((d :: comps) ++ [ last ])).
    rewrite IH.
    change (String.concat "/" (c :: d :: comps)) with (c ++ "/" ++ String.concat "/" (d :: comps)).
    rewrite !string_app_assoc. reflexivity.
Qed.

Lemma concat_components (c : string) (comps : list string) :
  is_component c = true -> Forall (fun x => is_component x = true) comps ->
  String.concat "/" (c :: comps) <> ""
  /\ isabs (String.concat "/" (c :: comps)) = false
  /\ endswith_char (String.concat "/" (c :: comps)) sep = false.
Proof.
  intros Hc Hall. apply is_component_spec in Hc. destruct Hc as [Hne Hsep].
  assert (Habs : isabs (String.concat "/" (c :: comps)) = false)
    by (apply concat_not_absolute; assumption).
  split; [| split; [exact Habs |]].
  - destruct (concat_sep_head c comps) as [s ->]. destruct c; [congruence | discriminate].
  - clear Habs. revert c Hne Hsep. induction Hall as [| d comps Hd _ IH]; intros c Hne Hsep.
    + cbn [String.concat]. apply endswith_char_no_sep. exact Hsep.
    + change (String.concat "/" (c :: d :: comps))
        with (c ++ "/" ++ String.concat "/" (d :: comps)).
      apply is_component_spec in Hd. destruct Hd as [Hdne Hdsep].
      rewrite endswith_char_app_r.
      * rewrite (endswith_char_app_r "/").
        -- apply IH; assumption.
        -- destruct (concat_sep_head d comps) as [s ->]. destruct d; [congruence | discriminate].
      * discriminate.
Qed.

(** [os.path.split] takes the last component off a path made of components. *)
Lemma os_path_split_snoc (c : string) (comps : list string) (last : string) :
  is_component c = true -> Forall (fun x => is_component x = true) comps ->
  is_component last = true ->
  os_path_split (String.concat "/" ((c :: comps) ++ [ last ])%list)
  = (String.concat "/" (c :: comps), last).
Proof.
  intros Hc Hall Hlast. rewrite concat_snoc.
  destruct (concat_components c comps Hc Hall) as (Hne & Habs & Hend).
  apply is_component_spec in Hlast. destruct Hlast as [_ Hlsep].
  unfold os_path_split. rewrite (rpartition_sep_app_sep _ _ Hlsep).
  remember (String.concat "/" (c :: comps)) as s eqn:Hs.
  destruct s as [| a s]; [congruence |].
  cbn [append]. cbn [all_chars].
  unfold isabs in Habs. rewrite startswith_sep_cons in Habs.
  rewrite Ascii.eqb_sym, Habs. cbn [andb].
  change (String a (s ++ String sep "")) with (String a s ++ String sep "").
  rewrite rstrip_app_sep, (rstrip_no_trailing_sep _ Hend). reflexivity.
Qed.

Lemma os_path_split_component (c : string) :
  is_component c = true -> os_path_split c = ("", c).
Proof.
  intros Hc. apply is_component_spec in Hc. destruct Hc as [_ Hsep].
  unfold os_path_split. rewrite (rpartition_sep_no_sep c Hsep). reflexivity.
Qed.

Lemma get_leftmost_loop_components (comps : list string) (c : string) (fuel : nat)
  (basename : string) :
  is_component c = true -> Forall (fun x => is_component x = true) comps ->
  List.length comps < fuel ->
  get_leftmost_loop fuel (String.concat "/" (c :: comps)) basename = Ok c.
Proof.
  intros Hc. revert fuel basename.
  induction comps as [| last comps IH] using rev_ind; intros fuel basename Hall Hfuel.
  - destruct fuel as [| fuel]; [simpl in Hfuel; lia |].
    cbn [String.concat]. pose proof Hc as Hc'. apply is_component_spec in Hc'.
    destruct c as [| a c]; [destruct Hc'; congruence |].
    cbn [get_leftmost_loop]. rewrite (os_path_split_component _ Hc).
    destruct fuel; reflexivity.
  - apply Forall_app in Hall. destruct Hall as [Hall Hlast].
    inversion Hlast as [| ? ? Hl _]; subst.
    rewrite length_app in Hfuel. cbn [List.length] in Hfuel.
    destruct fuel as [| fuel]; [lia |].
    change (c :: (comps ++ [ last ])%list) with ((c :: comps) ++ [ last ])%list.
    destruct (concat_components c (comps ++ [ last ])%list Hc
                (proj2 (Forall_app _ _ _) (conj Hall Hlast))) as (Hne & _ & _).
    change (c :: (comps ++ [ last ])%list) with ((c :: comps) ++ [ last ])%list in Hne.
    destruct (String.concat "/" ((c :: comps) ++ [ last ])%list) as [| a s] eqn:Hs; [congruence |].
    cbn [get_leftmost_loop]. rewrite <- Hs, (os_path_split_snoc c comps last Hc Hall Hl).
    apply IH; [exact Hall | lia].
Qed.

Lemma concat_length_components (c : string) (comps : list string) :
  is_component c = true -> Forall (fun x => is_component x = true) comps ->
  List.length comps < String.length (String.concat "/" (c :: comps)).
Proof.
  intros Hc Hall. revert c Hc. induction Hall as [| d comps Hd _ IH]; intros c Hc.
  - cbn [String.concat List.length]. apply is_component_spec in Hc.
    destruct c; [destruct Hc; congruence | simpl; lia].
  - change (String.concat "/" (c :: d :: comps))
      with (c ++ "/" ++ String.concat "/" (d :: comps)).
    rewrite !string_length_app. specialize (IH d Hd).
    change (String.length "/") with 1. cbn [List.length]. lia.
Qed.

(** On a path made of components the loop returns the first one. *)
Lemma get_leftmost_of_components (c : string) (comps : list string) :
  is_component c = true -> Forall (fun x => is_component x = true) comps ->
  get_leftmost_part_of_path (String.concat "/" (c :: comps)) = Ok c.
Proof.
  intros Hc Hall. unfold get_leftmost_part_of_path.
  apply get_leftmost_loop_components; [exact Hc | exact Hall |].
  apply concat_length_components; assumption.
Qed.

(** X4. On a path made of components joined by the separator,
    [get_leftmost_part_of_path] returns, and what it returns is the first
    component. *)
Theorem get_leftmost_part_of_path_first (c : string) (comps : list string) :
  is_component c = true -> Forall (fun x => is_component x = true) comps ->
  get_leftmost_part_of_path (String.concat "/" (c :: comps)) = Ok c.
Proof.
  intros Hc Hall. unfold get_leftmost_part_of_path.
  apply get_leftmost_loop_components; [exact Hc | exact Hall |].
  apply concat_length_components; assumption.
Qed.

(** The first of the three components of a key of a model *)
Lemma get_leftmost_part_of_path_first_witness :
  (is_component "1" = true
   /\ Forall (fun x => is_component x = true) [ "variables"; "variables.index" ])
  /\ get_leftmost_part_of_path "1/variables/variables.index" = Ok "1".
Proof.
  assert (H : is_component "1" = true
              /\ Forall (fun x => is_component x = true) [ "variables"; "variables.index" ]).
  { split; [reflexivity | repeat constructor]. }
  split; [exact H |].
  exact (get_leftmost_part_of_path_first "1" [ "variables"; "variables.index" ]
           (proj1 H) (proj2 H)).
Defined.

(** ** The paths and the objects of a frame *)

Lemma is_name_component (s : string) : is_name s = true -> is_component s = true.
Proof.
  unfold is_name. intros H. apply andb_true_iff in H. destruct H as [H _].
  apply andb_true_iff in H. destruct H as [H _]. exact H.
Qed.

Lemma norm_step_In_name (stack : list string) (comp c : string) :
  In c (norm_step stack comp) ->
  In c stack \/ (c = comp /\ c <> "" /\ c <> "." /\ c <> "..").
Proof.
  unfold norm_step.
  destruct (String.eqb_spec comp "") as [-> | Hne]; cbn [orb]; [auto |].
  destruct (String.eqb_spec comp ".") as [-> | Hdot]; [auto |].
  destruct (String.eqb_spec comp "..") as [-> | Hdd].
  - intros H. left. destruct stack; simpl in H; [destruct H | right; exact H].
  - intros [<- | H]; [right; repeat split; assumption | left; exact H].
Qed.

Lemma fold_norm_step_In_name (comps stack : list string) (c : string) :
  In c (fold_left norm_step comps stack) ->
  In c stack \/ (In c comps /\ c <> "" /\ c <> "." /\ c <> "..").
Proof.
  revert stack. induction comps as [| comp comps IH]; simpl; intros stack H; [auto |].
  destruct (IH _ H) as [H1 | (H1 & H2)].
  - destruct (norm_step_In_name _ _ _ H1) as [H3 | (-> & H3)]; auto.
  - auto.
Qed.

(** The components of a normalized path are names. *)
Lemma normalize_split_names (p c : string) :
  In c (normalize (str_split p)) -> is_name c = true.
Proof.
  unfold normalize. intros H. apply in_rev in H.
  destruct (fold_norm_step_In_name _ _ _ H) as [[] | (Hin & Hne & Hdot & Hdd)].
  unfold is_name, is_component.
  rewrite (str_split_no_sep _ _ Hin).
  apply String.eqb_neq in Hne, Hdot, Hdd. rewrite Hne, Hdot, Hdd. reflexivity.
Qed.

Lemma startswith_app (pre s : string) : startswith (pre ++ s) pre = true.
Proof.
  unfold startswith. induction pre as [| a pre IH]; [destruct s; reflexivity |].
  change (String.prefix (String a pre) (String a pre ++ s))
    with (if ascii_dec a a then String.prefix pre (pre ++ s) else false).
  destruct (ascii_dec a a); [exact IH | congruence].
Qed.

Lemma repeat_dotdot_split (k : nat) (tail : list string) :
  (repeat ".." k ++ tail)%list = tail
  \/ (repeat ".." k ++ tail)%list = [ ".." ]
  \/ exists x rest, (repeat ".." k ++ tail)%list = ".." :: x :: rest.
Proof.
  destruct k as [| k]; [left; reflexivity |]. right. cbn [repeat app].
  destruct (repeat ".." k ++ tail)%list as [| x rest]; [left | right; exists x, rest]; reflexivity.
Qed.

Section Frames.

Variable cwd : string.
Variable list_set : list string -> list string.
Variable str_predictor_type : PredictorType -> string.

(** A relative path that a frame keeps is the prefix itself, its parent, or
    made of components of which the first is a name. *)
Lemma relpath_kept_shape (path start rel : string) :
  relpath cwd path start = Ok rel -> startswith rel "../" = false ->
  rel = "." \/ rel = ".."
  \/ exists c comps,
       is_name c = true /\ Forall (fun x => is_component x = true) comps
       /\ rel = String.concat "/" (c :: comps).
Proof.
  unfold relpath. destruct (String.eqb path ""); [discriminate |].
  unfold rel_list.
  set (i := List.length (commonprefix_list (abspath_list cwd start) (abspath_list cwd path))).
  set (k := List.length (abspath_list cwd start) - i).
  assert (Htail : forall c, In c (skipn i (abspath_list cwd path)) -> is_name c = true).
  { intros c Hc. apply skipn_In in Hc. unfold abspath_list in Hc.
    eapply normalize_split_names. exact Hc. }
  destruct (repeat_dotdot_split k (skipn i (abspath_list cwd path))) as [-> | [-> | (x & rest & ->)]].
  - destruct (skipn i (abspath_list cwd path)) as [| c comps].
    + intros H _. injection H as <-. left. reflexivity.
    + intros H _. injection H as <-. right. right. exists c, comps.
      split; [apply Htail; left; reflexivity |]. split; [| reflexivity].
      apply Forall_forall. intros y Hy. apply is_name_component. apply Htail. right. exact Hy.
  - intros H _. injection H as <-. right. left. reflexivity.
  - intros H Hkept. injection H as <-. exfalso.
    assert (Hup : forall s, startswith (String "." (String "." (String "/" s))) "../" = true)
      by (intros s; exact (startswith_app "../" s)).
    cbn [String.concat append] in Hkept. rewrite Hup in Hkept. discriminate.
Qed.

Lemma level_paths_In (s3_paths : list string) (commonprefix : string) (paths : list string)
  (path : string) :
  level_paths cwd s3_paths commonprefix = Ok paths -> In path paths ->
  exists s3_path,
    In s3_path s3_paths /\ relpath cwd s3_path commonprefix = Ok path
    /\ startswith path "../" = false.
Proof.
  unfold level_paths. intros H Hin.
  destruct (mapM (fun s3_path => relpath cwd s3_path commonprefix) s3_paths) as [rels | |] eqn:Hm;
    cbn [bind] in H; try discriminate.
  injection H as <-. apply filter_In in Hin. destruct Hin as [Hin Hkept].
  apply negb_true_iff in Hkept.
  destruct (mapM_Ok_In _ _ _ Hm _ Hin) as (s3_path & Hs3 & Hrel).
  exists s3_path. repeat split; assumption.
Qed.

(** What [get_leftmost_part_of_path] makes of a path that a frame keeps. *)
Lemma leftmost_of_kept (s3_paths : list string) (commonprefix : string) (paths : list string)
  (path : string) :
  level_paths cwd s3_paths commonprefix = Ok paths -> In path paths ->
  exists obj,
    get_leftmost_part_of_path path = Ok obj
    /\ ((path = "." /\ obj = ".") \/ (path = ".." /\ obj = "..") \/ is_name obj = true).
Proof.
  intros Hpaths Hin.
  destruct (level_paths_In _ _ _ _ Hpaths Hin) as (s3_path & _ & Hrel & Hkept).
  destruct (relpath_kept_shape _ _ _ Hrel Hkept) as [-> | [-> | (c & comps & Hc & Hall & ->)]].
  - exists ".". split; [reflexivity | left; split; reflexivity].
  - exists "..". split; [reflexivity | right; left; split; reflexivity].
  - exists c. split; [| right; right; exact Hc].
    apply get_leftmost_of_components; [apply is_name_component; exact Hc | exact Hall].
Qed.

End Frames.

(** X5. The objects of a frame. Whatever the paths and the prefix, and
    whatever the order sets are enumerated in, every object of a frame is the
    name of a file or of a directory (not empty, without a separator, neither
    ["."] nor [".."]), or is ["."], which it is only when a path is the prefix
    itself, or is [".."], which it is only when a path is the parent of the
    prefix. *)
Theorem level_objects_shape (cwd : string) (list_set : list string -> list string)
  (s3_paths : list string) (commonprefix : string) (paths objects : list string) :
  enumerates_sets list_set ->
  level_paths cwd s3_paths commonprefix = Ok paths ->
  level_objects list_set paths = Ok objects ->
  forall obj,
    In obj objects ->
    (obj = "." /\ In "." paths) \/ (obj = ".." /\ In ".." paths) \/ is_name obj = true.
Proof.
  intros Hset Hpaths Hobjects obj Hobj. unfold level_objects in Hobjects.
  destruct (mapM get_leftmost_part_of_path paths) as [raw | |] eqn:Hm;
    cbn [bind] in Hobjects; try discriminate.
  injection Hobjects as <-. apply (Hset raw) in Hobj.
  destruct (mapM_Ok_In _ _ _ Hm _ Hobj) as (path & Hin & Hleft).
  destruct (leftmost_of_kept cwd _ _ _ _ Hpaths Hin) as (obj' & Hleft' & Hshape).
  rewrite Hleft in Hleft'. injection Hleft' as <-.
  destruct Hshape as [[-> ->] | [[-> ->] | Hname]].
  - left. split; [reflexivity | exact Hin].
  - right. left. split; [reflexivity | exact Hin].
  - right. right. exact Hname.
Qed.

(** The objects of the frame of C7: two names and the parent of the prefix *)
Lemma level_objects_shape_witness :
  (enumerates_sets list_set_first_seen
   /\ level_paths root_cwd [ "p/q/1"; "p/q/0model.onnx/123"; "p"; "p/r" ] "p/q"
      = Ok [ "1"; "0model.onnx/123"; ".." ]
   /\ level_objects list_set_first_seen [ "1"; "0model.onnx/123"; ".." ]
      = Ok [ "1"; "0model.onnx"; ".." ])
  /\ (("0model.onnx" = "." /\ In "." [ "1"; "0model.onnx/123"; ".." ])
      \/ ("0model.onnx" = ".." /\ In ".." [ "1"; "0model.onnx/123"; ".." ])
      \/ is_name "0model.onnx" = true).
Proof.
  assert (H : enumerates_sets list_set_first_seen
              /\ level_paths root_cwd [ "p/q/1"; "p/q/0model.onnx/123"; "p"; "p/r" ] "p/q"
                 = Ok [ "1"; "0model.onnx/123"; ".." ]
              /\ level_objects list_set_first_seen [ "1"; "0model.onnx/123"; ".." ]
                 = Ok [ "1"; "0model.onnx"; ".." ]).
  { split; [exact first_seen_enumerates_sets | split; vm_compute; reflexivity]. }
  split; [exact H |].
  apply (level_objects_shape root_cwd list_set_first_seen
           [ "p/q/1"; "p/q/0model.onnx/123"; "p"; "p/r" ] "p/q"
           [ "1"; "0model.onnx/123"; ".." ] [ "1"; "0model.onnx"; ".." ]
           (proj1 H) (proj1 (proj2 H)) (proj2 (proj2 H)) "0model.onnx").
  simpl. tauto.
Defined.

(** ** The frame of a leaf *)

Lemma list_set_all_equal (list_set : list string -> list string) (l : list string)
  (x : string) :
  enumerates_sets list_set -> l <> [] -> (forall y, In y l -> y = x) -> list_set l = [ x ].
Proof.
  intros Hset Hne Hall. destruct (Hset l) as [Hnd Hin].
  assert (Hall' : forall y, In y (list_set l) -> y = x).
  { intros y Hy. apply Hall. apply Hin. exact Hy. }
  assert (Hx : In x (list_set l)).
  { apply Hin. destruct l as [| a l]; [congruence |]. left. apply Hall. left. reflexivity. }
  destruct (list_set l) as [| a [| b r]].
  - destruct Hx.
  - rewrite (Hall' a) by (left; reflexivity). reflexivity.
  - exfalso. inversion Hnd as [| ? ? Hna _]. apply Hna.
    rewrite (Hall' a) by (left; reflexivity).
    rewrite (Hall' b) by (right; left; reflexivity). left. reflexivity.
Qed.

Section Leaf.

Variable cwd : string.
Variable list_set : list string -> list string.
Variable str_predictor_type : PredictorType -> string.
Hypothesis list_set_enumerates : enumerates_sets list_set.

Lemma leaf_objects (s3_paths : list string) (commonprefix : string) (paths : list string) :
  level_paths cwd s3_paths commonprefix = Ok paths ->
  exists objects,
    level_objects list_set paths = Ok objects
    /\ (objects = [ "." ] <-> paths <> [] /\ forall path, In path paths -> path = ".").
Proof.
  intros Hpaths. unfold level_objects.
  assert (Hfin : finished (mapM get_leftmost_part_of_path paths)).
  { apply finished_mapM. intros p Hp. apply get_leftmost_finished.
    eapply level_paths_not_absolute; eassumption. }
  destruct (mapM get_leftmost_part_of_path paths) as [raw | e |] eqn:Hm;
    [| apply mapM_Raise in Hm; destruct Hm as (p & _ & Hp);
       exfalso; eapply get_leftmost_loop_no_Raise; exact Hp
     | exfalso; apply Hfin; reflexivity].
  cbn [bind]. eexists. split; [reflexivity |].
  assert (Hdot : forall path obj,
             In path paths -> get_leftmost_part_of_path path = Ok obj ->
             (obj = "." <-> path = ".")).
  { intros path obj Hin Hleft.
    destruct (leftmost_of_kept cwd _ _ _ _ Hpaths Hin) as (obj' & Hleft' & Hshape).
    rewrite Hleft in Hleft'. injection Hleft' as <-.
    destruct Hshape as [[-> ->] | [[-> ->] | Hname]].
    - tauto.
    - split; discriminate.
    - split.
      + intros ->. discriminate.
      + intros ->. vm_compute in Hleft. injection Hleft as <-. discriminate. }
  split.
  - intros Hobj. split.
    + intros ->. simpl in Hm. injection Hm as <-.
      destruct (list_set_enumerates []) as [_ Hin].
      assert (Hx : In "." (list_set [])) by (rewrite Hobj; left; reflexivity).
      apply Hin in Hx. destruct Hx.
    + intros path Hin.
      destruct (mapM_Ok_image _ _ _ _ Hm Hin) as (obj & Hleft & Hobjin).
      apply (Hdot path obj Hin Hleft).
      apply (list_set_enumerates raw) in Hobjin. rewrite Hobj in Hobjin.
      destruct Hobjin as [<- | []]. reflexivity.
  - intros [Hne Hall]. apply list_set_all_equal; [exact list_set_enumerates | |].
    + intros ->. destruct paths as [| p paths]; [congruence |].
      simpl in Hm. destruct (get_leftmost_part_of_path p); cbn [bind] in Hm; try discriminate.
      destruct (mapM get_leftmost_part_of_path paths); discriminate.
    + intros obj Hobj. destruct (mapM_Ok_In _ _ _ Hm _ Hobj) as (path & Hin & Hleft).
      apply (Hdot path obj Hin Hleft). apply Hall. exact Hin.
Qed.

(** X6. The frame of a leaf of the template (the value [None]), when no path
    is the empty string. It returns if and only if the frame keeps at least
    one path and every path it keeps is the prefix itself; in any other case
    it raises the error about a substructure that the template does not
    specify. So a leaf accepts a path that ends at it, and refuses a
    directory that holds anything. *)
Theorem leaf_frame (fuel : nat) (predictor_type : PredictorType) (s3_paths : list string)
  (commonprefix : string) (paths : list string) :
  level_paths cwd s3_paths commonprefix = Ok paths ->
  (_validate_s3_model_paths cwd list_set str_predictor_type (S fuel) predictor_type PNone
     s3_paths commonprefix = Ok tt
   <-> paths <> [] /\ forall path, In path paths -> path = ".")
  /\ (_validate_s3_model_paths cwd list_set str_predictor_type (S fuel) predictor_type PNone
        s3_paths commonprefix = Ok tt
      \/ _validate_s3_model_paths cwd list_set str_predictor_type (S fuel) predictor_type
           PNone s3_paths commonprefix
         = Raise (CortexException
                    [ context str_predictor_type predictor_type commonprefix;
                      "template doesn't specify a substructure for the given path" ])).
Proof.
  intros Hpaths. cbn [_validate_s3_model_paths]. rewrite Hpaths. cbn [bind].
  destruct (leaf_objects _ _ _ Hpaths) as (objects & -> & Hiff). cbn [bind].
  rewrite <- Hiff. split.
  - split.
    + destruct objects as [| obj [| ? ?]]; try discriminate.
      destruct (String.eqb_spec obj ".") as [-> | Hne]; [reflexivity | discriminate].
    + intros ->. reflexivity.
  - destruct objects as [| obj [| ? ?]]; try (right; reflexivity).
    destruct (String.eqb obj "."); [left | right]; reflexivity.
Qed.

End Leaf.

(** The frame of a leaf at a file, beside a directory that is not its own *)
Lemma leaf_frame_witness :
  (enumerates_sets list_set_first_seen
   /\ level_paths root_cwd [ "p/1"; "p/2/x" ] "p/1" = Ok [ "." ])
  /\ _validate_s3_model_paths root_cwd list_set_first_seen short_name 1 PythonPredictorType
       PNone [ "p/1"; "p/2/x" ] "p/1" = Ok tt.
Proof.
  assert (H : enumerates_sets list_set_first_seen
              /\ level_paths root_cwd [ "p/1"; "p/2/x" ] "p/1" = Ok [ "." ]).
  { split; [exact first_seen_enumerates_sets | vm_compute; reflexivity]. }
  split; [exact H |].
  apply (proj2 (proj1 (leaf_frame root_cwd list_set_first_seen short_name (proj1 H) 0
                         PythonPredictorType [ "p/1"; "p/2/x" ] "p/1" [ "." ] (proj2 H)))).
  split; [discriminate |]. intros path [<- | []]. reflexivity.
Defined.

(** ** Paths that play no part, and the empty path *)

Lemma mapM_app {A B : Type} (f : A -> result B) (l1 l2 : list A) :
  mapM f (l1 ++ l2)
  = (bs1 <- mapM f l1 ;; bs2 <- mapM f l2 ;; Ok (bs1 ++ bs2)%list).
Proof.
  induction l1 as [| a l1 IH]; cbn [app mapM].
  - cbn [bind]. destruct (mapM f l2); reflexivity.
  - destruct (f a) as [b | |]; cbn [bind]; try reflexivity.
    rewrite IH. destruct (mapM f l1) as [bs1 | |]; cbn [bind]; try reflexivity.
    destruct (mapM f l2); reflexivity.
Qed.

Lemma level_paths_empty_path (cwd : string) (s3_paths : list string) (commonprefix : string) :
  In "" s3_paths -> level_paths cwd s3_paths commonprefix = Raise ValueError.
Proof.
  intros Hin.
  destruct (level_paths cwd s3_paths commonprefix) as [paths | e |] eqn:Hl.
  - unfold level_paths in Hl.
    destruct (mapM (fun s3_path => relpath cwd s3_path commonprefix) s3_paths)
      as [rels | |] eqn:Hm; cbn [bind] in Hl; try discriminate.
    destruct (mapM_Ok_image _ _ _ _ Hm Hin) as (rel & Hrel & _). discriminate.
  - apply level_paths_Raise in Hl. subst e. reflexivity.
  - exfalso. apply (level_paths_finished cwd s3_paths commonprefix). exact Hl.
Qed.

(** X7. A path whose form relative to the prefix starts with ["../"] plays no
    part at the level of a frame: wherever it stands among the paths, the
    frame keeps the same relative paths with it as without it. *)
Theorem level_paths_drops_outside (cwd : string) (before after : list string)
  (s3_path commonprefix rel : string) :
  relpath cwd s3_path commonprefix = Ok rel -> startswith rel "../" = true ->
  level_paths cwd (before ++ s3_path :: after) commonprefix
  = level_paths cwd (before ++ after) commonprefix.
Proof.
  intros Hrel Hout. unfold level_paths. rewrite !mapM_app. cbn [mapM]. rewrite Hrel.
  destruct (mapM (fun p => relpath cwd p commonprefix) before) as [bs1 | |]; cbn [bind];
    try reflexivity.
  destruct (mapM (fun p => relpath cwd p commonprefix) after) as [bs2 | |]; cbn [bind];
    try reflexivity.
  rewrite !filter_app. cbn [filter]. rewrite Hout. reflexivity.
Qed.

(** A sibling of the prefix among the keys of a model *)
Lemma level_paths_drops_outside_witness :
  (relpath root_cwd "p/r/2" "p/q" = Ok "../r/2" /\ startswith "../r/2" "../" = true)
  /\ level_paths root_cwd ([ "p/q/1" ] ++ "p/r/2" :: [ "p/q/3" ]) "p/q"
     = level_paths root_cwd ([ "p/q/1" ] ++ [ "p/q/3" ]) "p/q".
Proof.
  assert (H : relpath root_cwd "p/r/2" "p/q" = Ok "../r/2"
              /\ startswith "../r/2" "../" = true).
  { split; vm_compute; reflexivity. }
  split; [exact H |].
  exact (level_paths_drops_outside root_cwd [ "p/q/1" ] [ "p/q/3" ] "p/r/2" "p/q" "../r/2"
           (proj1 H) (proj2 H)).
Defined.

(** X8. An empty string among the paths makes every frame that runs raise a
    [ValueError], the one of [os.path.relpath], whatever the template, the
    prefix and the other paths; and so does [validate_s3_model_paths] for the
    Python predictor. *)
Theorem empty_path_raises_ValueError (cwd : string) (list_set : list string -> list string)
  (str_predictor_type : PredictorType -> string) (s3_paths : list string)
  (commonprefix : string) :
  In "" s3_paths ->
  (forall fuel predictor_type pattern,
      _validate_s3_model_paths cwd list_set str_predictor_type (S fuel) predictor_type pattern
        s3_paths commonprefix = Raise ValueError)
  /\ validate_s3_model_paths cwd list_set str_predictor_type s3_paths PythonPredictorType
       commonprefix = Raise ValueError.
Proof.
  intros Hin.
  assert (Hframe : forall fuel predictor_type pattern,
             _validate_s3_model_paths cwd list_set str_predictor_type (S fuel) predictor_type
               pattern s3_paths commonprefix = Raise ValueError).
  { intros fuel predictor_type pattern. cbn [_validate_s3_model_paths].
    rewrite (level_paths_empty_path cwd s3_paths commonprefix Hin). reflexivity. }
  split; [exact Hframe |].
  unfold validate_s3_model_paths, validate_s3_model_paths_fuel.
  destruct s3_paths as [| p s3_paths]; [destruct Hin |].
  change (enough_fuel PythonPredictorType) with 3.
  change (single_model_pattern PythonPredictorType)
    with (Ok (PDict [ (IntegerPlaceholder, PNone);
                      (AnyPlaceholder, PNone);
                      (new_GenericPlaceholder "0model.onnx",
                        PDict [ (new_GenericPlaceholder "123", PNone);
                                (IntegerPlaceholder, PNone) ]) ])).
  cbn [bind]. apply Hframe.
Qed.

(** A listing with an empty key *)
Lemma empty_path_raises_ValueError_witness :
  In "" [ "p/1"; "" ]
  /\ run_validate [ "p/1"; "" ] PythonPredictorType "p" = Raise ValueError.
Proof.
  assert (H : In "" [ "p/1"; "" ]) by (right; left; reflexivity).
  split; [exact H |].
  exact (proj2 (empty_path_raises_ValueError root_cwd list_set_first_seen short_name
                  [ "p/1"; "" ] "p" H)).
Defined.

(** ** What the rules do to the array *)

Lemma claimed_between_refl (lo hi : nat) (visited : list visit) :
  claimed_between lo hi visited visited.
Proof. split; [reflexivity | intros idx; left; reflexivity]. Qed.

Lemma claimed_between_trans (a b c d : nat) (v1 v2 v3 : list visit) :
  claimed_between a b v1 v2 -> claimed_between c d v2 v3 -> a <= c -> b <= d ->
  claimed_between a d v1 v3.
Proof.
  intros [Hl1 H1] [Hl2 H2] Hac Hbd. split; [congruence |].
  intros idx. destruct (H2 idx) as [He2 | (Hn2 & k & Hk & Hv3)].
  - destruct (H1 idx) as [He1 | (Hn1 & k & Hk & Hv2)].
    + left. congruence.
    + right. split; [exact Hn1 |]. exists k. split; [lia | congruence].
  - destruct (H1 idx) as [He1 | (Hn1 & k' & Hk' & Hv2)].
    + right. split; [congruence |]. exists k. split; [lia | exact Hv3].
    + congruence.
Qed.

Lemma claimed_between_update (key_id : nat) (visited : list visit) (idx : nat) :
  nth_error visited idx = Some NotVisited ->
  claimed_between key_id (S key_id) visited (list_update visited idx (VisitedBy key_id)).
Proof.
  intros Hidx. split; [apply list_update_length |].
  intros j. destruct (Nat.eq_dec j idx) as [-> | Hj].
  - right. split; [exact Hidx |]. exists key_id. split; [lia |].
    apply list_update_same. apply nth_error_Some. congruence.
  - left. apply list_update_other. exact Hj.
Qed.

Lemma getitem_nth_error {A : Type} (l : list A) (idx : nat) (a : A) :
  getitem l idx = Ok a -> nth_error l idx = Some a.
Proof. unfold getitem. destruct (nth_error l idx); [congruence | discriminate]. Qed.

Lemma is_False_NotVisited (v : visit) : is_False v = true -> v = NotVisited.
Proof. destruct v; [reflexivity | discriminate]. Qed.

Lemma integer_loop_claims (key_id : nat) (objects : list string) (idx : nat)
  (visited visited' : list visit) (appearances appearances' : nat) :
  integer_loop key_id idx objects visited appearances = Ok (visited', appearances') ->
  claimed_between key_id (S key_id) visited visited'.
Proof.
  revert idx visited appearances.
  induction objects as [| obj objects IH]; intros idx visited appearances; cbn [integer_loop].
  - intros H. injection H as <- _. apply claimed_between_refl.
  - destruct (isnumeric obj); [| apply IH].
    destruct (getitem visited idx) as [v | |] eqn:Hget; cbn [bind]; try discriminate.
    destruct (is_False v) eqn:Hv; [| apply IH].
    intros H. apply IH in H. apply getitem_nth_error in Hget.
    apply is_False_NotVisited in Hv. subst v.
    eapply claimed_between_trans;
      [apply claimed_between_update; exact Hget | exact H | apply le_n | apply le_n].
Qed.

Lemma any_claims (key_id : nat) (visited : list visit) :
  claimed_between key_id (S key_id) visited
    (map (fun v => if is_False v then VisitedBy key_id else v) visited).
Proof.
  split; [apply length_map |]. intros idx. rewrite nth_error_map.
  destruct (nth_error visited idx) as [[| k] |]; cbn [option_map is_False].
  - right. split; [reflexivity |]. exists key_id. split; [lia | reflexivity].
  - left. reflexivity.
  - left. reflexivity.
Qed.

(** A rule that returns has only claimed: it has left every entry as it was,
    or made an unvisited one its own. *)
Lemma validate_key_claims (keys : list Placeholder) (key_id : nat) (key : Placeholder)
  (objects : list string) (visited visited' : list visit) :
  validate_key keys key_id key objects visited = Ok visited' ->
  claimed_between key_id (S key_id) visited visited'.
Proof.
  unfold validate_key.
  destruct (placeholder_eq key IntegerPlaceholder).
  { unfold validate_integer_placeholder.
    destruct (integer_loop key_id 0 objects visited 0) as [[v a] | |] eqn:Hl; cbn [bind];
      try discriminate.
    destruct ((1 <? a)%nat && (List.length keys =? 1)%nat); [discriminate |].
    destruct (a =? 0)%nat; [discriminate |].
    intros H. injection H as <-. eapply integer_loop_claims. exact Hl. }
  destruct (placeholder_eq key AnyPlaceholder).
  { unfold validate_any_placeholder. intros H. injection H as <-. apply any_claims. }
  destruct (placeholder_eq key SinglePlaceholder).
  { unfold validate_single_placeholder.
    destruct ((1 <? List.length keys)%nat || (1 <? List.length objects)%nat); [discriminate |].
    destruct visited as [| [| k] visited]; intros H; injection H as <-;
      try apply claimed_between_refl.
    apply (claimed_between_update key_id (NotVisited :: visited) 0). reflexivity. }
  destruct (placeholder_eq key (new_GenericPlaceholder "")).
  { intros H. apply validate_generic_placeholder_Ok in H.
    destruct H as (idx & v & _ & Hv & ->).
    destruct (is_False v) eqn:Hf; [| apply claimed_between_refl].
    apply is_False_NotVisited in Hf. subst v. apply claimed_between_update. exact Hv. }
  destruct (is_PlaceholderGroup key).
  { unfold validate_group_placeholder. intros H. injection H as <-.
    apply claimed_between_refl. }
  destruct (placeholder_eq key ExclAlternativePlaceholder); [| discriminate].
  unfold validate_exclusive_placeholder. intros H. injection H as <-.
  apply claimed_between_refl.
Qed.

Lemma validate_keys_claims (keys rest : list Placeholder) (key_id : nat)
  (objects : list string) (visited visited' : list visit) :
  validate_keys keys key_id rest objects visited = Ok visited' ->
  claimed_between key_id (key_id + List.length rest) visited visited'.
Proof.
  revert key_id visited. induction rest as [| key rest IH]; intros key_id visited;
    cbn [validate_keys List.length].
  - intros H. injection H as <-. apply claimed_between_refl.
  - destruct (validate_key keys key_id key objects visited) as [v | |] eqn:Hk; cbn [bind];
      try discriminate.
    intros H. apply IH in H. apply validate_key_claims in Hk.
    replace (key_id + S (List.length rest)) with (S key_id + List.length rest) by lia.
    eapply claimed_between_trans; [exact Hk | exact H | lia | lia].
Qed.

Lemma all_visited_nth_error (visited : list visit) :
  all_visited visited = true <-> forall idx, nth_error visited idx <> Some NotVisited.
Proof.
  unfold all_visited. rewrite forallb_forall. split.
  - intros H idx Hn. apply nth_error_In in Hn. apply H in Hn. discriminate.
  - intros H v Hv. apply In_nth_error in Hv. destruct Hv as [idx Hidx].
    destruct v; [exfalso; apply (H idx); exact Hidx | reflexivity].
Qed.

Lemma claimed_between_all_visited (lo hi : nat) (visited visited' : list visit) :
  claimed_between lo hi visited visited' -> all_visited visited = true ->
  all_visited visited' = true.
Proof.
  intros [_ H] Hall. rewrite all_visited_nth_error in *. intros idx Hn.
  destruct (H idx) as [He | (Hv & _)]; [apply (Hall idx); congruence | apply (Hall idx); exact Hv].
Qed.

(** X9. The rules only claim. When the rules of a level have run, from any
    array and any index on, every entry is as it was before, or was
    unvisited and names one of the rules that ran: no rule releases an
    object, and none takes an object that another has claimed. From the
    fresh array of a frame, every entry therefore ends unvisited or names a
    key of the level. *)
Theorem rules_only_claim (keys rest : list Placeholder) (key_id : nat) (objects : list string)
  (visited visited' : list visit) :
  validate_keys keys key_id rest objects visited = Ok visited' ->
  claimed_between key_id (key_id + List.length rest) visited visited'
  /\ (forall idx k,
         nth_error visited idx = Some (VisitedBy k) -> nth_error visited' idx = Some (VisitedBy k))
  /\ (visited = repeat NotVisited (List.length objects) ->
      List.length visited' = List.length objects
      /\ key_ids_below (key_id + List.length rest) visited').
Proof.
  intros H. pose proof (validate_keys_claims _ _ _ _ _ _ H) as Hc.
  split; [exact Hc |]. destruct Hc as [Hlen Hc]. split.
  - intros idx k Hk. destruct (Hc idx) as [He | (Hn & _)]; congruence.
  - intros ->. split; [rewrite Hlen; apply repeat_length |].
    intros idx k Hk. destruct (Hc idx) as [He | (_ & k' & Hk' & Hv)].
    + rewrite Hk in He. symmetry in He. apply nth_error_In in He. apply repeat_spec in He.
      discriminate.
    + rewrite Hk in Hv. injection Hv as ->. lia.
Qed.

(** The three rules of the first level of the Python template on a model *)
Lemma rules_only_claim_witness :
  validate_keys
    [ new_GenericPlaceholder "0model.onnx"; IntegerPlaceholder; AnyPlaceholder ] 0
    [ new_GenericPlaceholder "0model.onnx"; IntegerPlaceholder; AnyPlaceholder ]
    [ "1"; "0model.onnx"; "notes" ] [ NotVisited; NotVisited; NotVisited ]
  = Ok [ VisitedBy 1; VisitedBy 0; VisitedBy 2 ]
  /\ claimed_between 0 3 [ NotVisited; NotVisited; NotVisited ]
       [ VisitedBy 1; VisitedBy 0; VisitedBy 2 ].
Proof.
  assert (H : validate_keys
                [ new_GenericPlaceholder "0model.onnx"; IntegerPlaceholder; AnyPlaceholder ] 0
                [ new_GenericPlaceholder "0model.onnx"; IntegerPlaceholder; AnyPlaceholder ]
                [ "1"; "0model.onnx"; "notes" ] [ NotVisited; NotVisited; NotVisited ]
              = Ok [ VisitedBy 1; VisitedBy 0; VisitedBy 2 ]) by reflexivity.
  split; [exact H |].
  exact (proj1 (rules_only_claim _ _ 0 _ _ _ H)).
Defined.

(** ** The Integer rule on any array *)

Lemma integer_loop_general (key_id : nat) (objects : list string) (pre visited : list visit)
  (appearances : nat) :
  List.length visited = List.length objects ->
  integer_loop key_id (List.length pre) objects (pre ++ visited) appearances
  = Ok ((pre ++ map (integer_entry key_id) (combine objects visited))%list,
        appearances + integer_appearances objects visited).
Proof.
  revert pre visited appearances.
  induction objects as [| obj objects IH]; intros pre visited appearances Hlen;
    destruct visited as [| v visited]; try discriminate.
  - cbn. rewrite Nat.add_0_r. reflexivity.
  - cbn [integer_loop]. unfold integer_appearances, integer_entry.
    cbn [combine map filter fst snd].
    injection Hlen as Hlen.
    pose proof (IH (pre ++ [VisitedBy key_id])%list visited (S appearances) Hlen) as IH1.
    pose proof (IH (pre ++ [v])%list visited appearances Hlen) as IH2.
    rewrite length_app, Nat.add_1_r, <- !app_assoc in IH1, IH2. cbn [app] in IH1, IH2.
    destruct (isnumeric obj); cbn [andb].
    + rewrite getitem_app. cbn [bind]. destruct (is_False v) eqn:Hv.
      * rewrite list_update_app, IH1. unfold integer_appearances, integer_entry.
        cbn [List.length]. rewrite Nat.add_succ_r. reflexivity.
      * rewrite IH2. reflexivity.
    + rewrite IH2. reflexivity.
Qed.

(** X10. The Integer rule on any array as long as the objects. It claims
    every numeric object that is still unvisited and no other entry; it
    fails with "too many" when it claimed two or more and is the only rule
    of the level, with "not found" when it claimed none, also where numeric
    objects are there and another rule has them; among several rules it
    takes any number of numeric objects from one up. *)
Theorem integer_rule (placeholders : list Placeholder) (key_id : nat) (objects : list string)
  (visited : list visit) :
  List.length visited = List.length objects ->
  validate_integer_placeholder placeholders key_id objects visited
  = if (1 <? integer_appearances objects visited)%nat && (List.length placeholders =? 1)%nat
    then Raise (CortexException [ "too many <integer> appearances in path" ])
    else if (integer_appearances objects visited =? 0)%nat
    then Raise (CortexException [ "<integer> not found in path" ])
    else Ok (map (integer_entry key_id) (combine objects visited)).
Proof.
  intros Hlen. unfold validate_integer_placeholder.
  pose proof (integer_loop_general key_id objects [] visited 0 Hlen) as H.
  cbn [List.length app Nat.add] in H. rewrite H. reflexivity.
Qed.

(** Two versions and a file, the first version taken by a rule before *)
Lemma integer_rule_witness :
  validate_integer_placeholder [ IntegerPlaceholder; AnyPlaceholder ] 1
    [ "1"; "2"; "notes" ] [ VisitedBy 0; NotVisited; NotVisited ]
  = Ok [ VisitedBy 0; VisitedBy 1; NotVisited ].
Proof.
  exact (integer_rule [ IntegerPlaceholder; AnyPlaceholder ] 1 [ "1"; "2"; "notes" ]
           [ VisitedBy 0; NotVisited; NotVisited ] eq_refl).
Defined.

(** ** A level with an Any rule *)

Lemma validate_key_any (keys : list Placeholder) (key_id : nat) (objects : list string)
  (visited : list visit) :
  validate_key keys key_id AnyPlaceholder objects visited
  = Ok (map (fun v => if is_False v then VisitedBy key_id else v) visited).
Proof. reflexivity. Qed.

Lemma all_visited_any (key_id : nat) (visited : list visit) :
  all_visited (map (fun v => if is_False v then VisitedBy key_id else v) visited) = true.
Proof.
  unfold all_visited. induction visited as [| [| k] visited IH]; cbn; [reflexivity | |];
    exact IH.
Qed.

Lemma validate_keys_any (keys pre post : list Placeholder) (key_id : nat)
  (objects : list string) (visited visited' : list visit) :
  validate_keys keys key_id (pre ++ AnyPlaceholder :: post)%list objects visited = Ok visited' ->
  all_visited visited' = true.
Proof.
  rewrite validate_keys_app.
  destruct (validate_keys keys key_id pre objects visited) as [v | |]; cbn [bind];
    try discriminate.
  cbn [validate_keys]. rewrite validate_key_any. cbn [bind]. intros H.
  apply validate_keys_claims in H.
  eapply claimed_between_all_visited; [exact H | apply all_visited_any].
Qed.

(** X11. A level that has an Any rule leaves no object unvisited: when its
    rules have run, from any array, every entry is claimed, whatever rules
    come after Any; so the level never reports unexpected paths, and fails
    only where one of its rules fails. *)
Theorem any_rule_absorbs (str_predictor_type : PredictorType -> string)
  (predictor_type : PredictorType) (commonprefix : string) (keys : list Placeholder)
  (paths objects : list string) :
  In AnyPlaceholder keys ->
  (forall visited visited',
      validate_keys keys 0 keys objects visited = Ok visited' -> all_visited visited' = true)
  /\ (forall e,
         match_level str_predictor_type predictor_type commonprefix keys paths objects = Raise e ->
         try_validate_keys str_predictor_type predictor_type commonprefix keys objects
           (repeat NotVisited (List.length objects)) = Raise e).
Proof.
  intros Hin. apply in_split in Hin. destruct Hin as (pre & post & Hkeys).
  assert (Hall : forall visited visited',
             validate_keys keys 0 keys objects visited = Ok visited' ->
             all_visited visited' = true).
  { intros visited visited' H. rewrite Hkeys in H at 2. eapply validate_keys_any. exact H. }
  split; [exact Hall |].
  intros e. unfold match_level, try_validate_keys.
  destruct (validate_keys keys 0 keys objects (repeat NotVisited (List.length objects)))
    as [v | e' |] eqn:Hv.
  - cbn [bind]. apply Hall in Hv.
    apply (check_unvisited_Ok str_predictor_type predictor_type commonprefix paths) in Hv.
    rewrite Hv. discriminate.
  - destruct e'; cbn [bind]; intros H; exact H.
  - discriminate.
Qed.

(** The first level of the Python template on a model with a file beside it *)
Lemma any_rule_absorbs_witness :
  match_level short_name PythonPredictorType "p"
    [ new_GenericPlaceholder "0model.onnx"; IntegerPlaceholder; AnyPlaceholder ]
    [ "x"; "1" ] [ "x"; "1" ]
  = Raise (CortexException [ "python predictor at 'p'";
                             "generic placeholder for 0model.onnx wasn't found" ])
  /\ try_validate_keys short_name PythonPredictorType "p"
       [ new_GenericPlaceholder "0model.onnx"; IntegerPlaceholder; AnyPlaceholder ]
       [ "x"; "1" ] [ NotVisited; NotVisited ]
     = Raise (CortexException [ "python predictor at 'p'";
                                "generic placeholder for 0model.onnx wasn't found" ]).
Proof.
  assert (H : match_level short_name PythonPredictorType "p"
                [ new_GenericPlaceholder "0model.onnx"; IntegerPlaceholder; AnyPlaceholder ]
                [ "x"; "1" ] [ "x"; "1" ]
              = Raise (CortexException [ "python predictor at 'p'";
                                         "generic placeholder for 0model.onnx wasn't found" ]))
    by reflexivity.
  split; [exact H |].
  refine (proj2 (any_rule_absorbs short_name PythonPredictorType "p"
                   [ new_GenericPlaceholder "0model.onnx"; IntegerPlaceholder; AnyPlaceholder ]
                   [ "x"; "1" ] [ "x"; "1" ] _) _ H).
  right. right. left. reflexivity.
Defined.

(** ** Groups and the exclusive alternative *)

Lemma validate_key_inert (keys : list Placeholder) (key_id : nat) (key : Placeholder)
  (objects : list string) (visited : list visit) :
  is_inert key = true -> validate_key keys key_id key objects visited = Ok visited.
Proof.
  unfold is_inert. destruct key as [ph p | ph v p | id parts p]; cbn [is_PlaceholderGroup orb].
  - cbn [placeholder_eq]. intros H. apply andb_true_iff in H. destruct H as [H1 H2].
    apply String.eqb_eq in H1. apply Z.eqb_eq in H2. subst ph p. reflexivity.
  - discriminate.
  - intros _. reflexivity.
Qed.

Lemma validate_keys_inert (keys rest : list Placeholder) (key_id : nat) (objects : list string)
  (visited : list visit) :
  Forall (fun k => is_inert k = true) rest ->
  validate_keys keys key_id rest objects visited = Ok visited.
Proof.
  intros H. revert key_id. induction H as [| key rest Hk _ IH]; intros key_id;
    cbn [validate_keys]; [reflexivity |].
  rewrite (validate_key_inert _ _ _ _ _ Hk). cbn [bind]. apply IH.
Qed.

Lemma paths_at_unvisited_fresh (n : nat) (paths : list string) :
  paths_at_unvisited paths (repeat NotVisited n) = firstn n paths.
Proof.
  unfold paths_at_unvisited. revert paths. induction n as [| n IH]; intros [| p paths];
    cbn [repeat combine filter map firstn snd fst is_False]; try reflexivity.
  f_equal. apply IH.
Qed.

(** X12. The rules of a group and of the exclusive alternative do nothing:
    either returns with the array as it was given. A level that has no other
    rule therefore passes only when there is no object at all, and reports
    as unexpected the paths at the indices of all its objects otherwise. *)
Theorem inert_rules_claim_nothing (str_predictor_type : PredictorType -> string)
  (predictor_type : PredictorType) (commonprefix : string) (keys : list Placeholder)
  (paths objects : list string) :
  Forall (fun k => is_inert k = true) keys ->
  List.length objects <= List.length paths ->
  (forall key_id objects visited,
      validate_keys keys key_id keys objects visited = Ok visited)
  /\ match_level str_predictor_type predictor_type commonprefix keys paths objects
     = match objects with
       | [] => Ok []
       | _ => Raise (CortexException
                       [ model_context str_predictor_type predictor_type commonprefix;
                         "unexpected path(s) for "
                         ++ str_list (firstn (List.length objects) paths) ])
       end.
Proof.
  intros Hkeys Hlen. split; [intros; apply validate_keys_inert; exact Hkeys |].
  unfold match_level, try_validate_keys. rewrite (validate_keys_inert _ _ _ _ _ Hkeys).
  cbn [bind]. unfold check_unvisited. rewrite unvisited_from_paths
    by (rewrite repeat_length; exact Hlen).
  cbn [skipn bind]. rewrite paths_at_unvisited_fresh.
  destruct objects as [| obj objects]; [reflexivity |].
  destruct paths as [| p paths]; [cbn in Hlen; lia |]. reflexivity.
Qed.

(** The level below a version in the first ONNX template *)
Lemma inert_rules_claim_nothing_witness :
  match_level short_name ONNXPredictorType "p/1"
    [ PlaceholderGroup 1 [ SinglePlaceholder; new_GenericPlaceholder ".onnx" ] None ]
    [ "model.onnx" ] [ "model.onnx" ]
  = Raise (CortexException [ "onnx predictor model at 'p/1'";
                             "unexpected path(s) for ['model.onnx']" ]).
Proof.
  refine (proj2 (inert_rules_claim_nothing short_name ONNXPredictorType "p/1"
                   [ PlaceholderGroup 1 [ SinglePlaceholder; new_GenericPlaceholder ".onnx" ]
                       None ]
                   [ "model.onnx" ] [ "model.onnx" ] _ _)).
  - repeat constructor.
  - cbn. lia.
Defined.

(** ** A frame whose sole rule is Single *)

Lemma bind_unit (r : result unit) : (_ <- r ;; Ok tt) = r.
Proof. destruct r as [[] | e |]; reflexivity. Qed.

(** X13. A frame on a dict whose sole key is Single, as [dir_models_pattern]
    builds it around the template of a predictor type. With one object the
    frame does what a frame on the value of the key does at the prefix
    joined with the object; with two or more objects it fails with the error
    of the Single rule under its own context; with no object, as when no
    path lies under the prefix, it returns and nothing has been matched. *)
Theorem single_frame (cwd : string) (list_set : list string -> list string)
  (str_predictor_type : PredictorType -> string) (fuel : nat) (predictor_type : PredictorType)
  (pattern : Pattern) (s3_paths : list string) (commonprefix : string)
  (paths objects : list string) :
  level_paths cwd s3_paths commonprefix = Ok paths ->
  level_objects list_set paths = Ok objects ->
  dir_models_pattern predictor_type
  = (p <- single_model_pattern predictor_type ;; Ok (PDict [ (SinglePlaceholder, p) ]))
  /\ _validate_s3_model_paths cwd list_set str_predictor_type (S (S fuel)) predictor_type
       (PDict [ (SinglePlaceholder, pattern) ]) s3_paths commonprefix
     = match objects with
       | [] => Ok tt
       | [ obj ] =>
           _validate_s3_model_paths cwd list_set str_predictor_type (S fuel) predictor_type
             pattern s3_paths (os_path_join commonprefix obj)
       | _ =>
           Raise (CortexException
                    [ context str_predictor_type predictor_type commonprefix;
                      "only a single <single> is allowed per directory" ])
       end.
Proof.
  intros Hpaths Hobjects. split; [reflexivity |].
  rewrite frame_eq, Hpaths. cbn [bind]. rewrite Hobjects. cbn [bind].
  destruct objects as [| obj [| obj' objects]].
  - reflexivity.
  - rewrite <- (bind_unit (_validate_s3_model_paths cwd list_set str_predictor_type (S fuel)
                             predictor_type pattern s3_paths (os_path_join commonprefix obj))).
    reflexivity.
  - reflexivity.
Qed.

(** One model directory under the prefix, and a template that ends there *)
Lemma single_frame_witness :
  _validate_s3_model_paths root_cwd list_set_first_seen short_name 2 PythonPredictorType
    (PDict [ (SinglePlaceholder, PNone) ]) [ "models/a" ] "models"
  = _validate_s3_model_paths root_cwd list_set_first_seen short_name 1 PythonPredictorType
      PNone [ "models/a" ] (os_path_join "models" "a").
Proof.
  refine (proj2 (single_frame root_cwd list_set_first_seen short_name 0 PythonPredictorType
                   PNone [ "models/a" ] "models" [ "a" ] [ "a" ] _ _)); reflexivity.
Defined.

(** ** The exceptions of the matcher *)

Lemma same_key_refl (k : Placeholder) : same_key k k = true.
Proof.
  unfold same_key. destruct k; cbn [hash hashed_eqb placeholder_eq];
    rewrite ?String.eqb_refl, ?Z.eqb_refl, ?Nat.eqb_refl; reflexivity.
Qed.

Lemma dict_get_key (items : list (Placeholder * Pattern)) (key : Placeholder) :
  In key (dict_keys items) -> exists sub, dict_get items key = Ok sub.
Proof.
  induction items as [| [k v] items IH]; cbn [dict_keys map fst In dict_get]; [intros [] |].
  intros [-> | Hin].
  - rewrite same_key_refl. exists v. reflexivity.
  - destruct (same_key k key); [exists v; reflexivity | apply IH; exact Hin].
Qed.

Lemma mapM_length {A B : Type} (f : A -> result B) (l : list A) (bs : list B) :
  mapM f l = Ok bs -> List.length bs = List.length l.
Proof.
  revert bs. induction l as [| a l IH]; cbn [mapM]; intros bs H.
  - injection H as <-. reflexivity.
  - destruct (f a); cbn [bind] in H; try discriminate.
    destruct (mapM f l) as [bs' | |]; cbn [bind] in H; try discriminate.
    injection H as <-. cbn [List.length]. f_equal. apply IH. reflexivity.
Qed.

Lemma level_objects_length (list_set : list string -> list string) (paths objects : list string) :
  enumerates_sets list_set ->
  level_objects list_set paths = Ok objects -> List.length objects <= List.length paths.
Proof.
  intros Hset. unfold level_objects.
  destruct (mapM get_leftmost_part_of_path paths) as [raw | |] eqn:Hraw; cbn [bind];
    try discriminate.
  intros H. injection H as <-. rewrite <- (mapM_length _ _ _ Hraw).
  destruct (Hset raw) as [Hnd Hin]. apply NoDup_incl_length; [exact Hnd |].
  intros x Hx. apply Hin. exact Hx.
Qed.

Lemma level_paths_Raise_empty (cwd : string) (s3_paths : list string) (commonprefix : string)
  (e : exn) :
  level_paths cwd s3_paths commonprefix = Raise e -> e = ValueError /\ In "" s3_paths.
Proof.
  unfold level_paths. intros H.
  destruct (mapM (fun s3_path => relpath cwd s3_path commonprefix) s3_paths) as [ps | e' |] eqn:Hm;
    cbn [bind] in H; try discriminate.
  injection H as ->. apply mapM_Raise in Hm. destruct Hm as (p & Hin & Hp).
  unfold relpath in Hp. destruct (String.eqb_spec p "") as [He | _].
  - subst p. split; [congruence | exact Hin].
  - destruct (rel_list _ _); discriminate.
Qed.

Lemma generic_loop_in_range (key_id : nat) (value : string) (objects : list string) (idx : nat)
  (visited : list visit) (e : exn) :
  idx + List.length objects <= List.length visited ->
  generic_loop key_id idx value objects visited <> Raise e.
Proof.
  revert idx. induction objects as [| obj objects IH]; intros idx Hlen; cbn [generic_loop];
    [discriminate |].
  cbn [List.length] in Hlen. destruct (String.eqb obj value); [| apply IH; lia].
  destruct (getitem_Ok visited idx) as (v & -> & _); [lia |]. discriminate.
Qed.

(** On an array as long as the objects a rule raises a [CortexException]
    and nothing else. *)
Lemma validate_key_in_range (keys : list Placeholder) (key_id : nat) (key : Placeholder)
  (objects : list string) (visited : list visit) (e : exn) :
  List.length visited = List.length objects ->
  validate_key keys key_id key objects visited = Raise e ->
  exists messages, e = CortexException messages.
Proof.
  intros Hlen. unfold validate_key.
  destruct (placeholder_eq key IntegerPlaceholder).
  { unfold validate_integer_placeholder.
    pose proof (integer_loop_general key_id objects [] visited 0 Hlen) as H.
    cbn [List.length app Nat.add] in H. rewrite H. cbn [bind].
    destruct ((1 <? _)%nat && _); [intros H1; injection H1 as <-; eexists; reflexivity |].
    destruct (_ =? 0)%nat; [| discriminate].
    intros H1. injection H1 as <-. eexists. reflexivity. }
  destruct (placeholder_eq key AnyPlaceholder); [discriminate |].
  destruct (placeholder_eq key SinglePlaceholder).
  { unfold validate_single_placeholder.
    destruct ((1 <? List.length keys)%nat || (1 <? List.length objects)%nat);
      [intros H; injection H as <-; eexists; reflexivity |].
    destruct visited as [| [|] ?]; discriminate. }
  destruct (placeholder_eq key (new_GenericPlaceholder "")).
  { unfold validate_generic_placeholder.
    destruct (generic_loop key_id 0 (generic_value key) objects visited) as [[v |] | e' |] eqn:Hl;
      cbn [bind]; try discriminate.
    - intros H. injection H as <-. eexists. reflexivity.
    - exfalso. eapply generic_loop_in_range; [| exact Hl]. cbn [Nat.add]. lia. }
  destruct (is_PlaceholderGroup key); [discriminate |].
  destruct (placeholder_eq key ExclAlternativePlaceholder); [discriminate |].
  intros H. injection H as <-. eexists. reflexivity.
Qed.

Lemma validate_keys_in_range (keys rest : list Placeholder) (key_id : nat)
  (objects : list string) (visited : list visit) (e : exn) :
  List.length visited = List.length objects ->
  validate_keys keys key_id rest objects visited = Raise e ->
  exists messages, e = CortexException messages.
Proof.
  revert key_id visited. induction rest as [| key rest IH]; intros key_id visited Hlen;
    cbn [validate_keys]; [discriminate |].
  destruct (validate_key keys key_id key objects visited) as [v | e' |] eqn:Hk; cbn [bind].
  - apply IH. apply validate_key_claims in Hk. destruct Hk as [Hl _]. congruence.
  - intros H. injection H as ->. eapply validate_key_in_range; [exact Hlen | exact Hk].
  - discriminate.
Qed.

Lemma match_level_in_range (str_predictor_type : PredictorType -> string)
  (predictor_type : PredictorType) (commonprefix : string) (keys : list Placeholder)
  (paths objects : list string) (e : exn) :
  List.length objects <= List.length paths ->
  match_level str_predictor_type predictor_type commonprefix keys paths objects = Raise e ->
  exists messages, e = CortexException messages.
Proof.
  intros Hlen. unfold match_level, try_validate_keys.
  destruct (validate_keys keys 0 keys objects (repeat NotVisited (List.length objects)))
    as [v | e' |] eqn:Hv.
  - cbn [bind]. unfold check_unvisited.
    apply validate_keys_claims in Hv. destruct Hv as [Hl _]. rewrite repeat_length in Hl.
    rewrite unvisited_from_paths by (cbn [Nat.add]; lia). cbn [bind].
    destruct (0 <? _)%nat; cbn [bind]; [| discriminate].
    intros H. injection H as <-. eexists. reflexivity.
  - apply validate_keys_in_range in Hv; [| apply repeat_length].
    destruct Hv as [messages ->]. cbn [bind]. intros H. injection H as <-.
    eexists. reflexivity.
  - discriminate.
Qed.

(** The array that the descent reads: as long as the objects, every entry a
    key of the level. *)
Lemma visited_after_level (keys : list Placeholder) (objects : list string)
  (visited : list visit) :
  validate_keys keys 0 keys objects (repeat NotVisited (List.length objects)) = Ok visited ->
  all_visited visited = true ->
  List.length visited = List.length objects
  /\ Forall (fun v => exists key_id, v = VisitedBy key_id /\ key_id < List.length keys) visited.
Proof.
  intros Hv Hall. apply validate_keys_claims in Hv. destruct Hv as [Hl Hc].
  rewrite repeat_length in Hl. split; [exact Hl |].
  apply Forall_forall. intros v Hin. apply In_nth_error in Hin. destruct Hin as [idx Hidx].
  rewrite all_visited_nth_error in Hall.
  destruct (Hc idx) as [He | (_ & k & Hk & Hk')].
  - rewrite Hidx in He. symmetry in He. apply nth_error_In in He. apply repeat_spec in He.
    subst v. exfalso. apply (Hall idx). exact Hidx.
  - exists k. split; [congruence | lia].
Qed.

Lemma descend_Raise_below (rec : Pattern -> string -> result unit)
  (items : list (Placeholder * Pattern)) (keys : list Placeholder) (objects : list string)
  (commonprefix : string) (visited : list visit) (obj_id : nat) (e : exn) :
  (forall key, In key keys -> In key (dict_keys items)) ->
  obj_id + List.length visited <= List.length objects ->
  Forall (fun v => exists key_id, v = VisitedBy key_id /\ key_id < List.length keys) visited ->
  descend rec items keys objects commonprefix obj_id visited = Raise e ->
  exists key sub new_commonprefix,
    dict_get items key = Ok sub /\ rec sub new_commonprefix = Raise e.
Proof.
  intros Hkeys. revert obj_id. induction visited as [| v visited IH]; intros obj_id Hlen Hall;
    cbn [descend]; [discriminate |].
  cbn [List.length] in Hlen. inversion Hall as [| ? ? (k & -> & Hk) Hall']; subst.
  destruct (getitem_Ok objects obj_id) as (obj & -> & _); [lia |]. cbn [bind key_index].
  destruct (getitem_Ok keys k Hk) as (key & -> & Hkey). cbn [bind].
  apply nth_error_In in Hkey. apply Hkeys in Hkey.
  destruct (dict_get_key items key Hkey) as [sub Hsub]. rewrite Hsub. cbn [bind].
  destruct (rec sub (os_path_join commonprefix obj)) as [[] | e' |] eqn:Hrec; cbn [bind].
  - apply IH; [lia | exact Hall'].
  - intros H. injection H as ->. exists key, sub, (os_path_join commonprefix obj).
    split; assumption.
  - discriminate.
Qed.

Lemma decorate_None (keys : list Placeholder) :
  decorate keys = None ->
  forallb (fun k => match priority_of k with Some _ => true | None => false end) keys = false.
Proof.
  induction keys as [| k keys IH]; cbn [decorate forallb]; [discriminate |].
  destruct (priority_of k); [| reflexivity].
  destruct (decorate keys); [discriminate |]. intros _. apply IH. reflexivity.
Qed.

Lemma sort_keys_Raise_priorities (keys : list Placeholder) (e : exn) :
  sort_keys keys = Raise e -> e = TypeError /\ priorities_ok keys = false.
Proof.
  unfold sort_keys, priorities_ok. destruct (List.length keys <? 2)%nat; [discriminate |].
  destruct (decorate keys) eqn:Hd; [discriminate |].
  intros H. injection H as <-. split; [reflexivity |]. apply decorate_None. exact Hd.
Qed.

Lemma well_built_sub (items : list (Placeholder * Pattern)) (k : Placeholder) (sub : Pattern) :
  In (k, sub) items -> well_built sub = false -> well_built (PDict items) = false.
Proof.
  intros Hin Hsub. cbn [well_built]. apply andb_false_iff. right.
  induction items as [| [k' v] items IH]; [destruct Hin |].
  destruct Hin as [Heq | Hin].
  - injection Heq as -> ->. rewrite Hsub. reflexivity.
  - rewrite (IH Hin). apply andb_false_r.
Qed.

(** What a frame raises, on any template: the [ValueError] of an empty
    path, a [CortexException], or, on a template that is not well built, the
    [TypeError] of the sort or the [AttributeError] of a leaf that is not
    [None]. *)
Lemma frame_Raise_cases (cwd : string) (list_set : list string -> list string)
  (str_predictor_type : PredictorType -> string) (fuel : nat) (predictor_type : PredictorType)
  (pattern : Pattern) (s3_paths : list string) (commonprefix : string) (e : exn) :
  enumerates_sets list_set ->
  _validate_s3_model_paths cwd list_set str_predictor_type fuel predictor_type pattern s3_paths
    commonprefix = Raise e ->
  (e = ValueError /\ In "" s3_paths)
  \/ (exists messages, e = CortexException messages)
  \/ ((e = TypeError \/ e = AttributeError) /\ well_built pattern = false).
Proof.
  intros Hset. revert pattern commonprefix.
  induction fuel as [| fuel IH]; intros pattern commonprefix; [discriminate |].
  rewrite frame_eq.
  destruct (level_paths cwd s3_paths commonprefix) as [paths | e' |] eqn:Hpaths; cbn [bind];
    [| intros H; injection H as ->; left; eapply level_paths_Raise_empty; exact Hpaths
     | discriminate].
  destruct (level_objects list_set paths) as [objects | e' |] eqn:Hobjects; cbn [bind];
    [| exfalso; eapply level_objects_Raise; exact Hobjects | discriminate].
  pose proof (level_objects_length _ _ _ Hset Hobjects) as Hlen.
  destruct pattern as [| items | v].
  - intros H. right. left.
    destruct objects as [| obj [| ? ?]]; try (injection H as <-; eexists; reflexivity).
    destruct (String.eqb obj "."); [discriminate |]. injection H as <-. eexists. reflexivity.
  - destruct (sort_keys (dict_keys items)) as [keys | e' |] eqn:Hkeys; cbn [bind];
      [| | discriminate].
    + destruct (match_level str_predictor_type predictor_type commonprefix keys paths objects)
        as [visited | e' |] eqn:Hlevel; cbn [bind]; [| | discriminate].
      * intros H. apply match_level_Ok in Hlevel. destruct Hlevel as [Hv Hall].
        destruct (visited_after_level _ _ _ Hv Hall) as [Hl Hbelow].
        apply descend_Raise_below in H; [| | cbn [Nat.add]; lia | exact Hbelow].
        -- destruct H as (key & sub & cp' & Hsub & Hrec).
           destruct (IH _ _ Hrec) as [Hval | [Hcortex | [Hkind Hwb]]];
             [left; exact Hval | right; left; exact Hcortex |].
           right. right. split; [exact Hkind |].
           apply dict_get_In in Hsub. destruct Hsub as (k & Hin & _).
           eapply well_built_sub; [exact Hin | exact Hwb].
        -- intros key Hin. apply sort_keys_Permutation in Hkeys.
           eapply Permutation_in; [exact Hkeys | exact Hin].
      * intros H. injection H as ->. right. left.
        eapply match_level_in_range; [exact Hlen | exact Hlevel].
    + intros H. injection H as ->. apply sort_keys_Raise_priorities in Hkeys.
      destruct Hkeys as [-> Hp]. right. right. split; [left; reflexivity |].
      cbn [well_built]. rewrite Hp. reflexivity.
  - intros H. injection H as <-. right. right. split; [right; reflexivity | reflexivity].
Qed.

(** X14. The lookups of a frame stay in range. In a process whose sets
    enumerate their elements once each, on any template, paths and prefix,
    a frame raises neither an [IndexError] nor a [KeyError]: [visited],
    [objects] and [paths] are indexed below their lengths, every entry read
    as a key index names a key, and every key looked up is in the dict.
    A [TypeError] or an [AttributeError] comes only of a template that is
    not well built. *)
Theorem frame_lookups_in_range (cwd : string) (list_set : list string -> list string)
  (str_predictor_type : PredictorType -> string) (fuel : nat) (predictor_type : PredictorType)
  (pattern : Pattern) (s3_paths : list string) (commonprefix : string) (e : exn) :
  enumerates_sets list_set ->
  _validate_s3_model_paths cwd list_set str_predictor_type fuel predictor_type pattern s3_paths
    commonprefix = Raise e ->
  not_a_lookup_error e
  /\ (well_built pattern = true -> e <> TypeError /\ e <> AttributeError).
Proof.
  intros Hset H. apply frame_Raise_cases in H; [| exact Hset].
  destruct H as [[-> _] | [[messages ->] | [[-> | ->] Hwb]]]; unfold not_a_lookup_error;
    (split; [split; discriminate |]); intros Hw; try (split; discriminate); congruence.
Qed.

(** The first template of TensorFlow, whose level of variables does not sort *)
Lemma frame_lookups_in_range_witness :
  _validate_s3_model_paths root_cwd list_set_first_seen short_name 4 TensorFlowPredictorType
    (PDict [ (new_GenericPlaceholder "variables.index", PNone);
             (PlaceholderGroup 0 [ new_GenericPlaceholder "variables.data-00000-of-";
                                   AnyPlaceholder ] None, PNone);
             (AnyPlaceholder, PNone) ])
    [ "m/1/variables/variables.index" ] "m/1/variables"
  = Raise TypeError
  /\ not_a_lookup_error TypeError.
Proof.
  assert (H : _validate_s3_model_paths root_cwd list_set_first_seen short_name 4
                TensorFlowPredictorType
                (PDict [ (new_GenericPlaceholder "variables.index", PNone);
                         (PlaceholderGroup 0 [ new_GenericPlaceholder "variables.data-00000-of-";
                                               AnyPlaceholder ] None, PNone);
                         (AnyPlaceholder, PNone) ])
                [ "m/1/variables/variables.index" ] "m/1/variables"
              = Raise TypeError) by reflexivity.
  split; [exact H |].
  exact (proj1 (frame_lookups_in_range _ _ _ _ _ _ _ _ _ first_seen_enumerates_sets H)).
Defined.

(** X15. What [validate_s3_model_paths] raises, in a process whose sets
    enumerate their elements once each. For the Python predictor, an
    exception is a [CortexException], or the [ValueError] of
    [os.path.relpath] on an empty path, which then is among the paths. For
    the two other predictor types the module has no template: on any paths
    but the empty list the call ends in a [KeyError], whatever the paths. *)
Theorem validate_s3_model_paths_exceptions (cwd : string)
  (list_set : list string -> list string) (str_predictor_type : PredictorType -> string)
  (s3_paths : list string) (commonprefix : string) :
  enumerates_sets list_set ->
  (forall e,
      validate_s3_model_paths cwd list_set str_predictor_type s3_paths PythonPredictorType
        commonprefix = Raise e ->
      (e = ValueError /\ In "" s3_paths) \/ exists messages, e = CortexException messages)
  /\ (forall predictor_type,
         predictor_type <> PythonPredictorType -> s3_paths <> [] ->
         validate_s3_model_paths cwd list_set str_predictor_type s3_paths predictor_type
           commonprefix = Raise KeyError).
Proof.
  intros Hset. split.
  - intros e. unfold validate_s3_model_paths, validate_s3_model_paths_fuel.
    destruct s3_paths as [| s3_path s3_paths];
      [intros H; injection H as <-; right; eexists; reflexivity |].
    change (single_model_pattern PythonPredictorType)
      with (Ok (PDict [ (IntegerPlaceholder, PNone);
                        (AnyPlaceholder, PNone);
                        (new_GenericPlaceholder "0model.onnx",
                          PDict [ (new_GenericPlaceholder "123", PNone);
                                  (IntegerPlaceholder, PNone) ]) ])).
    cbn [bind]. intros H. apply frame_Raise_cases in H; [| exact Hset].
    destruct H as [Hval | [Hcortex | [_ Hwb]]];
      [left; exact Hval | right; exact Hcortex | discriminate Hwb].
  - intros predictor_type Hpt Hne. unfold validate_s3_model_paths, validate_s3_model_paths_fuel.
    destruct s3_paths as [| s3_path s3_paths]; [congruence |].
    destruct predictor_type; [congruence | reflexivity | reflexivity].
Qed.

Lemma validate_s3_model_paths_exceptions_witness :
  run_validate [ "p/1" ] ONNXPredictorType "p" = Raise KeyError.
Proof.
  refine (proj2 (validate_s3_model_paths_exceptions root_cwd list_set_first_seen short_name
                   [ "p/1" ] "p" first_seen_enumerates_sets) ONNXPredictorType _ _);
    discriminate.
Defined.

(** ** Paths under the prefix *)

Lemma str_split_no_sep_id (s : string) : mem_char sep s = false -> str_split s = [ s ].
Proof.
  induction s as [| c s IH]; cbn [mem_char str_split]; intros H; [reflexivity |].
  apply orb_false_iff in H. destruct H as [Hc Hs]. rewrite Hc, (IH Hs). reflexivity.
Qed.

Lemma str_split_concat (c : string) (comps : list string) :
  Forall (fun x => is_component x = true) (c :: comps) ->
  str_split (String.concat "/" (c :: comps)) = c :: comps.
Proof.
  revert c. induction comps as [| d comps IH]; intros c Hall;
    inversion Hall as [| ? ? Hc Hcomps]; subst;
    apply is_component_spec in Hc; destruct Hc as [_ Hc].
  - cbn [String.concat]. apply str_split_no_sep_id. exact Hc.
  - change (String.concat "/" (c :: d :: comps))
      with (c ++ String sep (String.concat "/" (d :: comps))).
    rewrite str_split_app_sep, (str_split_no_sep_id c Hc), (IH d Hcomps). reflexivity.
Qed.

Lemma fold_norm_step_names (comps stack : list string) :
  Forall (fun x => is_name x = true) comps ->
  fold_left norm_step comps stack = (rev comps ++ stack)%list.
Proof.
  intros Hall. revert stack. induction Hall as [| c comps Hc _ IH]; intros stack; [reflexivity |].
  cbn [fold_left rev]. rewrite IH, <- app_assoc. cbn [app]. do 2 f_equal.
  unfold is_name, is_component in Hc. rewrite !andb_true_iff, !negb_true_iff in Hc.
  destruct Hc as [[[Hne _] Hdot] Hdd]. unfold norm_step. rewrite Hne, Hdot, Hdd. reflexivity.
Qed.

Lemma Forall_name_component (comps : list string) :
  Forall (fun x => is_name x = true) comps -> Forall (fun x => is_component x = true) comps.
Proof. apply Forall_impl. exact is_name_component. Qed.

(** A path written as names joined by separators is relative, never steps
    up, and normalizes to its names. *)
Lemma concat_names (comps : list string) :
  Forall (fun x => is_name x = true) comps ->
  isabs (String.concat "/" comps) = false
  /\ no_dotdot (String.concat "/" comps) = true
  /\ normalize (str_split (String.concat "/" comps)) = comps.
Proof.
  intros Hall. destruct comps as [| c comps]; [repeat split; reflexivity |].
  pose proof (Forall_name_component _ Hall) as Hcomp.
  unfold no_dotdot, normalize. rewrite (str_split_concat c comps Hcomp).
  split; [| split].
  - inversion Hcomp as [| ? ? Hc Hcomps]; subst.
    apply (concat_components c comps Hc Hcomps).
  - apply forallb_forall. intros x Hx. rewrite Forall_forall in Hall. apply Hall in Hx.
    unfold is_name in Hx. apply andb_true_iff in Hx. destruct Hx as [_ Hx]. exact Hx.
  - rewrite (fold_norm_step_names _ [] Hall), app_nil_r. apply rev_involutive.
Qed.

Lemma name_not_up (c : string) (comps : list string) :
  is_name c = true -> startswith (String.concat "/" (c :: comps)) "../" = false.
Proof.
  intros Hc. unfold is_name, is_component in Hc.
  rewrite !andb_true_iff, !negb_true_iff in Hc. destruct Hc as [[[Hne Hsep] Hdot] Hdd].
  assert (Hs : exists s, String.concat "/" (c :: comps) = c ++ s
                         /\ (s = "" \/ exists s', s = String sep s')).
  { destruct comps as [| d comps].
    - exists "". split; [| left; reflexivity]. cbn [String.concat].
      clear. induction c as [| a c IH]; [reflexivity | cbn [append]; f_equal; exact IH].
    - eexists. split; [reflexivity | right; eexists; reflexivity]. }
  destruct Hs as (s & -> & Hs). unfold startswith.
  destruct c as [| a1 c]; [discriminate |].
  change (String.prefix "../" (String a1 c ++ s))
    with (if ascii_dec "."%char a1 then String.prefix "./" (c ++ s) else false).
  destruct (ascii_dec "."%char a1) as [<- |]; [| reflexivity].
  destruct c as [| a2 c].
  - destruct Hs as [-> | [s' ->]]; reflexivity.
  - change (String.prefix "./" (String a2 c ++ s))
      with (if ascii_dec "."%char a2 then String.prefix "/" (c ++ s) else false).
    destruct (ascii_dec "."%char a2) as [<- |]; [| reflexivity].
    destruct c as [| a3 c]; [discriminate |].
    change (String.prefix "/" (String a3 c ++ s))
      with (if ascii_dec "/"%char a3 then String.prefix "" (c ++ s) else false).
    destruct (ascii_dec "/"%char a3) as [<- |]; [| reflexivity].
    cbn [mem_char] in Hsep. unfold sep in Hsep. rewrite Ascii.eqb_refl in Hsep.
    rewrite !orb_true_r in Hsep. discriminate.
Qed.

Lemma relpath_under_prefix (cwd : string) (prefix tail : list string) :
  Forall (fun x => is_name x = true) prefix ->
  tail <> [] -> Forall (fun x => is_name x = true) tail ->
  relpath cwd (String.concat "/" (prefix ++ tail)) (String.concat "/" prefix)
  = Ok (String.concat "/" tail).
Proof.
  intros Hprefix Hne Htail.
  assert (Hpath : Forall (fun x => is_name x = true) (prefix ++ tail))
    by (apply Forall_app; split; assumption).
  destruct (concat_names _ Hprefix) as (Ha1 & Hd1 & Hn1).
  destruct (concat_names _ Hpath) as (Ha2 & Hd2 & Hn2).
  rewrite (relpath_relative cwd _ _ Ha2 Hd2 Ha1 Hd1), Hn1, Hn2.
  destruct (String.eqb_spec (String.concat "/" (prefix ++ tail)) "") as [He | _].
  - exfalso. destruct (prefix ++ tail)%list as [| c comps] eqn:Hl.
    + apply app_eq_nil in Hl. destruct Hl as [_ Hl]. contradiction.
    + apply Forall_name_component in Hpath. inversion Hpath as [| ? ? Hc Hcomps]; subst.
      apply (concat_components c comps Hc Hcomps). exact He.
  - pose proof (rel_list_app prefix [] tail) as Hrel. rewrite app_nil_r in Hrel.
    rewrite Hrel. destruct tail as [| c tail]; [contradiction | reflexivity].
Qed.

(** X16. Paths under the prefix. When the prefix is written as names joined
    by separators, and every path is the prefix followed by one name or
    more, then in any working directory the relative paths of a frame at
    that prefix are the paths without the prefix, none is dropped, and the
    objects of the frame are the set of the first names after the prefix. *)
Theorem frame_under_prefix (cwd : string) (list_set : list string -> list string)
  (prefix : list string) (tails : list (list string)) :
  Forall (fun x => is_name x = true) prefix ->
  Forall (fun tail => tail <> [] /\ Forall (fun x => is_name x = true) tail) tails ->
  level_paths cwd (map (fun tail => String.concat "/" (prefix ++ tail)) tails)
    (String.concat "/" prefix)
  = Ok (map (String.concat "/") tails)
  /\ level_objects list_set (map (String.concat "/") tails)
     = Ok (list_set (map (hd "") tails)).
Proof.
  intros Hprefix Htails. split.
  - unfold level_paths.
    assert (Hm : mapM (fun s3_path => relpath cwd s3_path (String.concat "/" prefix))
                   (map (fun tail => String.concat "/" (prefix ++ tail)) tails)
                 = Ok (map (String.concat "/") tails)).
    { induction Htails as [| tail tails [Hne Htail] _ IH]; [reflexivity |].
      cbn [map mapM]. rewrite (relpath_under_prefix cwd prefix tail Hprefix Hne Htail), IH.
      reflexivity. }
    rewrite Hm. cbn [bind]. f_equal. clear Hm.
    induction Htails as [| tail tails [Hne Htail] _ IH]; [reflexivity |].
    cbn [map filter]. destruct tail as [| c tail]; [contradiction |].
    inversion Htail as [| ? ? Hc _]; subst. rewrite (name_not_up c tail Hc). cbn [negb].
    f_equal. apply IH.
  - unfold level_objects.
    assert (Hm : mapM get_leftmost_part_of_path (map (String.concat "/") tails)
                 = Ok (map (hd "") tails)).
    { induction Htails as [| tail tails [Hne Htail] _ IH]; [reflexivity |].
      cbn [map mapM]. destruct tail as [| c tail]; [contradiction |].
      apply Forall_name_component in Htail. inversion Htail as [| ? ? Hc Hcomps]; subst.
      rewrite (get_leftmost_of_components c tail Hc Hcomps), IH. reflexivity. }
    rewrite Hm. reflexivity.
Qed.

(** Two versions of a model under the prefix ["models/a"] *)
Lemma frame_under_prefix_witness :
  level_paths "/srv" [ "models/a/1/model.pkl"; "models/a/2/model.pkl" ] "models/a"
  = Ok [ "1/model.pkl"; "2/model.pkl" ]
  /\ level_objects list_set_first_seen [ "1/model.pkl"; "2/model.pkl" ] = Ok [ "1"; "2" ].
Proof.
  refine (frame_under_prefix "/srv" list_set_first_seen [ "models"; "a" ]
            [ [ "1"; "model.pkl" ]; [ "2"; "model.pkl" ] ] _ _).
  - repeat constructor.
  - repeat constructor; discriminate.
Defined.

(** ** The sort of the keys is stable, and when it raises *)

Lemma insert_by_priority_filter (k : Placeholder) (p q : Z) (sorted : list (Z * Placeholder)) :
  filter (fun x => Z.eqb (fst x) q) (insert_by_priority k p sorted)
  = if Z.eqb p q then (p, k) :: filter (fun x => Z.eqb (fst x) q) sorted
    else filter (fun x => Z.eqb (fst x) q) sorted.
Proof.
  induction sorted as [| [p' k'] sorted IH]; cbn [insert_by_priority].
  - cbn [filter fst]. destruct (Z.eqb p q); reflexivity.
  - destruct (Z.leb_spec p p') as [Hle | Hlt].
    + cbn [filter fst]. destruct (Z.eqb p q); reflexivity.
    + cbn [filter fst]. rewrite IH.
      destruct (Z.eqb_spec p' q) as [Hp' | Hp']; [| reflexivity].
      destruct (Z.eqb_spec p q) as [Hp | Hp]; [lia | reflexivity].
Qed.

Lemma sort_decorated_filter (q : Z) (d : list (Z * Placeholder)) :
  filter (fun x => Z.eqb (fst x) q) (sort_decorated d) = filter (fun x => Z.eqb (fst x) q) d.
Proof.
  induction d as [| [p k] d IH]; [reflexivity |].
  cbn [sort_decorated filter fst]. rewrite insert_by_priority_filter, IH.
  destruct (Z.eqb p q); reflexivity.
Qed.

Lemma filter_has_priority (q : Z) (d : list (Z * Placeholder)) :
  (forall p k, In (p, k) d -> priority_of k = Some p) ->
  filter (has_priority q) (map snd d) = map snd (filter (fun x => Z.eqb (fst x) q) d).
Proof.
  induction d as [| [p k] d IH]; intros H; [reflexivity |].
  cbn [map filter snd fst]. unfold has_priority at 1.
  rewrite (H p k (or_introl eq_refl)).
  rewrite IH by (intros p' k' Hin; apply H; right; exact Hin).
  destruct (Z.eqb p q); reflexivity.
Qed.

(** X17. The sort of the keys is stable: the keys of one priority stand in
    the sorted list in the order the dict has them in. The literal keys,
    which all have the priority 0, thus run in the order of the dict. *)
Theorem sort_keys_stable (l keys : list Placeholder) (p : Z) :
  sort_keys l = Ok keys -> filter (has_priority p) keys = filter (has_priority p) l.
Proof.
  unfold sort_keys. destruct (List.length l <? 2)%nat.
  - intros H. injection H as <-. reflexivity.
  - destruct (decorate l) as [d |] eqn:Hd; [| discriminate].
    intros H. injection H as <-. destruct (decorate_spec _ _ Hd) as [Hmap Hprio].
    rewrite <- Hmap. rewrite !filter_has_priority.
    + rewrite sort_decorated_filter. reflexivity.
    + exact Hprio.
    + intros q k Hin. apply Hprio.
      eapply Permutation_in; [apply sort_decorated_Permutation | exact Hin].
Qed.

(** The keys of the first level of the first TensorFlow template *)
Lemma sort_keys_stable_witness :
  filter (has_priority 0)
    [ new_GenericPlaceholder "saved_model.pb"; new_GenericPlaceholder "variables";
      AnyPlaceholder ]
  = filter (has_priority 0)
      [ AnyPlaceholder; new_GenericPlaceholder "saved_model.pb";
        new_GenericPlaceholder "variables" ].
Proof.
  apply (sort_keys_stable
           [ AnyPlaceholder; new_GenericPlaceholder "saved_model.pb";
             new_GenericPlaceholder "variables" ]
           [ new_GenericPlaceholder "saved_model.pb"; new_GenericPlaceholder "variables";
             AnyPlaceholder ] 0).
  reflexivity.
Defined.

Lemma decorate_None_key (keys : list Placeholder) :
  decorate keys = None <-> exists k, In k keys /\ priority_of k = None.
Proof.
  induction keys as [| k keys IH]; cbn [decorate].
  - split; [discriminate | intros (k & [] & _)].
  - destruct (priority_of k) as [p |] eqn:Hp.
    + destruct (decorate keys) as [d |].
      * split; [discriminate |]. intros (k' & [<- | Hin] & Hk'); [congruence |].
        assert (H : Some d = None) by (apply IH; exists k'; split; assumption).
        discriminate H.
      * split; [| reflexivity]. intros _.
        destruct (proj1 IH eq_refl) as (k' & Hin & Hk'). exists k'. split; [right |]; assumption.
    + split; [| reflexivity]. intros _. exists k. split; [left; reflexivity | exact Hp].
Qed.

(** X18. The sort raises exactly when it has two keys or more to compare
    and one of them has no priority, as a group built without the keyword
    has; what it raises is a [TypeError]. A frame on a dict with such keys
    raises it once its paths are computed, before any rule has run, whatever
    the paths are. *)
Theorem sort_keys_TypeError (l : list Placeholder) :
  (sort_keys l = Raise TypeError
   <-> 2 <= List.length l /\ exists k, In k l /\ priority_of k = None)
  /\ (forall e, sort_keys l = Raise e -> e = TypeError)
  /\ (forall cwd list_set str_predictor_type fuel predictor_type items s3_paths commonprefix
             paths,
         dict_keys items = l ->
         sort_keys l = Raise TypeError ->
         level_paths cwd s3_paths commonprefix = Ok paths ->
         _validate_s3_model_paths cwd list_set str_predictor_type (S fuel) predictor_type
           (PDict items) s3_paths commonprefix = Raise TypeError).
Proof.
  split; [| split].
  - unfold sort_keys. destruct (Nat.ltb_spec (List.length l) 2) as [Hlt | Hge].
    + split; [discriminate | intros [H _]; lia].
    + destruct (decorate l) as [d |] eqn:Hd.
      * split; [discriminate |]. intros [_ Hk]. apply decorate_None_key in Hk. congruence.
      * split; [| reflexivity]. intros _. split; [exact Hge |].
        apply decorate_None_key. exact Hd.
  - intros e. apply sort_keys_Raise.
  - intros cwd list_set str_predictor_type fuel predictor_type items s3_paths commonprefix
      paths Hkeys Hsort Hpaths.
    rewrite frame_eq, Hpaths. cbn [bind].
    pose proof (level_objects_finished list_set paths
                  (level_paths_not_absolute cwd _ _ _ Hpaths)) as Hfin.
    destruct (level_objects list_set paths) as [objects | e |] eqn:Hobjects.
    + cbn [bind]. rewrite Hkeys, Hsort. reflexivity.
    + exfalso. eapply level_objects_Raise. exact Hobjects.
    + exfalso. apply Hfin. reflexivity.
Qed.

(** ** What the template in force asks of a model *)

Lemma descend_Ok (rec : Pattern -> string -> result unit)
  (items : list (Placeholder * Pattern)) (keys : list Placeholder) (objects : list string)
  (commonprefix : string) (visited : list visit) (obj_id : nat) :
  descend rec items keys objects commonprefix obj_id visited = Ok tt ->
  forall idx v,
    nth_error visited idx = Some v ->
    exists obj key sub,
      nth_error objects (obj_id + idx) = Some obj
      /\ nth_error keys (key_index v) = Some key
      /\ dict_get items key = Ok sub
      /\ rec sub (os_path_join commonprefix obj) = Ok tt.
Proof.
  revert obj_id. induction visited as [| v0 visited IH]; intros obj_id H idx v Hidx.
  - destruct idx; discriminate.
  - cbn [descend] in H.
    destruct (getitem objects obj_id) as [obj | |] eqn:Hobj; cbn [bind] in H; try discriminate.
    destruct (getitem keys (key_index v0)) as [key | |] eqn:Hkey; cbn [bind] in H;
      try discriminate.
    destruct (dict_get items key) as [sub | |] eqn:Hsub; cbn [bind] in H; try discriminate.
    destruct (rec sub (os_path_join commonprefix obj)) as [[] | |] eqn:Hrec; cbn [bind] in H;
      try discriminate.
    destruct idx as [| idx].
    + injection Hidx as <-. exists obj, key, sub. rewrite Nat.add_0_r.
      apply getitem_nth_error in Hobj, Hkey. repeat split; assumption.
    + cbn [nth_error] in Hidx. destruct (IH (S obj_id) H idx v Hidx) as (o & k & s & Ho & Hk).
      exists o, k, s. rewrite Nat.add_succ_r. split; assumption.
Qed.

(** What a frame on a dict has done when it returns *)
Lemma frame_Ok_dict (cwd : string) (list_set : list string -> list string)
  (str_predictor_type : PredictorType -> string) (fuel : nat) (predictor_type : PredictorType)
  (items : list (Placeholder * Pattern)) (s3_paths : list string) (commonprefix : string) :
  _validate_s3_model_paths cwd list_set str_predictor_type (S fuel) predictor_type (PDict items)
    s3_paths commonprefix = Ok tt ->
  exists paths objects keys visited,
    level_paths cwd s3_paths commonprefix = Ok paths
    /\ level_objects list_set paths = Ok objects
    /\ sort_keys (dict_keys items) = Ok keys
    /\ validate_keys keys 0 keys objects (repeat NotVisited (List.length objects)) = Ok visited
    /\ all_visited visited = true
    /\ descend (fun sub_pattern new_commonprefix =>
                  _validate_s3_model_paths cwd list_set str_predictor_type fuel predictor_type
                    sub_pattern s3_paths new_commonprefix)
         items keys objects commonprefix 0 visited = Ok tt.
Proof.
  rewrite frame_eq. intros H.
  destruct (level_paths cwd s3_paths commonprefix) as [paths | |] eqn:Hpaths; cbn [bind] in H;
    try discriminate.
  destruct (level_objects list_set paths) as [objects | |] eqn:Hobjects; cbn [bind] in H;
    try discriminate.
  destruct (sort_keys (dict_keys items)) as [keys | |] eqn:Hkeys; cbn [bind] in H;
    try discriminate.
  destruct (match_level str_predictor_type predictor_type commonprefix keys paths objects)
    as [visited | |] eqn:Hlevel; cbn [bind] in H; try discriminate.
  apply match_level_Ok in Hlevel. destruct Hlevel as [Hv Hall].
  exists paths, objects, keys, visited. repeat split; assumption.
Qed.

Lemma nth_error_combine_In {A B : Type} (l1 : list A) (l2 : list B) (a : A) (b : B) :
  In (a, b) (combine l1 l2) ->
  exists idx, nth_error l1 idx = Some a /\ nth_error l2 idx = Some b.
Proof.
  revert l2. induction l1 as [| x l1 IH]; intros [| y l2] H; try (destruct H; fail).
  destruct H as [H | H].
  - injection H as -> ->. exists 0. split; reflexivity.
  - destruct (IH l2 H) as (idx & H1 & H2). exists (S idx). split; assumption.
Qed.

(** An Integer rule that returns has found a numeric object that no rule
    before had claimed. *)
Lemma validate_integer_placeholder_Ok (placeholders : list Placeholder) (key_id : nat)
  (objects : list string) (visited visited' : list visit) :
  List.length visited = List.length objects ->
  validate_integer_placeholder placeholders key_id objects visited = Ok visited' ->
  exists idx obj,
    nth_error objects idx = Some obj /\ isnumeric obj = true
    /\ nth_error visited idx = Some NotVisited.
Proof.
  intros Hlen. unfold validate_integer_placeholder.
  pose proof (integer_loop_general key_id objects [] visited 0 Hlen) as H.
  cbn [List.length app Nat.add] in H. rewrite H. cbn [bind]. clear H.
  destruct ((1 <? _)%nat && _); [discriminate |].
  unfold integer_appearances.
  destruct (filter (fun ov => isnumeric (fst ov) && is_False (snd ov)) (combine objects visited))
    as [| [obj v] found] eqn:Hf; [discriminate |].
  intros _. assert (Hin : In (obj, v) (filter (fun ov => isnumeric (fst ov) && is_False (snd ov))
                                         (combine objects visited)))
    by (rewrite Hf; left; reflexivity).
  apply filter_In in Hin. destruct Hin as [Hin Hov]. cbn [fst snd] in Hov.
  apply andb_true_iff in Hov. destruct Hov as [Hnum Hv]. apply is_False_NotVisited in Hv.
  subst v. destruct (nth_error_combine_In _ _ _ _ Hin) as (idx & Ho & Hvis).
  exists idx, obj. repeat split; assumption.
Qed.

(** A level whose first two rules are a Literal and Integer: when its rules
    return, the object of the literal is there and the Literal rule has it,
    and a numeric object stands at another index. *)
Lemma literal_then_integer (keys rest : list Placeholder) (value : string)
  (objects : list string) (visited : list visit) :
  validate_keys keys 0 (new_GenericPlaceholder value :: IntegerPlaceholder :: rest) objects
    (repeat NotVisited (List.length objects)) = Ok visited ->
  exists idx idx' n,
    nth_error objects idx = Some value
    /\ nth_error visited idx = Some (VisitedBy 0)
    /\ nth_error objects idx' = Some n /\ isnumeric n = true /\ idx' <> idx.
Proof.
  cbn [validate_keys].
  change (validate_key keys 0 (new_GenericPlaceholder value) objects
            (repeat NotVisited (List.length objects)))
    with (validate_generic_placeholder keys 0 objects (repeat NotVisited (List.length objects))
            (new_GenericPlaceholder value)).
  destruct (validate_generic_placeholder keys 0 objects _ (new_GenericPlaceholder value))
    as [v1 | |] eqn:Hg; cbn [bind]; try discriminate.
  apply validate_generic_placeholder_Ok in Hg. destruct Hg as (idx & v & Hobj & Hv & Hv1).
  cbn [generic_value new_GenericPlaceholder] in Hobj.
  pose proof (nth_error_In _ _ Hv) as Hrep. apply repeat_spec in Hrep. subst v.
  cbn [is_False] in Hv1.
  assert (Hlen1 : List.length v1 = List.length objects)
    by (subst v1; rewrite list_update_length; apply repeat_length).
  assert (Hidx1 : nth_error v1 idx = Some (VisitedBy 0)).
  { subst v1. apply list_update_same. apply nth_error_Some. congruence. }
  change (validate_key keys 1 IntegerPlaceholder objects v1)
    with (validate_integer_placeholder keys 1 objects v1).
  destruct (validate_integer_placeholder keys 1 objects v1) as [v2 | |] eqn:Hi; cbn [bind];
    try discriminate.
  intros Hrest. pose proof (validate_integer_placeholder_Ok _ _ _ _ _ Hlen1 Hi)
    as (idx' & n & Hn & Hnum & Hfree).
  assert (Hclaims : claimed_between 1 (2 + List.length rest) v1 visited).
  { eapply claimed_between_trans;
      [apply (validate_key_claims keys 1 IntegerPlaceholder objects v1 v2); exact Hi
       | eapply validate_keys_claims; exact Hrest
       | lia | cbn [Nat.add]; lia]. }
  exists idx, idx', n. repeat split; try assumption.
  - destruct Hclaims as [_ Hc]. destruct (Hc idx) as [He | [Hnv _]]; congruence.
  - intros ->. congruence.
Qed.

Lemma level_objects_NoDup (list_set : list string -> list string) (paths objects : list string) :
  enumerates_sets list_set -> level_objects list_set paths = Ok objects -> NoDup objects.
Proof.
  intros Hset. unfold level_objects.
  destruct (mapM get_leftmost_part_of_path paths) as [raw | |]; cbn [bind]; try discriminate.
  intros H. injection H as <-. apply (Hset raw).
Qed.

(** X19. What [validate_s3_model_paths] asks of a model for the Python
    predictor, under the template in force. A call that returns has found,
    among the objects directly under the prefix, one named ["0model.onnx"]
    and a numeric one; and among the objects directly under
    ["0model.onnx"], one named ["123"] and a numeric one other than it. A
    model that lacks any of the four is never accepted. *)
Theorem python_template_requires (cwd : string) (list_set : list string -> list string)
  (str_predictor_type : PredictorType -> string) (s3_paths : list string)
  (commonprefix : string) :
  enumerates_sets list_set ->
  validate_s3_model_paths cwd list_set str_predictor_type s3_paths PythonPredictorType
    commonprefix = Ok tt ->
  (exists paths objects,
      level_paths cwd s3_paths commonprefix = Ok paths
      /\ level_objects list_set paths = Ok objects
      /\ In "0model.onnx" objects
      /\ exists version, In version objects /\ isnumeric version = true)
  /\ (exists paths objects,
         level_paths cwd s3_paths (os_path_join commonprefix "0model.onnx") = Ok paths
         /\ level_objects list_set paths = Ok objects
         /\ In "123" objects
         /\ exists n, In n objects /\ isnumeric n = true /\ n <> "123").
Proof.
  intros Hset. unfold validate_s3_model_paths, validate_s3_model_paths_fuel.
  destruct s3_paths as [| s3_path s3_paths]; [discriminate |].
  change (single_model_pattern PythonPredictorType)
    with (Ok (PDict [ (IntegerPlaceholder, PNone);
                      (AnyPlaceholder, PNone);
                      (new_GenericPlaceholder "0model.onnx",
                        PDict [ (new_GenericPlaceholder "123", PNone);
                                (IntegerPlaceholder, PNone) ]) ])).
  change (enough_fuel PythonPredictorType) with 3. cbn [bind]. intros H.
  apply frame_Ok_dict in H.
  destruct H as (paths & objects & keys & visited & Hpaths & Hobjects & Hkeys & Hv & _ & Hd).
  change (sort_keys (dict_keys _))
    with (Ok [ new_GenericPlaceholder "0model.onnx"; IntegerPlaceholder; AnyPlaceholder ])
    in Hkeys.
  injection Hkeys as <-.
  destruct (literal_then_integer _ _ _ _ _ Hv) as (idx & idx' & n & Hobj & Hvis & Hn & Hnum & _).
  split.
  { exists paths, objects. repeat split; try assumption.
    - eapply nth_error_In. exact Hobj.
    - exists n. split; [eapply nth_error_In; exact Hn | exact Hnum]. }
  destruct (descend_Ok _ _ _ _ _ _ _ Hd idx _ Hvis) as (obj & key & sub & Ho & Hk & Hsub & Hrec).
  cbn [Nat.add] in Ho. rewrite Hobj in Ho. injection Ho as <-.
  cbn [key_index nth_error] in Hk. injection Hk as <-.
  change (dict_get _ (new_GenericPlaceholder "0model.onnx"))
    with (Ok (PDict [ (new_GenericPlaceholder "123", PNone); (IntegerPlaceholder, PNone) ]))
    in Hsub.
  injection Hsub as <-. apply frame_Ok_dict in Hrec.
  destruct Hrec as (paths2 & objects2 & keys2 & visited2 & Hpaths2 & Hobjects2 & Hkeys2 & Hv2
                    & _ & _).
  change (sort_keys (dict_keys _))
    with (Ok [ new_GenericPlaceholder "123"; IntegerPlaceholder ]) in Hkeys2.
  injection Hkeys2 as <-.
  destruct (literal_then_integer _ _ _ _ _ Hv2)
    as (idx2 & idx2' & n2 & Hobj2 & _ & Hn2 & Hnum2 & Hne).
  exists paths2, objects2. repeat split; try assumption.
  - eapply nth_error_In. exact Hobj2.
  - exists n2. repeat split; [eapply nth_error_In; exact Hn2 | exact Hnum2 |].
    intros ->. apply Hne.
    pose proof (level_objects_NoDup _ _ _ Hset Hobjects2) as Hnd.
    rewrite NoDup_nth_error in Hnd. apply Hnd; [| congruence].
    apply nth_error_Some. congruence.
Qed.

(** A model that the template in force accepts *)
Lemma python_template_requires_witness :
  run_validate [ "p/0model.onnx/123"; "p/0model.onnx/7"; "p/1" ] PythonPredictorType "p" = Ok tt
  /\ exists paths objects,
       level_paths root_cwd [ "p/0model.onnx/123"; "p/0model.onnx/7"; "p/1" ] "p" = Ok paths
       /\ level_objects list_set_first_seen paths = Ok objects
       /\ In "0model.onnx" objects
       /\ exists version, In version objects /\ isnumeric version = true.
Proof.
  assert (H : run_validate [ "p/0model.onnx/123"; "p/0model.onnx/7"; "p/1" ]
                PythonPredictorType "p" = Ok tt) by reflexivity.
  split; [exact H |].
  exact (proj1 (python_template_requires root_cwd list_set_first_seen short_name _ _
                  first_seen_enumerates_sets H)).
Defined.

(** ** The rendering of a template *)

Lemma json_PDict (items : list (Placeholder * Pattern)) :
  json_model_template_representation (PDict items) = RDict (fold_left rendering_step items []).
Proof.
  cbn [json_model_template_representation]. f_equal.
  generalize (@nil (string * Representation)).
  induction items as [| [k sub] items IH]; intros dct; [reflexivity |].
  cbn [fold_left]. unfold rendering_step at 2. cbn [fst snd]. rewrite <- IH. reflexivity.
Qed.

Lemma representation_get_set (dct : list (string * Representation)) (key s : string)
  (value : Representation) :
  representation_get (representation_set dct key value) s
  = if String.eqb key s then Some value else representation_get dct s.
Proof.
  induction dct as [| [k v] dct IH]; cbn [representation_set representation_get].
  - reflexivity.
  - destruct (String.eqb_spec k key) as [-> | Hk]; cbn [representation_get].
    + destruct (String.eqb key s); reflexivity.
    + rewrite IH. destruct (String.eqb_spec k s) as [-> | Hs]; [| reflexivity].
      destruct (String.eqb_spec key s) as [-> | _]; [congruence | reflexivity].
Qed.

Lemma representation_set_In (dct : list (string * Representation)) (key s : string)
  (value : Representation) :
  In s (map fst (representation_set dct key value)) <-> s = key \/ In s (map fst dct).
Proof.
  induction dct as [| [k v] dct IH]; cbn [representation_set map fst In].
  - intuition congruence.
  - destruct (String.eqb_spec k key) as [-> | Hk]; cbn [map fst In].
    + intuition congruence.
    + rewrite IH. intuition congruence.
Qed.

Lemma representation_set_NoDup (dct : list (string * Representation)) (key : string)
  (value : Representation) :
  NoDup (map fst dct) -> NoDup (map fst (representation_set dct key value)).
Proof.
  induction dct as [| [k v] dct IH]; cbn [representation_set map fst]; intros H.
  - constructor; [intros [] | constructor].
  - inversion H as [| ? ? Hk Hnd]; subst.
    destruct (String.eqb_spec k key) as [-> | Hne]; cbn [map fst]; [exact H |].
    constructor; [| apply IH; exact Hnd].
    rewrite representation_set_In. intros [-> | Hin]; [congruence | contradiction].
Qed.

Lemma representation_set_new (dct : list (string * Representation)) (key : string)
  (value : Representation) :
  ~ In key (map fst dct) -> representation_set dct key value = (dct ++ [ (key, value) ])%list.
Proof.
  induction dct as [| [k v] dct IH]; cbn [representation_set map fst In app]; intros H;
    [reflexivity |].
  destruct (String.eqb_spec k key) as [-> | Hne]; [exfalso; apply H; left; reflexivity |].
  rewrite IH; [reflexivity |]. intros Hin. apply H. right. exact Hin.
Qed.

Lemma find_snoc {A : Type} (f : A -> bool) (l : list A) (a : A) :
  find f (l ++ [ a ]) = match find f l with
                        | Some x => Some x
                        | None => if f a then Some a else None
                        end.
Proof.
  induction l as [| x l IH]; cbn [app find]; [reflexivity |].
  destruct (f x); [reflexivity | exact IH].
Qed.

Lemma rendering_loop_get (items : list (Placeholder * Pattern))
  (dct : list (string * Representation)) (s : string) :
  representation_get (fold_left rendering_step items dct) s
  = match rendered_last items s with
    | Some sub => Some (json_model_template_representation sub)
    | None => representation_get dct s
    end.
Proof.
  unfold rendered_last. revert dct. induction items as [| [k sub] items IH]; intros dct;
    [reflexivity |].
  cbn [fold_left rev]. rewrite IH, find_snoc. cbn [fst].
  destruct (find (fun kv => String.eqb (str_key (fst kv)) s) (rev items)) as [kv |];
    cbn [option_map]; [reflexivity |].
  unfold rendering_step. cbn [fst snd]. rewrite representation_get_set.
  destruct (String.eqb (str_key k) s); reflexivity.
Qed.

Lemma rendering_loop_NoDup (items : list (Placeholder * Pattern))
  (dct : list (string * Representation)) :
  NoDup (map fst dct) -> NoDup (map fst (fold_left rendering_step items dct)).
Proof.
  revert dct. induction items as [| kv items IH]; intros dct H; [exact H |].
  cbn [fold_left]. apply IH. apply representation_set_NoDup. exact H.
Qed.

Lemma rendering_loop_distinct (items : list (Placeholder * Pattern))
  (dct : list (string * Representation)) :
  NoDup (map fst dct ++ map str_key (dict_keys items)) ->
  fold_left rendering_step items dct
  = (dct ++ map (fun kv => (str_key (fst kv), json_model_template_representation (snd kv)))
              items)%list.
Proof.
  revert dct. induction items as [| [k sub] items IH]; intros dct H.
  - cbn [fold_left map]. rewrite app_nil_r. reflexivity.
  - cbn [fold_left dict_keys map fst snd] in *. unfold rendering_step at 2. cbn [fst snd].
    rewrite representation_set_new.
    + rewrite IH.
      * rewrite <- app_assoc. reflexivity.
      * rewrite map_app, <- app_assoc. exact H.
    + intros Hin. apply NoDup_remove_2 in H. apply H. apply in_or_app. left. exact Hin.
Qed.

(** X20. The rendering of a dict of a template by
    [json_model_template_representation]. The result is a dict from strings
    that holds, for every string that some key renders as, the rendering of
    the value of the last such key; keys that render alike, such as a
    literal of value ["<any>"] and Any, are merged into one entry, so the
    rendering can lose a branch of the template. When the keys render
    apart, the result has an entry for every item, in the order of the dict. *)
Theorem json_model_template_representation_dict (items : list (Placeholder * Pattern)) :
  exists dct,
    json_model_template_representation (PDict items) = RDict dct
    /\ NoDup (map fst dct)
    /\ (forall s,
           representation_get dct s
           = option_map json_model_template_representation (rendered_last items s))
    /\ (NoDup (map str_key (dict_keys items)) ->
        dct = map (fun kv => (str_key (fst kv), json_model_template_representation (snd kv)))
                items).
Proof.
  eexists. split; [apply json_PDict |]. split; [| split].
  - apply rendering_loop_NoDup. constructor.
  - intros s. rewrite rendering_loop_get. destruct (rendered_last items s); reflexivity.
  - intros H. apply rendering_loop_distinct. exact H.
Qed.

(** ** Paths beside and above the prefix *)

Lemma relpath_names (cwd : string) (path start : list string) :
  Forall (fun x => is_name x = true) path -> path <> [] ->
  Forall (fun x => is_name x = true) start ->
  relpath cwd (String.concat "/" path) (String.concat "/" start)
  = match rel_list start path with
    | [] => Ok "."
    | rel => Ok (String.concat "/" rel)
    end.
Proof.
  intros Hpath Hne Hstart.
  destruct (concat_names _ Hstart) as (Ha1 & Hd1 & Hn1).
  destruct (concat_names _ Hpath) as (Ha2 & Hd2 & Hn2).
  rewrite (relpath_relative cwd _ _ Ha2 Hd2 Ha1 Hd1), Hn1, Hn2.
  destruct (String.eqb_spec (String.concat "/" path) "") as [He | _]; [| reflexivity].
  exfalso. destruct path as [| c comps]; [contradiction |].
  apply Forall_name_component in Hpath. inversion Hpath as [| ? ? Hc Hcomps]; subst.
  apply (concat_components c comps Hc Hcomps). exact He.
Qed.

Lemma commonprefix_list_refl (l : list string) : commonprefix_list l l = l.
Proof.
  induction l as [| a l IH]; [reflexivity |].
  cbn [commonprefix_list]. rewrite String.eqb_refl, IH. reflexivity.
Qed.

Lemma startswith_up (x : string) (rest : list string) :
  startswith (String.concat "/" (".." :: x :: rest)) "../" = true.
Proof. exact (startswith_app "../" (String.concat "/" (x :: rest))). Qed.

(** X21. Where a path stands to the prefix, for a prefix and paths written
    as names joined by separators, in any working directory. A path equal
    to the prefix is the relative path ["."]. A path that leaves the prefix
    at some name, to go on with another, has a relative path that starts
    with ["../"], and so has one that is the prefix cut two names or more
    short: the frame drops both. *)
Theorem relpath_beside_prefix (cwd : string) (common : list string) (a b : string)
  (rest tail : list string) :
  Forall (fun x => is_name x = true) (common ++ a :: rest) ->
  Forall (fun x => is_name x = true) (b :: tail) ->
  a <> b ->
  relpath cwd (String.concat "/" (common ++ a :: rest)) (String.concat "/" (common ++ a :: rest))
  = Ok "."
  /\ (exists rel,
         relpath cwd (String.concat "/" (common ++ b :: tail))
           (String.concat "/" (common ++ a :: rest)) = Ok rel
         /\ startswith rel "../" = true)
  /\ (common <> [] -> rest <> [] ->
      exists rel,
        relpath cwd (String.concat "/" common) (String.concat "/" (common ++ a :: rest))
        = Ok rel
        /\ startswith rel "../" = true).
Proof.
  intros Hprefix Hb Hab.
  assert (Hcommon : Forall (fun x => is_name x = true) common)
    by (apply Forall_app in Hprefix; apply Hprefix).
  split; [| split].
  - rewrite relpath_names; try assumption; [| destruct common; discriminate].
    unfold rel_list. rewrite commonprefix_list_refl, Nat.sub_diag, skipn_all. reflexivity.
  - rewrite relpath_names; try assumption;
      [| apply Forall_app; split; assumption | destruct common; discriminate].
    rewrite rel_list_app. unfold rel_list. cbn [commonprefix_list].
    apply String.eqb_neq in Hab. rewrite Hab.
    cbn [List.length Nat.sub repeat skipn app].
    destruct (repeat ".." (List.length rest) ++ b :: tail)%list as [| x more] eqn:Hl.
    + destruct (repeat ".." (List.length rest)); discriminate.
    + eexists. split; [reflexivity | apply startswith_up].
  - intros Hne Hrest. rewrite relpath_names; try assumption.
    pose proof (rel_list_app common (a :: rest) []) as Hrel. rewrite app_nil_r in Hrel.
    rewrite Hrel. unfold rel_list.
    replace (commonprefix_list (a :: rest) []) with (@nil string) by reflexivity.
    cbn [List.length Nat.sub repeat skipn app].
    destruct rest as [| r rest]; [contradiction |].
    cbn [List.length repeat app]. rewrite app_nil_r.
    eexists. split; [reflexivity | apply startswith_up].
Qed.

(** The versions of a model beside the one the prefix names *)
Lemma relpath_beside_prefix_witness :
  relpath "/srv" "models/a/1" "models/a/1" = Ok "."
  /\ exists rel, relpath "/srv" "models/a/2/model.pkl" "models/a/1" = Ok rel
                 /\ startswith rel "../" = true.
Proof.
  destruct (relpath_beside_prefix "/srv" [ "models"; "a" ] "1" "2" [] [ "model.pkl" ])
    as (H1 & H2 & _).
  - repeat constructor.
  - repeat constructor.
  - discriminate.
  - split; [exact H1 | exact H2].
Defined.

(** ** The frame that an exception comes from *)

Lemma frame_as_level_and_descent (cwd : string) (list_set : list string -> list string)
  (str_predictor_type : PredictorType -> string) (fuel : nat) (predictor_type : PredictorType)
  (pattern : Pattern) (s3_paths : list string) (commonprefix : string) :
  _validate_s3_model_paths cwd list_set str_predictor_type (S fuel) predictor_type pattern
    s3_paths commonprefix
  = (level <- frame_level cwd list_set str_predictor_type predictor_type pattern s3_paths
                commonprefix ;;
     let '(keys, objects, visited) := level in
     descend (fun sub_pattern new_commonprefix =>
                _validate_s3_model_paths cwd list_set str_predictor_type fuel predictor_type
                  sub_pattern s3_paths new_commonprefix)
       (pattern_items pattern) keys objects commonprefix 0 visited).
Proof.
  rewrite frame_eq. unfold frame_level.
  destruct (level_paths cwd s3_paths commonprefix) as [paths | |]; cbn [bind]; try reflexivity.
  destruct (level_objects list_set paths) as [objects | |]; cbn [bind]; try reflexivity.
  destruct pattern as [| items | v]; [| | reflexivity].
  - destruct objects as [| obj [| ? ?]]; try reflexivity.
    destruct (String.eqb obj "."); reflexivity.
  - destruct (sort_keys (dict_keys items)) as [keys | |]; cbn [bind]; try reflexivity.
    destruct (match_level str_predictor_type predictor_type commonprefix keys paths objects);
      reflexivity.
Qed.

Lemma descend_step (rec : Pattern -> string -> result unit)
  (items : list (Placeholder * Pattern)) (keys : list Placeholder) (objects : list string)
  (commonprefix : string) (obj_id : nat) (v : visit) (visited : list visit) :
  descend rec items keys objects commonprefix obj_id (v :: visited)
  = (frame <- sub_frame items keys objects commonprefix obj_id v ;;
     _ <- rec (fst frame) (snd frame) ;;
     descend rec items keys objects commonprefix (S obj_id) visited).
Proof.
  cbn [descend]. unfold sub_frame.
  destruct (getitem objects obj_id); cbn [bind]; try reflexivity.
  destruct (getitem keys (key_index v)); cbn [bind]; try reflexivity.
  destruct (dict_get items a0); reflexivity.
Qed.

Lemma sub_frame_Raise (items : list (Placeholder * Pattern)) (keys : list Placeholder)
  (objects : list string) (commonprefix : string) (obj_id : nat) (v : visit) (e : exn) :
  sub_frame items keys objects commonprefix obj_id v = Raise e -> e = IndexError \/ e = KeyError.
Proof.
  unfold sub_frame, getitem.
  destruct (nth_error objects obj_id); cbn [bind]; [| intros H; left; congruence].
  destruct (nth_error keys (key_index v)) as [key |]; cbn [bind]; [| intros H; left; congruence].
  destruct (dict_get items key) eqn:Hsub; cbn [bind]; try discriminate.
  intros H. injection H as <-. right. eapply dict_get_Raise. exact Hsub.
Qed.

Lemma sub_frame_prefix (items : list (Placeholder * Pattern)) (keys : list Placeholder)
  (objects : list string) (commonprefix : string) (obj_id : nat) (v : visit)
  (sub_pattern : Pattern) (new_commonprefix : string) :
  sub_frame items keys objects commonprefix obj_id v = Ok (sub_pattern, new_commonprefix) ->
  exists obj, In obj objects /\ new_commonprefix = os_path_join commonprefix obj.
Proof.
  unfold sub_frame.
  destruct (getitem objects obj_id) as [obj | |] eqn:Hobj; cbn [bind]; try discriminate.
  destruct (getitem keys (key_index v)) as [key | |]; cbn [bind]; try discriminate.
  destruct (dict_get items key); cbn [bind]; try discriminate.
  intros H. injection H as _ <-. exists obj. split; [| reflexivity].
  apply getitem_nth_error in Hobj. eapply nth_error_In. exact Hobj.
Qed.

(** The last loop raises exactly what stops it: the exception of the first
    turn that does not go through, as that turn raised it. *)
Lemma descend_Raise_from (rec : Pattern -> string -> result unit)
  (items : list (Placeholder * Pattern)) (keys : list Placeholder) (objects : list string)
  (commonprefix : string) (visited : list visit) (obj_id : nat) (e : exn) :
  descend rec items keys objects commonprefix obj_id visited = Raise e
  <-> exists idx v,
        nth_error visited idx = Some v
        /\ (forall j vj,
               j < idx -> nth_error visited j = Some vj ->
               exists sub_pattern new_commonprefix,
                 sub_frame items keys objects commonprefix (obj_id + j) vj
                 = Ok (sub_pattern, new_commonprefix)
                 /\ rec sub_pattern new_commonprefix = Ok tt)
        /\ (sub_frame items keys objects commonprefix (obj_id + idx) v = Raise e
            \/ exists sub_pattern new_commonprefix,
                 sub_frame items keys objects commonprefix (obj_id + idx) v
                 = Ok (sub_pattern, new_commonprefix)
                 /\ rec sub_pattern new_commonprefix = Raise e).
Proof.
  revert obj_id. induction visited as [| v0 visited IH]; intros obj_id.
  - split; [discriminate | intros (idx & v & H & _); destruct idx; discriminate].
  - rewrite descend_step. split.
    + destruct (sub_frame items keys objects commonprefix obj_id v0) as [[sub cp'] | e' |]
        eqn:Hframe; cbn [bind fst snd].
      * destruct (rec sub cp') as [[] | e' |] eqn:Hrec; cbn [bind].
        -- intros H. apply IH in H. destruct H as (idx & v & Hv & Hbefore & Hat).
           exists (S idx), v. split; [exact Hv |]. rewrite Nat.add_succ_r. split; [| exact Hat].
           intros [| j] vj Hj Hvj.
           ++ injection Hvj as <-. rewrite Nat.add_0_r. exists sub, cp'. split; assumption.
           ++ rewrite Nat.add_succ_r. apply Hbefore; [lia | exact Hvj].
        -- intros H. injection H as ->. exists 0, v0. rewrite Nat.add_0_r.
           split; [reflexivity |]. split; [intros j vj Hj; lia |].
           right. exists sub, cp'. split; assumption.
        -- discriminate.
      * intros H. injection H as ->. exists 0, v0. rewrite Nat.add_0_r.
        split; [reflexivity |]. split; [intros j vj Hj; lia | left; exact Hframe].
      * discriminate.
    + intros (idx & v & Hv & Hbefore & Hat). destruct idx as [| idx].
      * injection Hv as <-. rewrite Nat.add_0_r in Hat.
        destruct Hat as [Hat | (sub & cp' & Hframe & Hrec)].
        -- rewrite Hat. reflexivity.
        -- rewrite Hframe. cbn [bind fst snd]. rewrite Hrec. reflexivity.
      * destruct (Hbefore 0 v0 (Nat.lt_0_succ idx) eq_refl) as (sub & cp' & Hframe & Hrec).
        rewrite Nat.add_0_r in Hframe. rewrite Hframe. cbn [bind fst snd]. rewrite Hrec.
        cbn [bind]. apply IH. exists idx, v. split; [exact Hv |].
        rewrite Nat.add_succ_r in Hat. split; [| exact Hat].
        intros j vj Hj Hvj. specialize (Hbefore (S j) vj). rewrite Nat.add_succ_r in Hbefore.
        apply Hbefore; [lia | exact Hvj].
Qed.

Lemma frame_level_Raise (cwd : string) (list_set : list string -> list string)
  (str_predictor_type : PredictorType -> string) (predictor_type : PredictorType)
  (pattern : Pattern) (s3_paths : list string) (commonprefix : string)
  (messages : list string) :
  frame_level cwd list_set str_predictor_type predictor_type pattern s3_paths commonprefix
  = Raise (CortexException messages) ->
  exists message,
    messages = [ context str_predictor_type predictor_type commonprefix; message ]
    \/ messages = [ model_context str_predictor_type predictor_type commonprefix; message ].
Proof.
  unfold frame_level.
  destruct (level_paths cwd s3_paths commonprefix) as [paths | e |] eqn:Hpaths; cbn [bind];
    [| intros H; apply level_paths_Raise in Hpaths; congruence | discriminate].
  destruct (level_objects list_set paths) as [objects | e |] eqn:Hobjects; cbn [bind];
    [| exfalso; eapply level_objects_Raise; exact Hobjects | discriminate].
  destruct pattern as [| items | v]; [| | discriminate].
  - intros H. eexists. left.
    destruct objects as [| obj [| ? ?]]; try (injection H as <-; reflexivity).
    destruct (String.eqb obj "."); [discriminate | injection H as <-; reflexivity].
  - destruct (sort_keys (dict_keys items)) as [keys | e |] eqn:Hkeys; cbn [bind];
      [| intros H; apply sort_keys_Raise in Hkeys; congruence | discriminate].
    destruct (match_level str_predictor_type predictor_type commonprefix keys paths objects)
      as [visited | e |] eqn:Hlevel; cbn [bind]; try discriminate.
    intros H. injection H as ->. eapply match_level_Raise. exact Hlevel.
Qed.

Lemma enters_prefix (cwd : string) (list_set : list string -> list string)
  (str_predictor_type : PredictorType -> string) (predictor_type : PredictorType)
  (s3_paths : list string) (pattern : Pattern) (commonprefix : string) (pattern' : Pattern)
  (commonprefix' : string) :
  enters cwd list_set str_predictor_type predictor_type s3_paths pattern commonprefix pattern'
    commonprefix' ->
  exists objs, commonprefix' = fold_left os_path_join objs commonprefix.
Proof.
  intros H. induction H as [| ? ? ? ? ? ? ? ? ? ? ? _ _ Hframe _ IH].
  - exists []. reflexivity.
  - destruct IH as [objs ->]. apply sub_frame_prefix in Hframe.
    destruct Hframe as (obj & _ & ->). exists (obj :: objs). reflexivity.
Qed.

Section ErrorOfAFrame.

Variable cwd : string.
Variable list_set : list string -> list string.
Variable str_predictor_type : PredictorType -> string.

Lemma frame_Raise_from (fuel : nat) (predictor_type : PredictorType) (pattern : Pattern)
  (s3_paths : list string) (commonprefix : string) (e : exn) :
  _validate_s3_model_paths cwd list_set str_predictor_type (S fuel) predictor_type pattern
    s3_paths commonprefix = Raise e
  <-> frame_level cwd list_set str_predictor_type predictor_type pattern s3_paths commonprefix
      = Raise e
      \/ exists keys objects visited idx,
           frame_level cwd list_set str_predictor_type predictor_type pattern s3_paths
             commonprefix = Ok (keys, objects, visited)
           /\ descent_stops_at
                (fun sub_pattern new_commonprefix =>
                   _validate_s3_model_paths cwd list_set str_predictor_type fuel predictor_type
                     sub_pattern s3_paths new_commonprefix)
                (pattern_items pattern) keys objects commonprefix visited idx e.
Proof.
  rewrite frame_as_level_and_descent.
  destruct (frame_level cwd list_set str_predictor_type predictor_type pattern s3_paths
              commonprefix) as [[[keys objects] visited] | e' |]; cbn [bind].
  - rewrite descend_Raise_from. unfold descent_stops_at. cbn [Nat.add]. split.
    + intros (idx & v & H). right. exists keys, objects, visited, idx.
      split; [reflexivity |]. exists v. exact H.
    + intros [H | (keys' & objects' & visited' & idx & H & v & Hstop)]; [discriminate |].
      injection H as <- <- <-. exists idx, v. exact Hstop.
  - split.
    + intros H. left. congruence.
    + intros [H | (keys & objects & visited & idx & H & _)]; [congruence | discriminate].
  - split; [discriminate |].
    intros [H | (keys & objects & visited & idx & H & _)]; discriminate.
Qed.

Lemma frame_Raise_entered (fuel : nat) (predictor_type : PredictorType) (pattern : Pattern)
  (s3_paths : list string) (commonprefix : string) (e : exn) :
  _validate_s3_model_paths cwd list_set str_predictor_type fuel predictor_type pattern s3_paths
    commonprefix = Raise e ->
  exists pattern' commonprefix',
    enters cwd list_set str_predictor_type predictor_type s3_paths pattern commonprefix
      pattern' commonprefix'
    /\ (frame_level cwd list_set str_predictor_type predictor_type pattern' s3_paths
          commonprefix' = Raise e
        \/ exists keys objects visited idx v,
             frame_level cwd list_set str_predictor_type predictor_type pattern' s3_paths
               commonprefix' = Ok (keys, objects, visited)
             /\ nth_error visited idx = Some v
             /\ sub_frame (pattern_items pattern') keys objects commonprefix' idx v = Raise e).
Proof.
  revert pattern commonprefix. induction fuel as [| fuel IH]; intros pattern commonprefix H;
    [discriminate |].
  apply frame_Raise_from in H.
  destruct H as [H | (keys & objects & visited & idx & Hlevel & v & Hv & _ & Hat)].
  - exists pattern, commonprefix. split; [apply enters_here | left; exact H].
  - destruct Hat as [Hat | (sub & cp' & Hframe & Hrec)].
    + exists pattern, commonprefix. split; [apply enters_here |].
      right. exists keys, objects, visited, idx, v. repeat split; assumption.
    + destruct (IH _ _ Hrec) as (pattern' & commonprefix' & Henters & Hfrom).
      exists pattern', commonprefix'. split; [| exact Hfrom].
      eapply enters_below; eassumption.
Qed.

Lemma frame_wraps_once (fuel : nat) (predictor_type : PredictorType)
  (items : list (Placeholder * Pattern)) (s3_paths : list string) (commonprefix : string)
  (paths objects : list string) (keys : list Placeholder) (inner : list string) :
  level_paths cwd s3_paths commonprefix = Ok paths ->
  level_objects list_set paths = Ok objects ->
  sort_keys (dict_keys items) = Ok keys ->
  validate_keys keys 0 keys objects (repeat NotVisited (List.length objects))
  = Raise (CortexException inner) ->
  exists message,
    inner = [ message ]
    /\ _validate_s3_model_paths cwd list_set str_predictor_type (S fuel) predictor_type
         (PDict items) s3_paths commonprefix
       = Raise (CortexException [ context str_predictor_type predictor_type commonprefix;
                                  message ]).
Proof.
  intros Hpaths Hobjects Hkeys Hrules.
  destruct (validate_keys_Raise _ _ _ _ _ _ Hrules) as [message ->].
  exists message. split; [reflexivity |].
  rewrite frame_eq, Hpaths. cbn [bind]. rewrite Hobjects. cbn [bind]. rewrite Hkeys.
  cbn [bind]. unfold match_level, try_validate_keys. rewrite Hrules. reflexivity.
Qed.

End ErrorOfAFrame.

(** C5, as the code has it. The [try] statement of a frame spans its rules
    and not its calls to itself. So a [CortexException] of a rule validator
    leaves the frame whose rules were running wrapped once, under the
    context of that frame and with the message kept. And what a frame
    raises is what its own level raised, or else, the level passed, what
    stopped its last loop: the exception of the first frame it called that
    did not return, as that frame raised it, the frame adding nothing and
    holding nothing back. Every exception that the matcher surfaces is thus
    the exception of one frame that the matcher came to and whose own level
    raised it (or that of a lookup of its last loop, which is no
    [CortexException]); a [CortexException] has the one context of that
    frame, whose prefix is the prefix of the first frame joined with the
    objects descended into, and one message. *)
Theorem error_has_the_context_of_its_frame (cwd : string)
  (list_set : list string -> list string) (str_predictor_type : PredictorType -> string)
  (predictor_type : PredictorType) (s3_paths : list string) :
  (forall fuel items commonprefix paths objects keys inner,
      level_paths cwd s3_paths commonprefix = Ok paths ->
      level_objects list_set paths = Ok objects ->
      sort_keys (dict_keys items) = Ok keys ->
      validate_keys keys 0 keys objects (repeat NotVisited (List.length objects))
      = Raise (CortexException inner) ->
      exists message,
        inner = [ message ]
        /\ _validate_s3_model_paths cwd list_set str_predictor_type (S fuel) predictor_type
             (PDict items) s3_paths commonprefix
           = Raise (CortexException [ context str_predictor_type predictor_type commonprefix;
                                      message ]))
  /\ (forall fuel pattern commonprefix e,
         _validate_s3_model_paths cwd list_set str_predictor_type (S fuel) predictor_type
           pattern s3_paths commonprefix = Raise e
         <-> frame_level cwd list_set str_predictor_type predictor_type pattern s3_paths
               commonprefix = Raise e
             \/ exists keys objects visited idx,
                  frame_level cwd list_set str_predictor_type predictor_type pattern s3_paths
                    commonprefix = Ok (keys, objects, visited)
                  /\ descent_stops_at
                       (fun sub_pattern new_commonprefix =>
                          _validate_s3_model_paths cwd list_set str_predictor_type fuel
                            predictor_type sub_pattern s3_paths new_commonprefix)
                       (pattern_items pattern) keys objects commonprefix visited idx e)
  /\ (forall fuel pattern commonprefix e,
         _validate_s3_model_paths cwd list_set str_predictor_type fuel predictor_type pattern
           s3_paths commonprefix = Raise e ->
         exists pattern' commonprefix',
           enters cwd list_set str_predictor_type predictor_type s3_paths pattern commonprefix
             pattern' commonprefix'
           /\ (frame_level cwd list_set str_predictor_type predictor_type pattern' s3_paths
                 commonprefix' = Raise e
               \/ exists keys objects visited idx v,
                    frame_level cwd list_set str_predictor_type predictor_type pattern'
                      s3_paths commonprefix' = Ok (keys, objects, visited)
                    /\ nth_error visited idx = Some v
                    /\ sub_frame (pattern_items pattern') keys objects commonprefix' idx v
                       = Raise e))
  /\ (forall pattern commonprefix messages,
         frame_level cwd list_set str_predictor_type predictor_type pattern s3_paths
           commonprefix = Raise (CortexException messages) ->
         exists message,
           messages = [ context str_predictor_type predictor_type commonprefix; message ]
           \/ messages = [ model_context str_predictor_type predictor_type commonprefix;
                           message ])
  /\ (forall items keys objects commonprefix obj_id v e,
         sub_frame items keys objects commonprefix obj_id v = Raise e ->
         e = IndexError \/ e = KeyError)
  /\ (forall pattern commonprefix pattern' commonprefix',
         enters cwd list_set str_predictor_type predictor_type s3_paths pattern commonprefix
           pattern' commonprefix' ->
         exists objs, commonprefix' = fold_left os_path_join objs commonprefix).
Proof.
  split; [| split; [| split; [| split; [| split]]]].
  - intros fuel items commonprefix paths objects keys inner Hpaths Hobjects Hkeys Hrules.
    eapply frame_wraps_once; eassumption.
  - intros fuel pattern commonprefix e. apply frame_Raise_from.
  - intros fuel pattern commonprefix e. apply frame_Raise_entered.
  - intros pattern commonprefix messages. apply frame_level_Raise.
  - intros items keys objects commonprefix obj_id v e. apply sub_frame_Raise.
  - intros pattern commonprefix pattern' commonprefix'. apply enters_prefix.
Qed.

(** The model that lacks ["p/0model.onnx/123"]: the frame of ["p"] calls the
    frame of ["p/0model.onnx"], whose rules fail, and raises what that frame
    raised. *)
Lemma error_has_the_context_of_its_frame_witness :
  exists keys objects visited idx,
    frame_level root_cwd list_set_first_seen short_name PythonPredictorType
      (PDict [ (IntegerPlaceholder, PNone);
               (AnyPlaceholder, PNone);
               (new_GenericPlaceholder "0model.onnx",
                 PDict [ (new_GenericPlaceholder "123", PNone);
                         (IntegerPlaceholder, PNone) ]) ])
      [ "p/1"; "p/0model.onnx/x" ] "p" = Ok (keys, objects, visited)
    /\ descent_stops_at
         (fun sub_pattern new_commonprefix =>
            _validate_s3_model_paths root_cwd list_set_first_seen short_name 2
              PythonPredictorType sub_pattern [ "p/1"; "p/0model.onnx/x" ] new_commonprefix)
         [ (IntegerPlaceholder, PNone);
           (AnyPlaceholder, PNone);
           (new_GenericPlaceholder "0model.onnx",
             PDict [ (new_GenericPlaceholder "123", PNone);
                     (IntegerPlaceholder, PNone) ]) ]
         keys objects "p" visited idx
         (CortexException [ "python predictor at 'p/0model.onnx'";
                            "generic placeholder for 123 wasn't found" ]).
Proof.
  destruct (proj1 (proj1 (proj2 (error_has_the_context_of_its_frame root_cwd
                                   list_set_first_seen short_name PythonPredictorType
                                   [ "p/1"; "p/0model.onnx/x" ]))
                     2
                     (PDict [ (IntegerPlaceholder, PNone);
                              (AnyPlaceholder, PNone);
                              (new_GenericPlaceholder "0model.onnx",
                                PDict [ (new_GenericPlaceholder "123", PNone);
                                        (IntegerPlaceholder, PNone) ]) ])
                     "p"
                     (CortexException [ "python predictor at 'p/0model.onnx'";
                                        "generic placeholder for 123 wasn't found" ]))
             eq_refl) as [H | H].
  - discriminate H.
  - exact H.
Defined.

(** ** Single beside another rule *)

Lemma validate_keys_single (keys pre post : list Placeholder) (objects : list string)
  (visited : list visit) :
  keys = (pre ++ SinglePlaceholder :: post)%list -> 2 <= List.length keys ->
  exists e, validate_keys keys 0 keys objects visited = Raise e
            /\ (forall v,
                   validate_keys keys 0 pre objects visited = Ok v ->
                   e = CortexException [ "only a single <single> is allowed per directory" ]).
Proof.
  intros Hkeys Hlen.
  assert (Hrun : validate_keys keys 0 keys objects visited
                 = (v <- validate_keys keys 0 pre objects visited ;;
                    validate_keys keys (0 + List.length pre) (SinglePlaceholder :: post) objects
                      v)).
  { rewrite <- validate_keys_app, <- Hkeys. reflexivity. }
  rewrite Hrun. clear Hrun.
  pose proof (validate_keys_finished keys pre 0 objects visited) as Hfin.
  destruct (validate_keys keys 0 pre objects visited) as [v | e |]; cbn [bind].
  - cbn [validate_keys].
    change (validate_key keys (0 + List.length pre) SinglePlaceholder objects v)
      with (validate_single_placeholder keys (0 + List.length pre) objects v).
    unfold validate_single_placeholder.
    assert (H1 : (1 <? List.length keys)%nat = true) by (apply Nat.ltb_lt; lia).
    rewrite H1. cbn [orb bind]. eexists. split; [reflexivity | intros; reflexivity].
  - exists e. split; [reflexivity | discriminate].
  - exfalso. apply Hfin. reflexivity.
Qed.

(** X2. Single shares a level with no other rule. Where a level has Single
    among two keys or more, its rules never return: when the rules before
    Single have run, Single raises its own error, whatever the objects are,
    also when there is none. The level never passes, and a frame on a dict
    that has Single beside another key never returns. *)
Theorem single_shares_no_level (cwd : string) (list_set : list string -> list string)
  (str_predictor_type : PredictorType -> string) (predictor_type : PredictorType)
  (items : list (Placeholder * Pattern)) (keys pre post : list Placeholder) :
  keys = (pre ++ SinglePlaceholder :: post)%list ->
  2 <= List.length keys ->
  (forall objects visited v,
      validate_keys keys 0 pre objects visited = Ok v ->
      validate_keys keys 0 keys objects visited
      = Raise (CortexException [ "only a single <single> is allowed per directory" ]))
  /\ (forall commonprefix paths objects,
         exists e,
           match_level str_predictor_type predictor_type commonprefix keys paths objects
           = Raise e)
  /\ (forall fuel s3_paths commonprefix,
         Permutation keys (dict_keys items) ->
         _validate_s3_model_paths cwd list_set str_predictor_type fuel predictor_type
           (PDict items) s3_paths commonprefix <> Ok tt).
Proof.
  intros Hkeys Hlen.
  assert (Hlevel : forall commonprefix paths objects,
             exists e,
               match_level str_predictor_type predictor_type commonprefix keys paths objects
               = Raise e).
  { intros commonprefix paths objects. unfold match_level, try_validate_keys.
    destruct (validate_keys_single keys pre post objects
                (repeat NotVisited (List.length objects)) Hkeys Hlen) as (e & -> & _).
    destruct e; eexists; reflexivity. }
  split; [| split].
  - intros objects visited v Hpre.
    destruct (validate_keys_single keys pre post objects visited Hkeys Hlen) as (e & He & Hsingle).
    rewrite He, (Hsingle v Hpre). reflexivity.
  - exact Hlevel.
  - intros fuel s3_paths commonprefix Hperm H. destruct fuel as [| fuel]; [discriminate |].
    apply frame_Ok_dict in H.
    destruct H as (paths & objects & keys' & visited & _ & _ & Hsort & Hv & _).
    apply sort_keys_Permutation in Hsort.
    assert (Hin : In SinglePlaceholder keys').
    { eapply Permutation_in; [symmetry; exact Hsort |].
      eapply Permutation_in; [exact Hperm |]. rewrite Hkeys. apply in_elt. }
    assert (Hlen' : 2 <= List.length keys').
    { rewrite (Permutation_length Hsort), <- (Permutation_length Hperm). exact Hlen. }
    apply in_split in Hin. destruct Hin as (pre' & post' & Hkeys').
    destruct (validate_keys_single keys' pre' post' objects
                (repeat NotVisited (List.length objects)) Hkeys' Hlen') as (e & He & _).
    congruence.
Qed.

(** Single beside Any, on one model directory *)
Lemma single_shares_no_level_witness :
  validate_keys [ SinglePlaceholder; AnyPlaceholder ] 0 [ SinglePlaceholder; AnyPlaceholder ]
    [ "a" ] [ NotVisited ]
  = Raise (CortexException [ "only a single <single> is allowed per directory" ]).
Proof.
  refine (proj1 (single_shares_no_level root_cwd list_set_first_seen short_name
                   PythonPredictorType [] [ SinglePlaceholder; AnyPlaceholder ] []
                   [ AnyPlaceholder ] _ _) [ "a" ] [ NotVisited ] [ NotVisited ] _).
  - reflexivity.
  - cbn. lia.
  - reflexivity.
Defined.

(** ** The Integer rule and the names that are not made of digits *)

Lemma is_digit_char_numeric (c : ascii) : is_digit_char c = true -> isnumeric_char c = true.
Proof.
  unfold is_digit_char, isnumeric_char. intros H. rewrite H. reflexivity.
Qed.

Lemma all_digits_numeric (s : string) : all_digits s = true -> isnumeric s = true.
Proof.
  destruct s as [| c s]; [discriminate |]. unfold all_digits, isnumeric.
  generalize (String c s). clear. intros s.
  induction s as [| c s IH]; cbn [all_chars]; [reflexivity |].
  intros H. apply andb_true_iff in H. destruct H as [Hc Hs].
  rewrite (is_digit_char_numeric c Hc), (IH Hs). reflexivity.
Qed.

(** C2, against the code. The Integer rule takes a name for an integer when
    [str.isnumeric] accepts it, and that is more than the names made of
    digits: the name made of the vulgar fraction one half alone is numeric
    and has no digit. A level whose sole rule is Integer passes on that one
    object, and the whole of [validate_s3_model_paths] accepts a model whose
    versions are named so. On the objects whose numeric names are all made
    of digits the level does what the specification says: it passes if and
    only if there is exactly one object and its name is made of digits, it
    fails with the "too many" error on two such objects or more, and with
    the "not found" error on none. *)
Theorem integer_level_takes_a_fraction :
  (isnumeric one_half = true /\ all_digits one_half = false)
  /\ (forall str_predictor_type predictor_type commonprefix paths,
         match_level str_predictor_type predictor_type commonprefix [ IntegerPlaceholder ] paths
           [ one_half ] = Ok [ VisitedBy 0 ])
  /\ run_validate [ "p/0model.onnx/123"; "p/0model.onnx/" ++ one_half; "p/" ++ one_half ]
       PythonPredictorType "p" = Ok tt
  /\ (forall s, all_digits s = true -> isnumeric s = true)
  /\ (forall str_predictor_type predictor_type commonprefix paths objects,
         (forall obj, In obj objects -> isnumeric obj = all_digits obj) ->
         ((exists visited,
              match_level str_predictor_type predictor_type commonprefix [ IntegerPlaceholder ]
                paths objects = Ok visited)
          <-> (exists obj, objects = [ obj ] /\ all_digits obj = true))
         /\ (2 <= List.length (filter all_digits objects) ->
             match_level str_predictor_type predictor_type commonprefix [ IntegerPlaceholder ]
               paths objects
             = Raise (CortexException
                        [ context str_predictor_type predictor_type commonprefix;
                          "too many <integer> appearances in path" ]))
         /\ (List.length (filter all_digits objects) = 0 ->
             match_level str_predictor_type predictor_type commonprefix [ IntegerPlaceholder ]
               paths objects
             = Raise (CortexException
                        [ context str_predictor_type predictor_type commonprefix;
                          "<integer> not found in path" ]))).
Proof.
  split; [split; reflexivity |]. split; [| split; [| split]].
  - intros str_predictor_type predictor_type commonprefix paths.
    apply match_level_Ok. split; reflexivity.
  - vm_compute. reflexivity.
  - exact all_digits_numeric.
  - intros str_predictor_type predictor_type commonprefix paths objects Hagree.
    assert (Hcount : count_numeric objects = List.length (filter all_digits objects)).
    { unfold count_numeric. f_equal. apply filter_ext_in. exact Hagree. }
    destruct (integer_sole_rule str_predictor_type predictor_type commonprefix paths objects)
      as (Hpass & Hmany & Hnone).
    rewrite Hcount in Hmany, Hnone. split; [| split; assumption].
    rewrite Hpass. split; intros (obj & -> & Hobj); exists obj; (split; [reflexivity |]).
    + rewrite <- (Hagree obj (or_introl eq_refl)). exact Hobj.
    + rewrite (Hagree obj (or_introl eq_refl)). exact Hobj.
Qed.

(** Two versions named by digits and a file beside them *)
Lemma integer_level_takes_a_fraction_witness :
  match_level short_name PythonPredictorType "models/a" [ IntegerPlaceholder ]
    [ "1/a"; "2/b"; "model.pkl" ] [ "1"; "2"; "model.pkl" ]
  = Raise (CortexException [ "python predictor at 'models/a'";
                             "too many <integer> appearances in path" ]).
Proof.
  refine (proj1 (proj2 (proj2 (proj2 (proj2 (proj2 integer_level_takes_a_fraction)))
                          short_name PythonPredictorType "models/a"
                          [ "1/a"; "2/b"; "model.pkl" ] [ "1"; "2"; "model.pkl" ] _)) _).
  - intros obj [<- | [<- | [<- | []]]]; reflexivity.
  - vm_compute. lia.
Defined.
